(** * Waveform analysis (T9BeamTestAna, [new_analysis/waveform_analysis.py])

    A shallow embedding of the class [WaveformAnalysis] and of the numpy
    operations it is written with, and the properties of its four stages
    (pedestal, peak, signal time, integrated charge) and of [run_analysis].

    Numbers.  Raw samples are integer digitizer counts ([Z]).  Every
    floating-point quantity of the source is read as a real number ([R]):
    rounding is not modelled, and [0.4] is the real 4/10.  Python integers
    (window bounds, [ns_per_sample], sample indices) are [Z].

    Failure.  A stage returns [option]: [None] stands for a Python exception
    (IndexError of an index out of range, ValueError of [argmax] on an empty
    array or of [interp] on arrays of different lengths, ZeroDivisionError,
    AttributeError of an attribute that is not set yet).  numpy's mean of an
    empty slice is NaN, which no real number stands for: the embedding stops
    there with [None] as well. *)

From Stdlib Require Import Reals List ZArith Lra Lia Bool PeanoNat.
Import ListNotations.

Open Scope R_scope.

(** ** The error monad of the stages *)

Definition bind {A B : Type} (m : option A) (k : A -> option B) : option B :=
  match m with
  | Some a => k a
  | None => None
  end.

Notation "x <- m ;; k" := (bind m (fun x => k))
  (at level 61, m at next level, right associativity).
Notation "' p <- m ;; k" := (bind m (fun p => k))
  (at level 61, p pattern, m at next level, right associativity).

Fixpoint mapM {A B : Type} (f : A -> option B) (l : list A) : option (list B) :=
  match l with
  | [] => Some []
  | a :: t => b <- f a ;; bs <- mapM f t ;; Some (b :: bs)
  end.

(** ** numpy and Python operations used by the class *)

Module Np.

(** Comparison of two floats as a Python bool. *)
Definition ltb (a b : R) : bool := if Rlt_dec a b then true else false.
Definition gtb (a b : R) : bool := ltb b a.
Definition eqb (a b : R) : bool := if Req_dec_T a b then true else false.

(** [range(a, b)]. *)
Definition range (a b : Z) : list Z :=
  map (fun k => (a + Z.of_nat k)%Z) (seq 0 (Z.to_nat (b - a))).

(** [l[k]] for one integer index: negative indices count from the end,
    anything outside [-len, len) raises IndexError. *)
Definition getitem {A : Type} (l : list A) (k : Z) : option A :=
  let n := Z.of_nat (length l) in
  if (0 <=? k)%Z then nth_error l (Z.to_nat k)
  else if (- n <=? k)%Z then nth_error l (Z.to_nat (k + n))
  else None.

(** [row[bins]] with a sequence of integers (fancy indexing along the
    sample axis). *)
Definition take {A : Type} (l : list A) (bins : list Z) : option (list A) :=
  mapM (getitem l) bins.

(** Bound of a slice with positive step, clipped as Python does. *)
Definition clip_bound (n k : Z) : Z :=
  let k' := if (k <? 0)%Z then (k + n)%Z else k in
  if (k' <? 0)%Z then 0%Z else if (n <? k')%Z then n else k'.

(** [l[a:b]]. *)
Definition slice {A : Type} (l : list A) (a b : Z) : list A :=
  let n := Z.of_nat (length l) in
  let a' := Z.to_nat (clip_bound n a) in
  let b' := Z.to_nat (clip_bound n b) in
  skipn a' (firstn b' l).

(** [l[k::-1]]: from index [k] down to index 0.  A negative [k] counts from
    the end; a start below [-len] gives the empty slice and a start past the
    end begins at the last element. *)
Definition slice_down {A : Type} (l : list A) (k : Z) : list A :=
  let n := Z.of_nat (length l) in
  let k' := if (k <? 0)%Z then (k + n)%Z else k in
  if (k' <? 0)%Z then []
  else rev (firstn (S (Z.to_nat (if (n <=? k')%Z then n - 1 else k')%Z)) l).

(** [np.sum], [np.mean] and [np.std] (population standard deviation,
    [sqrt(mean((x - mean(x))**2))]) of one row. *)
Definition sum (l : list R) : R := fold_right Rplus 0 l.
Definition mean (l : list R) : R := sum l / INR (length l).
Definition std (l : list R) : R :=
  sqrt (mean (map (fun x => (x - mean l) * (x - mean l)) l)).

(** [np.argmax] of a row of floats: the index of the first occurrence of the
    maximum; ValueError on an empty row. *)
Fixpoint argmax_from (best : R) (bi i : nat) (l : list R) : nat :=
  match l with
  | [] => bi
  | x :: t => if ltb best x then argmax_from x i (S i) t
              else argmax_from best bi (S i) t
  end.

Definition argmax (l : list R) : option nat :=
  match l with
  | [] => None
  | x :: t => Some (argmax_from x 0 1 t)
  end.

(** [np.argmax] of a row of bools: the index of the first [True], and 0 when
    every entry is [False] (the first occurrence of the maximum [False]);
    ValueError on an empty row. *)
Fixpoint first_true (l : list bool) : option nat :=
  match l with
  | [] => None
  | true :: _ => Some 0%nat
  | false :: t => option_map S (first_true t)
  end.

Definition argmax_bool (l : list bool) : option nat :=
  match l with
  | [] => None
  | _ => Some (match first_true l with Some k => k | None => 0%nat end)
  end.

(** [np.cumsum] of a row of bools (each counted as 0 or 1). *)
Fixpoint cumsum_from (acc : nat) (l : list bool) : list nat :=
  match l with
  | [] => []
  | b :: t => let acc' := (acc + if b then 1 else 0)%nat in
              acc' :: cumsum_from acc' t
  end.

Definition cumsum (l : list bool) : list nat := cumsum_from 0 l.

(** [np.interp(x, xp, fp)] for two sample points, as numpy computes it: the
    left value below [xp[0]], the right value above [xp[1]] and at [xp[1]],
    the left value at [xp[0]], the chord in between.  [xp] and [fp] of
    different lengths raise ValueError; the class only calls it with a
    two-element [fp]. *)
Definition interp (x : R) (xp fp : list R) : option R :=
  match xp, fp with
  | [x0; x1], [f0; f1] =>
      Some (if ltb x1 x then f1
            else if ltb x x0 then f0
            else if ltb x x1 then
              if eqb x0 x then f0
              else (f1 - f0) / (x1 - x0) * (x - x0) + f0
            else f1)
  | _, _ => None
  end.

(** Elementwise operations on two rows (rows of one batch have one length). *)
Fixpoint map2 {A B C : Type} (f : A -> B -> C) (l : list A) (m : list B) : list C :=
  match l, m with
  | a :: l', b :: m' => f a b :: map2 f l' m'
  | _, _ => []
  end.

End Np.

(** ** The class [WaveformAnalysis] *)

(** The attributes [__init__] sets from its arguments and never changes. *)
Record Config := {
  threshold : R;
  reverse_polarity : bool;
  ns_per_sample : Z;
  voltage_scale : R;
  analysis_window : Z * Z;
  pedestal_window : Z * Z;
  analysis_bins : list Z;
  pedestal_bins : list Z;
  time_offset : R
}.

(** Class attributes. *)
Definition peak_rise_time_fraction : R := 0.4.
Definition impedance : R := 50.

(** An instance.  [waveforms] is the N x M array of raw counts, one row per
    waveform.  An attribute that a stage sets is [None] until that stage has
    run: [amplitudes] and [peak_locations] are initialised to Python's [None],
    the others do not exist before their stage.  Per-waveform columns (shape
    (N, 1) in numpy) are lists with one entry per row. *)
Record WaveformAnalysis := {
  config : Config;
  waveforms : list (list Z);
  amplitudes : option (list (list R));
  pedestals : option (list R);
  pedestal_sigmas : option (list R);
  peak_locations : option (list nat);
  peak_times : option (list R);
  peak_voltages : option (list R);
  signal_times : option (list R);
  integrated_charges : option (list R);
  is_over_threshold : option (list bool)
}.

(** [__init__].  The floor divisions by [ns_per_sample] raise
    ZeroDivisionError when it is 0. *)
Definition init (waveforms : list (list Z)) (threshold : R)
    (analysis_window pedestal_window : Z * Z) (reverse_polarity : bool)
    (ns_per_sample : Z) (voltage_scale time_offset : R) : option WaveformAnalysis :=
  if (ns_per_sample =? 0)%Z then None
  else Some {|
    config := {|
      threshold := threshold;
      reverse_polarity := reverse_polarity;
      ns_per_sample := ns_per_sample;
      voltage_scale := voltage_scale;
      analysis_window := analysis_window;
      pedestal_window := pedestal_window;
      analysis_bins := Np.range (fst analysis_window / ns_per_sample)
                                (snd analysis_window / ns_per_sample);
      pedestal_bins := Np.range (fst pedestal_window / ns_per_sample)
                                (snd pedestal_window / ns_per_sample);
      time_offset := time_offset |};
    waveforms := waveforms;
    amplitudes := None;
    pedestals := None;
    pedestal_sigmas := None;
    peak_locations := None;
    peak_times := None;
    peak_voltages := None;
    signal_times := None;
    integrated_charges := None;
    is_over_threshold := None |}.

(** *** [find_pedestals] *)

(** One row of [find_pedestals]: the corrected amplitudes, the pedestal and
    its standard deviation. *)
Definition find_pedestals_row (c : Config) (raw : list Z) : option (list R * R * R) :=
  let amps := map (fun x => IZR x * voltage_scale c) raw in
  window <- Np.take amps (pedestal_bins c) ;;
  match window with
  | [] => None
  | _ =>
      let pedestal := Np.mean window in
      let sigma := Np.std window in
      let amps := map (fun a => a - pedestal) amps in
      let amps := if reverse_polarity c then map (fun a => a * -1) amps else amps in
      Some (amps, pedestal, sigma)
  end.

Definition find_pedestals (s : WaveformAnalysis) : option WaveformAnalysis :=
  rows <- mapM (find_pedestals_row (config s)) (waveforms s) ;;
  Some {|
    config := config s;
    waveforms := waveforms s;
    amplitudes := Some (map (fun r => fst (fst r)) rows);
    pedestals := Some (map (fun r => snd (fst r)) rows);
    pedestal_sigmas := Some (map snd rows);
    peak_locations := peak_locations s;
    peak_times := peak_times s;
    peak_voltages := peak_voltages s;
    signal_times := signal_times s;
    integrated_charges := integrated_charges s;
    is_over_threshold := is_over_threshold s |}.

(** *** [find_peaks] *)

(** One row of [find_peaks]: the peak location inside the analysis window,
    the peak time and the peak voltage. *)
Definition find_peaks_row (c : Config) (amp : list R) : option (nat * R * R) :=
  window <- Np.take amp (analysis_bins c) ;;
  loc <- Np.argmax window ;;
  let time := IZR (fst (analysis_window c)) + (INR loc + 0.5) * IZR (ns_per_sample c) in
  voltage <- nth_error window loc ;;
  Some (loc, time, voltage).

(** [if self.amplitudes is None: self.find_pedestals()]. *)
Definition ensure_pedestals (s : WaveformAnalysis) : option WaveformAnalysis :=
  match amplitudes s with
  | None => find_pedestals s
  | Some _ => Some s
  end.

Definition find_peaks (s : WaveformAnalysis) : option WaveformAnalysis :=
  s <- ensure_pedestals s ;;
  amps <- amplitudes s ;;
  rows <- mapM (find_peaks_row (config s)) amps ;;
  Some {|
    config := config s;
    waveforms := waveforms s;
    amplitudes := amplitudes s;
    pedestals := pedestals s;
    pedestal_sigmas := pedestal_sigmas s;
    peak_locations := Some (map (fun r => fst (fst r)) rows);
    peak_times := Some (map (fun r => snd (fst r)) rows);
    peak_voltages := Some (map snd rows);
    signal_times := signal_times s;
    integrated_charges := integrated_charges s;
    is_over_threshold := is_over_threshold s |}.

(** [if self.peak_locations is None: self.find_peaks()]. *)
Definition ensure_peaks (s : WaveformAnalysis) : option WaveformAnalysis :=
  match peak_locations s with
  | None => find_peaks s
  | Some _ => Some s
  end.

(** *** [calculate_signal_times] *)

(** [zip] of three sequences, as long as the shortest. *)
Fixpoint zip3 {A B C : Type} (l : list A) (m : list B) (n : list C) : list (A * B * C) :=
  match l, m, n with
  | a :: l', b :: m', c :: n' => (a, b, c) :: zip3 l' m' n'
  | _, _, _ => []
  end.

(** The body of the loop: the entry appended to [signal_times] for one
    waveform, before the scaling by [ns_per_sample] and the offset. *)
Definition signal_time_row (c : Config) (peak : R) (loc : nat) (amp : list R) : option R :=
  if (loc =? 0)%nat then Some 0
  else
    first_bin <- Np.getitem (analysis_bins c) 0 ;;
    let loc := (Z.of_nat loc + first_bin)%Z in
    let threshold := peak_rise_time_fraction * peak in
    k <- Np.argmax_bool (map (fun a => Np.ltb a threshold) (Np.slice_down amp (loc - 1))) ;;
    let i := (loc - Z.of_nat k)%Z in
    let time_range := [IZR (fst (analysis_window c) + (i - 1));
                       IZR (fst (analysis_window c) + i)] in
    Np.interp threshold (Np.slice amp (i - 1) (i + 1)) time_range.

Definition calculate_signal_times (s : WaveformAnalysis) : option WaveformAnalysis :=
  s <- ensure_peaks s ;;
  voltages <- peak_voltages s ;;
  locations <- peak_locations s ;;
  amps <- amplitudes s ;;
  times <- mapM (fun '(peak, loc, amp) => signal_time_row (config s) peak loc amp)
                (zip3 voltages locations amps) ;;
  Some {|
    config := config s;
    waveforms := waveforms s;
    amplitudes := amplitudes s;
    pedestals := pedestals s;
    pedestal_sigmas := pedestal_sigmas s;
    peak_locations := peak_locations s;
    peak_times := peak_times s;
    peak_voltages := peak_voltages s;
    signal_times :=
      Some (map (fun t => t * IZR (ns_per_sample (config s)) + time_offset (config s)) times);
    integrated_charges := integrated_charges s;
    is_over_threshold := is_over_threshold s |}.

(** *** [integrate_charges] *)

(** [np.arange(n)]. *)
Definition arange (n : nat) : list Z := map Z.of_nat (seq 0 n).

(** [(indices > peak_indices) & below_threshold], cumulated from the left,
    compared with 0. *)
Definition before_peak_fall (below : list bool) (peak_index : Z) : list bool :=
  map (fun n => (n =? 0)%nat)
      (Np.cumsum (Np.map2 andb (map (fun i => (peak_index <? i)%Z) (arange (length below)))
                               below)).

(** [(indices < peak_indices) & below_threshold], cumulated from the right
    (reversed, cumulated, reversed back), compared with 0. *)
Definition after_peak_rise (below : list bool) (peak_index : Z) : list bool :=
  map (fun n => (n =? 0)%nat)
      (rev (Np.cumsum
              (rev (Np.map2 andb (map (fun i => (i <? peak_index)%Z) (arange (length below)))
                                 below)))).

(** The samples that are summed: the mask [before_peak_fall & after_peak_rise]. *)
Definition charge_mask (amp : list R) (sigma : R) (peak_index : Z) : list bool :=
  let below_threshold := map (fun a => Np.ltb a (3 * sigma)) amp in
  Np.map2 andb (before_peak_fall below_threshold peak_index)
               (after_peak_rise below_threshold peak_index).

(** [amplitudes * mask]: a bool multiplies as 1 or 0. *)
Definition masked (a : R) (m : bool) : R := a * (if m then 1 else 0).

(** One row of [integrate_charges], given the full-waveform peak index. *)
Definition charge_row (c : Config) (amp : list R) (sigma : R) (peak_index : Z) : R :=
  Np.sum (Np.map2 masked amp (charge_mask amp sigma peak_index))
  * (IZR (ns_per_sample c) / impedance).

Definition integrate_charges (s : WaveformAnalysis) : option WaveformAnalysis :=
  s <- ensure_peaks s ;;
  amps <- amplitudes s ;;
  sigmas <- pedestal_sigmas s ;;
  locations <- peak_locations s ;;
  first_bin <- Np.getitem (analysis_bins (config s)) 0 ;;
  let peak_indices := map (fun loc => (Z.of_nat loc + first_bin)%Z) locations in
  Some {|
    config := config s;
    waveforms := waveforms s;
    amplitudes := amplitudes s;
    pedestals := pedestals s;
    pedestal_sigmas := pedestal_sigmas s;
    peak_locations := peak_locations s;
    peak_times := peak_times s;
    peak_voltages := peak_voltages s;
    signal_times := signal_times s;
    integrated_charges :=
      Some (map (fun '(amp, sigma, p) => charge_row (config s) amp sigma p)
                (zip3 amps sigmas peak_indices));
    is_over_threshold := is_over_threshold s |}.

(** *** [run_analysis] *)

Definition run_analysis (s : WaveformAnalysis) : option WaveformAnalysis :=
  s <- find_peaks s ;;
  s <- calculate_signal_times s ;;
  s <- integrate_charges s ;;
  voltages <- peak_voltages s ;;
  Some {|
    config := config s;
    waveforms := waveforms s;
    amplitudes := amplitudes s;
    pedestals := pedestals s;
    pedestal_sigmas := pedestal_sigmas s;
    peak_locations := peak_locations s;
    peak_times := peak_times s;
    peak_voltages := peak_voltages s;
    signal_times := signal_times s;
    integrated_charges := integrated_charges s;
    is_over_threshold := Some (map (fun v => Np.gtb v (threshold (config s))) voltages) |}.

(** Column [k] of a per-waveform attribute. *)
Definition col {A : Type} (o : option (list A)) (k : nat) : option A :=
  l <- o ;; nth_error l k.

(** ** Valid configurations

    The windows of a configuration are valid for waveforms of [M] samples
    when both resolve to a non-empty span of sample indices inside the
    waveform. *)

Definition rectangular {A : Type} (rows : list (list A)) (M : nat) : Prop :=
  Forall (fun r => length r = M) rows.

Definition valid_config (c : Config) (M : nat) : Prop :=
  exists a b p q,
    analysis_bins c = Np.range a b /\ pedestal_bins c = Np.range p q /\
    (0 <= a < b)%Z /\ (b <= Z.of_nat M)%Z /\
    (0 <= p < q)%Z /\ (q <= Z.of_nat M)%Z.

(** The configuration with the polarity flag replaced. *)
Definition with_reverse_polarity (b : bool) (c : Config) : Config := {|
  threshold := threshold c;
  reverse_polarity := b;
  ns_per_sample := ns_per_sample c;
  voltage_scale := voltage_scale c;
  analysis_window := analysis_window c;
  pedestal_window := pedestal_window c;
  analysis_bins := analysis_bins c;
  pedestal_bins := pedestal_bins c;
  time_offset := time_offset c |}.

(** An instance that no stage has run on yet, as [__init__] leaves it. *)
Definition fresh (c : Config) (w : list (list Z)) : WaveformAnalysis := {|
  config := c;
  waveforms := w;
  amplitudes := None;
  pedestals := None;
  pedestal_sigmas := None;
  peak_locations := None;
  peak_times := None;
  peak_voltages := None;
  signal_times := None;
  integrated_charges := None;
  is_over_threshold := None |}.

(** The instance with another configuration (same batch, same attributes). *)
Definition with_config (c : Config) (s : WaveformAnalysis) : WaveformAnalysis := {|
  config := c;
  waveforms := waveforms s;
  amplitudes := amplitudes s;
  pedestals := pedestals s;
  pedestal_sigmas := pedestal_sigmas s;
  peak_locations := peak_locations s;
  peak_times := peak_times s;
  peak_voltages := peak_voltages s;
  signal_times := signal_times s;
  integrated_charges := integrated_charges s;
  is_over_threshold := is_over_threshold s |}.

(** The sign that the polarity flag applies to a corrected sample. *)
Definition polarity_sign (c : Config) : R := if reverse_polarity c then -1 else 1.

(** ** The integration region as an explicit scan from the peak

    The region the charge stage is described with: starting from the peak
    index [p], walk right over the samples after the peak, and left over the
    samples before it, for as long as they are not below the threshold. *)

(** The number of leading samples that are not below the threshold. *)
Fixpoint clear_run (below : list bool) : nat :=
  match below with
  | false :: t => S (clear_run t)
  | _ => 0%nat
  end.

(** The first index of the region: one past the nearest below-threshold
    sample before the peak (0 when there is none). *)
Definition region_start (below : list bool) (p : nat) : nat :=
  (p - clear_run (rev (firstn p below)))%nat.

(** The index one past the region: the nearest below-threshold sample after
    the peak (the row length when there is none). *)
Definition region_stop (below : list bool) (p : nat) : nat :=
  (S p + clear_run (skipn (S p) below))%nat.

(** The row with every sample that the mask selects multiplied by [c]. *)
Definition scale_region (c : R) (amp : list R) (mask : list bool) : list R :=
  Np.map2 (fun a (m : bool) => if m then c * a else a) amp mask.

(** The peak attributes of an instance are those of its amplitudes: what
    [find_peaks] stores, and what the later stages leave in place. *)
Definition peaks_found (s : WaveformAnalysis) : Prop :=
  exists amps rows,
    amplitudes s = Some amps /\
    mapM (find_peaks_row (config s)) amps = Some rows /\
    peak_locations s = Some (map (fun r => fst (fst r)) rows) /\
    peak_times s = Some (map (fun r => snd (fst r)) rows) /\
    peak_voltages s = Some (map snd rows).

(** ** A worked batch

    Four waveforms of nine samples, negative-going pulses on a pedestal of 0
    counts (so [reverse_polarity] is set), sampled every 2 ns, with the
    analysis window [0, 10) ns (samples 0 to 4) and the pedestal window
    [10, 18) ns (samples 5 to 8, where the counts alternate between 1 and -1:
    pedestal 0, sigma 1).  Waveform 0 is a pulse with a rising edge, waveform
    1 peaks at sample 0, waveform 2 has no sample before its peak below 0.4 of
    the peak, and waveform 3 stays below the pedestal (its peak is
    negative). *)

Definition exA_config : Config := {|
  threshold := 0.01;
  reverse_polarity := true;
  ns_per_sample := 2;
  voltage_scale := 1;
  analysis_window := (0, 10)%Z;
  pedestal_window := (10, 18)%Z;
  analysis_bins := Np.range 0 5;
  pedestal_bins := Np.range 5 9;
  time_offset := 0 |}.

Definition exA_waveforms : list (list Z) :=
  [ [0; -2; -10; -4; 0; 1; -1; 1; -1];
    [-10; -2; 0; 0; 0; 1; -1; 1; -1];
    [-5; -6; -10; 0; 0; 1; -1; 1; -1];
    [10; 4; 6; 8; 9; 1; -1; 1; -1] ]%Z.

Definition exA_row0 : list R := [0; 2; 10; 4; 0; -1; 1; -1; 1].
Definition exA_row1 : list R := [10; 2; 0; 0; 0; -1; 1; -1; 1].
Definition exA_row2 : list R := [5; 6; 10; 0; 0; -1; 1; -1; 1].
Definition exA_row3 : list R := [-10; -4; -6; -8; -9; -1; 1; -1; 1].

(** The instance after [find_peaks], with the attributes of the later stages
    as given. *)
Definition exA_state (times charges : option (list R)) (over : option (list bool))
    : WaveformAnalysis := {|
  config := exA_config;
  waveforms := exA_waveforms;
  amplitudes := Some [exA_row0; exA_row1; exA_row2; exA_row3];
  pedestals := Some [0; 0; 0; 0];
  pedestal_sigmas := Some [1; 1; 1; 1];
  peak_locations := Some [2; 0; 2; 1]%nat;
  peak_times := Some [5; 1; 5; 3];
  peak_voltages := Some [10; 10; 10; -4];
  signal_times := times;
  integrated_charges := charges;
  is_over_threshold := over |}.

Definition exA_peaks : WaveformAnalysis := exA_state None None None.
Definition exA_timed : WaveformAnalysis := exA_state (Some [5/2; 0; 2; 2]) None None.
Definition exA_charged : WaveformAnalysis :=
  exA_state (Some [5/2; 0; 2; 2]) (Some [14/25; 2/5; 21/25; -4/25]) None.
Definition exA_final : WaveformAnalysis :=
  exA_state (Some [5/2; 0; 2; 2]) (Some [14/25; 2/5; 21/25; -4/25])
            (Some [true; true; true; false]).

(** A configuration whose analysis window does not start at 0: [4, 14) ns,
    samples 2 to 6, and a row with a pulse that peaks at sample 4. *)
Definition exB_config : Config := {|
  threshold := 0.01;
  reverse_polarity := true;
  ns_per_sample := 2;
  voltage_scale := 1;
  analysis_window := (4, 14)%Z;
  pedestal_window := (14, 18)%Z;
  analysis_bins := Np.range 2 7;
  pedestal_bins := Np.range 7 9;
  time_offset := 0 |}.

Definition exB_row : list R := [0; 0; 0; 2; 10; 4; 0; 0; 0].

(** A second worked batch, analysed in the window [4, 14) ns (samples 2 to
    6) with a time offset of 3 ns: waveform 0 peaks at the first sample of the
    window, waveform 1 is a pulse that peaks at sample 4. *)
Definition exC_config : Config := {|
  threshold := 0.01;
  reverse_polarity := true;
  ns_per_sample := 2;
  voltage_scale := 1;
  analysis_window := (4, 14)%Z;
  pedestal_window := (14, 18)%Z;
  analysis_bins := Np.range 2 7;
  pedestal_bins := Np.range 7 9;
  time_offset := 3 |}.

Definition exC_waveforms : list (list Z) :=
  [ [0; 0; -10; -2; 0; 0; 0; 1; -1];
    [0; 0; 0; -2; -10; -4; 0; 1; -1] ]%Z.

Definition exC_row0 : list R := [0; 0; 10; 2; 0; 0; 0; -1; 1].
Definition exC_row1 : list R := [0; 0; 0; 2; 10; 4; 0; -1; 1].

Definition exC_state (times charges : option (list R)) (over : option (list bool))
    : WaveformAnalysis := {|
  config := exC_config;
  waveforms := exC_waveforms;
  amplitudes := Some [exC_row0; exC_row1];
  pedestals := Some [0; 0];
  pedestal_sigmas := Some [1; 1];
  peak_locations := Some [0; 2]%nat;
  peak_times := Some [5; 9];
  peak_voltages := Some [10; 10];
  signal_times := times;
  integrated_charges := charges;
  is_over_threshold := over |}.

Definition exC_peaks : WaveformAnalysis := exC_state None None None.
Definition exC_timed : WaveformAnalysis := exC_state (Some [3; 35/2]) None None.

(** The worked batch after [find_pedestals] alone. *)
Definition exA_pedestals : WaveformAnalysis := {|
  config := exA_config;
  waveforms := exA_waveforms;
  amplitudes := Some [exA_row0; exA_row1; exA_row2; exA_row3];
  pedestals := Some [0; 0; 0; 0];
  pedestal_sigmas := Some [1; 1; 1; 1];
  peak_locations := None;
  peak_times := None;
  peak_voltages := None;
  signal_times := None;
  integrated_charges := None;
  is_over_threshold := None |}.

(** A per-waveform attribute that is set, with [n] entries. *)
Definition col_length {A : Type} (o : option (list A)) (n : nat) : Prop :=
  exists l, o = Some l /\ length l = n.

(** The worked batch with a pedestal window, [10, 24) ns, that reaches past
    the nine samples of its waveforms, and with an empty analysis window. *)
Definition exD_config : Config := {|
  threshold := 0.01;
  reverse_polarity := true;
  ns_per_sample := 2;
  voltage_scale := 1;
  analysis_window := (0, 10)%Z;
  pedestal_window := (10, 24)%Z;
  analysis_bins := Np.range 0 5;
  pedestal_bins := Np.range 5 12;
  time_offset := 0 |}.

Definition exE_config : Config := {|
  threshold := 0.01;
  reverse_polarity := true;
  ns_per_sample := 2;
  voltage_scale := 1;
  analysis_window := (10, 10)%Z;
  pedestal_window := (10, 18)%Z;
  analysis_bins := Np.range 5 5;
  pedestal_bins := Np.range 5 9;
  time_offset := 0 |}.

(** ** Changes of configuration and of input

    An instance seen through a change of configuration or of raw input: the
    configuration [c'], the raw rows through [h], and each per-waveform
    attribute through a map of its own (peak locations, peak times and the
    threshold flags are kept). *)
Definition transform (c' : Config) (h : list Z -> list Z) (fa : list R -> list R)
    (fp fs fv ft fq : R -> R) (s : WaveformAnalysis) : WaveformAnalysis := {|
  config := c';
  waveforms := map h (waveforms s);
  amplitudes := option_map (map fa) (amplitudes s);
  pedestals := option_map (map fp) (pedestals s);
  pedestal_sigmas := option_map (map fs) (pedestal_sigmas s);
  peak_locations := peak_locations s;
  peak_times := peak_times s;
  peak_voltages := option_map (map fv) (peak_voltages s);
  signal_times := option_map (map ft) (signal_times s);
  integrated_charges := option_map (map fq) (integrated_charges s);
  is_over_threshold := is_over_threshold s |}.

(** The configuration with another voltage scale, and with another time
    offset. *)
Definition with_voltage_scale (v : R) (c : Config) : Config := {|
  threshold := threshold c;
  reverse_polarity := reverse_polarity c;
  ns_per_sample := ns_per_sample c;
  voltage_scale := v;
  analysis_window := analysis_window c;
  pedestal_window := pedestal_window c;
  analysis_bins := analysis_bins c;
  pedestal_bins := pedestal_bins c;
  time_offset := time_offset c |}.

Definition with_time_offset (t : R) (c : Config) : Config := {|
  threshold := threshold c;
  reverse_polarity := reverse_polarity c;
  ns_per_sample := ns_per_sample c;
  voltage_scale := voltage_scale c;
  analysis_window := analysis_window c;
  pedestal_window := pedestal_window c;
  analysis_bins := analysis_bins c;
  pedestal_bins := pedestal_bins c;
  time_offset := t |}.

(** The instance with the voltage scale multiplied by [k]: every voltage and
    every charge multiplied by [k]. *)
Definition scale_voltages (k : R) (s : WaveformAnalysis) : WaveformAnalysis := {|
  config := with_voltage_scale (k * voltage_scale (config s)) (config s);
  waveforms := waveforms s;
  amplitudes := option_map (map (map (Rmult k))) (amplitudes s);
  pedestals := option_map (map (Rmult k)) (pedestals s);
  pedestal_sigmas := option_map (map (Rmult k)) (pedestal_sigmas s);
  peak_locations := peak_locations s;
  peak_times := peak_times s;
  peak_voltages := option_map (map (Rmult k)) (peak_voltages s);
  signal_times := signal_times s;
  integrated_charges := option_map (map (Rmult k)) (integrated_charges s);
  is_over_threshold := is_over_threshold s |}.

(** The instance with [d] added to the time offset: every signal time moved
    by [d]. *)
Definition shift_time_offset (d : R) (s : WaveformAnalysis) : WaveformAnalysis := {|
  config := with_time_offset (time_offset (config s) + d) (config s);
  waveforms := waveforms s;
  amplitudes := amplitudes s;
  pedestals := pedestals s;
  pedestal_sigmas := pedestal_sigmas s;
  peak_locations := peak_locations s;
  peak_times := peak_times s;
  peak_voltages := peak_voltages s;
  signal_times := option_map (map (fun t => t + d)) (signal_times s);
  integrated_charges := integrated_charges s;
  is_over_threshold := is_over_threshold s |}.

(** The instance with [d] counts added to every raw sample: every pedestal
    moved by [d * voltage_scale]. *)
Definition shift_baseline (d : Z) (s : WaveformAnalysis) : WaveformAnalysis := {|
  config := config s;
  waveforms := map (map (Z.add d)) (waveforms s);
  amplitudes := amplitudes s;
  pedestals :=
    option_map (map (fun p => p + IZR d * voltage_scale (config s))) (pedestals s);
  pedestal_sigmas := pedestal_sigmas s;
  peak_locations := peak_locations s;
  peak_times := peak_times s;
  peak_voltages := peak_voltages s;
  signal_times := signal_times s;
  integrated_charges := integrated_charges s;
  is_over_threshold := is_over_threshold s |}.

(** The instance with every raw sample negated and the polarity flag
    flipped: every pedestal negated. *)
Definition mirror (s : WaveformAnalysis) : WaveformAnalysis := {|
  config := with_reverse_polarity (negb (reverse_polarity (config s))) (config s);
  waveforms := map (map Z.opp) (waveforms s);
  amplitudes := amplitudes s;
  pedestals := option_map (map Ropp) (pedestals s);
  pedestal_sigmas := pedestal_sigmas s;
  peak_locations := peak_locations s;
  peak_times := peak_times s;
  peak_voltages := peak_voltages s;
  signal_times := signal_times s;
  integrated_charges := integrated_charges s;
  is_over_threshold := is_over_threshold s |}.

(** ** Basic facts about the numpy operations *)

Section NpFacts.

Lemma ltb_true (a b : R) : a < b -> Np.ltb a b = true.
Proof. intros H. unfold Np.ltb. destruct (Rlt_dec a b); [reflexivity | contradiction]. Qed.

Lemma ltb_false (a b : R) : b <= a -> Np.ltb a b = false.
Proof. intros H. unfold Np.ltb. destruct (Rlt_dec a b); [lra | reflexivity]. Qed.

Lemma ltb_true_iff (a b : R) : Np.ltb a b = true <-> a < b.
Proof.
  unfold Np.ltb. destruct (Rlt_dec a b); split; intros; try reflexivity;
    try assumption; try discriminate; contradiction.
Qed.

Lemma ltb_false_iff (a b : R) : Np.ltb a b = false <-> b <= a.
Proof.
  unfold Np.ltb. destruct (Rlt_dec a b); split; intros; try reflexivity;
    try discriminate; lra.
Qed.

Lemma eqb_true (a b : R) : a = b -> Np.eqb a b = true.
Proof. intros H. unfold Np.eqb. destruct (Req_dec_T a b); [reflexivity | contradiction]. Qed.

Lemma eqb_false (a b : R) : a <> b -> Np.eqb a b = false.
Proof. intros H. unfold Np.eqb. destruct (Req_dec_T a b); [contradiction | reflexivity]. Qed.

Lemma bind_Some {A B : Type} (m : option A) (k : A -> option B) (b : B) :
  bind m k = Some b <-> exists a, m = Some a /\ k a = Some b.
Proof.
  destruct m as [a|]; simpl; split.
  - intros H. exists a. auto.
  - intros [a' [E H]]. inversion E. subst. exact H.
  - discriminate.
  - intros [a' [E _]]. discriminate.
Qed.

Lemma mapM_length {A B : Type} (f : A -> option B) (l : list A) (r : list B) :
  mapM f l = Some r -> length r = length l.
Proof.
  revert r. induction l as [|a t IH]; simpl; intros r H.
  - inversion H. reflexivity.
  - destruct (f a) as [b|]; simpl in H; [|discriminate].
    destruct (mapM f t) as [bs|]; simpl in H; [|discriminate].
    inversion H. simpl. f_equal. apply IH. reflexivity.
Qed.

Lemma mapM_nth_error {A B : Type} (f : A -> option B) (l : list A) (r : list B) :
  mapM f l = Some r ->
  forall k, nth_error r k = bind (nth_error l k) f.
Proof.
  revert r. induction l as [|a t IH]; simpl; intros r H k.
  - inversion H. destruct k; reflexivity.
  - destruct (f a) as [b|] eqn:Ea; simpl in H; [|discriminate].
    destruct (mapM f t) as [bs|]; simpl in H; [|discriminate].
    inversion H. subst r. destruct k as [|k]; simpl.
    + symmetry. exact Ea.
    + apply IH. reflexivity.
Qed.

Lemma mapM_total {A B : Type} (f : A -> option B) (l : list A) :
  (forall a, In a l -> exists b, f a = Some b) ->
  exists r, mapM f l = Some r.
Proof.
  induction l as [|a t IH]; simpl; intros H.
  - eexists. reflexivity.
  - destruct (H a) as [b Eb]; [left; reflexivity|].
    destruct IH as [bs Ebs]; [intros x Hx; apply H; right; exact Hx|].
    rewrite Eb, Ebs. simpl. eexists. reflexivity.
Qed.

Lemma mapM_ext {A B : Type} (f g : A -> option B) (l : list A) :
  (forall a, In a l -> f a = g a) -> mapM f l = mapM g l.
Proof.
  induction l as [|a t IH]; simpl; intros H; [reflexivity|].
  rewrite (H a) by (left; reflexivity).
  rewrite IH by (intros x Hx; apply H; right; exact Hx). reflexivity.
Qed.

Lemma range_length (a b : Z) : length (Np.range a b) = Z.to_nat (b - a).
Proof. unfold Np.range. rewrite length_map, length_seq. reflexivity. Qed.

Lemma range_nth_error (a b : Z) (j : nat) :
  (j < Z.to_nat (b - a))%nat ->
  nth_error (Np.range a b) j = Some (a + Z.of_nat j)%Z.
Proof.
  intros H. unfold Np.range. rewrite nth_error_map.
  rewrite nth_error_seq. 
  destruct (Nat.ltb_spec j (Z.to_nat (b - a))); [reflexivity | lia].
Qed.

Lemma getitem_nonneg {A : Type} (l : list A) (k : Z) :
  (0 <= k)%Z -> Np.getitem l k = nth_error l (Z.to_nat k).
Proof.
  intros H. unfold Np.getitem. destruct (Z.leb_spec 0 k); [reflexivity | lia].
Qed.

Lemma getitem_in_range {A : Type} (l : list A) (k : Z) :
  (- Z.of_nat (length l) <= k < Z.of_nat (length l))%Z ->
  exists x, Np.getitem l k = Some x.
Proof.
  intros H. unfold Np.getitem.
  destruct (Z.leb_spec 0 k).
  - destruct (nth_error l (Z.to_nat k)) eqn:E; [eexists; reflexivity|].
    apply nth_error_None in E. lia.
  - destruct (Z.leb_spec (- Z.of_nat (length l)) k); [|lia].
    destruct (nth_error l (Z.to_nat (k + Z.of_nat (length l)))) eqn:E;
      [eexists; reflexivity|].
    apply nth_error_None in E. lia.
Qed.

End NpFacts.

(** ** [np.argmax]: the first occurrence of the maximum *)

Section Argmax.

Lemma argmax_from_spec (l : list R) : forall (best : R) (bi i : nat),
  (Np.argmax_from best bi i l = bi /\ Forall (fun x => x <= best) l) \/
  (exists j x,
      Np.argmax_from best bi i l = (i + j)%nat /\
      nth_error l j = Some x /\ best < x /\
      Forall (fun y => y <= x) l /\
      forall j' y, (j' < j)%nat -> nth_error l j' = Some y -> y < x).
Proof.
  induction l as [|x t IH]; intros best bi i; simpl.
  - left. split; [reflexivity | constructor].
  - destruct (Np.ltb best x) eqn:E.
    + apply ltb_true_iff in E. right.
      destruct (IH x i (S i)) as [[Hr Hall] | [j [x' [Hr [Hn [Hlt [Hall Hbefore]]]]]]].
      * exists 0%nat, x. rewrite Hr. repeat split.
        -- lia.
        -- exact E.
        -- constructor; [lra | exact Hall].
        -- intros j' y Hj'. lia.
      * exists (S j), x'. rewrite Hr. repeat split.
        -- lia.
        -- exact Hn.
        -- lra.
        -- constructor; [lra | exact Hall].
        -- intros [|j'] y Hj' Hy; simpl in Hy.
           ++ inversion Hy. subst. exact Hlt.
           ++ apply (Hbefore j'); [lia | exact Hy].
    + apply ltb_false_iff in E.
      destruct (IH best bi (S i)) as [[Hr Hall] | [j [x' [Hr [Hn [Hlt [Hall Hbefore]]]]]]].
      * left. split; [exact Hr | constructor; assumption].
      * right. exists (S j), x'. rewrite Hr. repeat split.
        -- lia.
        -- exact Hn.
        -- exact Hlt.
        -- constructor; [lra | exact Hall].
        -- intros [|j'] y Hj' Hy; simpl in Hy.
           ++ inversion Hy. subst. lra.
           ++ apply (Hbefore j'); [lia | exact Hy].
Qed.

Lemma Forall_nth_error {A : Type} (P : A -> Prop) (l : list A) (j : nat) (x : A) :
  Forall P l -> nth_error l j = Some x -> P x.
Proof.
  intros H E. rewrite Forall_forall in H. apply H.
  eapply nth_error_In. exact E.
Qed.

Lemma argmax_spec (l : list R) (k : nat) :
  Np.argmax l = Some k ->
  exists v,
    nth_error l k = Some v /\
    (forall j y, nth_error l j = Some y -> y <= v) /\
    (forall j y, (j < k)%nat -> nth_error l j = Some y -> y < v).
Proof.
  destruct l as [|x t]; simpl; [discriminate|].
  intros H. inversion H as [Hk]. clear H.
  destruct (argmax_from_spec t x 0%nat 1%nat)
    as [[Hr Hall] | [j [x' [Hr [Hn [Hlt [Hall Hbefore]]]]]]].
  - rewrite Hr. exists x. repeat split.
    + intros [|j] y Hy; simpl in Hy.
      * inversion Hy. lra.
      * apply (Forall_nth_error _ _ _ _ Hall Hy).
    + intros j y Hj. lia.
  - rewrite Hr. exists x'. repeat split.
    + simpl. exact Hn.
    + intros [|j0] y Hy; simpl in Hy.
      * inversion Hy. subst. lra.
      * apply (Forall_nth_error _ _ _ _ Hall Hy).
    + intros [|j0] y Hj Hy; simpl in Hy.
      * inversion Hy. subst. exact Hlt.
      * apply (Hbefore j0); [lia | exact Hy].
Qed.

Lemma argmax_total (l : list R) : l <> [] -> exists k, Np.argmax l = Some k.
Proof. destruct l; [congruence | intros _; eexists; reflexivity]. Qed.

(** The first [True] of a row of bools. *)
Lemma first_true_Some (l : list bool) (k : nat) :
  Np.first_true l = Some k <->
  nth_error l k = Some true /\
  forall j, (j < k)%nat -> nth_error l j = Some false.
Proof.
  revert k. induction l as [|b t IH]; intros k; simpl.
  - split; [discriminate|]. intros [H _]. destruct k; discriminate.
  - destruct b.
    + split.
      * intros H. inversion H. subst. split; [reflexivity|]. intros j Hj. lia.
      * intros [H0 H1]. destruct k as [|k]; [reflexivity|].
        specialize (H1 0%nat ltac:(lia)). discriminate.
    + destruct k as [|k].
      * split.
        -- destruct (Np.first_true t); discriminate.
        -- intros [H _]. discriminate.
      * split.
        -- intros H. destruct (Np.first_true t) as [k'|] eqn:E; [|discriminate].
           simpl in H. inversion H. subst k'.
           destruct (proj1 (IH k) eq_refl) as [E0 E1].
           split; [exact E0|]. intros [|j] Hj; [reflexivity|].
           simpl. apply E1. lia.
        -- intros [H0 H1]. simpl in H0.
           rewrite (proj2 (IH k)); [reflexivity|].
           split; [exact H0|]. intros j Hj. apply (H1 (S j)). lia.
Qed.

Lemma first_true_None (l : list bool) :
  Np.first_true l = None <-> Forall (fun b => b = false) l.
Proof.
  induction l as [|b t IH]; simpl.
  - split; [constructor | reflexivity].
  - destruct b.
    + split; [discriminate|]. intros H. inversion H. discriminate.
    + split.
      * intros H. destruct (Np.first_true t); [discriminate|].
        constructor; [reflexivity | apply IH; reflexivity].
      * intros H. inversion H. subst.
        rewrite (proj2 IH); [reflexivity | assumption].
Qed.

End Argmax.

(** ** Indexing a row with a window of sample indices *)

Section Windows.

Lemma mapM_lookup {A B : Type} (f : A -> option B) (l : list A) (r : list B) (k : nat) (a : A) :
  mapM f l = Some r -> nth_error l k = Some a ->
  exists b, f a = Some b /\ nth_error r k = Some b.
Proof.
  intros H E. pose proof (mapM_nth_error f l r H k) as N.
  rewrite E in N. simpl in N.
  destruct (f a) as [b|] eqn:Eb.
  - exists b. split; [reflexivity | exact N].
  - assert (L : (k < length r)%nat).
    { rewrite (mapM_length f l r H). apply nth_error_Some. congruence. }
    apply nth_error_Some in L. congruence.
Qed.

Lemma mapM_lookup_inv {A B : Type} (f : A -> option B) (l : list A) (r : list B) (k : nat) (b : B) :
  mapM f l = Some r -> nth_error r k = Some b ->
  exists a, nth_error l k = Some a /\ f a = Some b.
Proof.
  intros H E. pose proof (mapM_nth_error f l r H k) as N.
  rewrite E in N. destruct (nth_error l k) as [a|]; simpl in N; [|discriminate].
  exists a. split; [reflexivity | symmetry; exact N].
Qed.

(** A window [range(a, b)] inside the row selects the samples [a .. b-1]. *)
Lemma take_range {A : Type} (l : list A) (a b : Z) :
  (0 <= a)%Z -> (a <= b)%Z -> (b <= Z.of_nat (length l))%Z ->
  Np.take l (Np.range a b) = Some (skipn (Z.to_nat a) (firstn (Z.to_nat b) l)).
Proof.
  intros Ha Hab Hb. unfold Np.take.
  destruct (mapM_total (Np.getitem l) (Np.range a b)) as [r Hr].
  { intros k Hk. unfold Np.range in Hk. apply in_map_iff in Hk.
    destruct Hk as [j [Ej Hj]]. apply in_seq in Hj.
    apply getitem_in_range. lia. }
  rewrite Hr. f_equal. apply nth_error_ext. intros k.
  rewrite (mapM_nth_error _ _ _ Hr k).
  rewrite nth_error_skipn, nth_error_firstn.
  destruct (Nat.ltb_spec (Z.to_nat a + k) (Z.to_nat b)) as [L|L].
  - rewrite range_nth_error by lia. simpl.
    rewrite getitem_nonneg by lia. f_equal. lia.
  - replace (nth_error (Np.range a b) k) with (@None Z); [reflexivity|].
    symmetry. apply nth_error_None. rewrite range_length. lia.
Qed.

Lemma take_range_length {A : Type} (l : list A) (a b : Z) :
  (0 <= a)%Z -> (a <= b)%Z -> (b <= Z.of_nat (length l))%Z ->
  length (skipn (Z.to_nat a) (firstn (Z.to_nat b) l)) = Z.to_nat (b - a).
Proof.
  intros Ha Hab Hb. rewrite length_skipn, length_firstn. lia.
Qed.

Lemma take_range_nth_error {A : Type} (l : list A) (a b : Z) (j : nat) :
  (0 <= a)%Z -> (j < Z.to_nat (b - a))%nat ->
  nth_error (skipn (Z.to_nat a) (firstn (Z.to_nat b) l)) j =
  nth_error l (Z.to_nat a + j).
Proof.
  intros Ha Hj. rewrite nth_error_skipn, nth_error_firstn.
  destruct (Nat.ltb_spec (Z.to_nat a + j) (Z.to_nat b)); [reflexivity | lia].
Qed.

(** The first bin of a non-empty range. *)
Lemma range_first (a b : Z) : (a < b)%Z -> Np.getitem (Np.range a b) 0 = Some a.
Proof.
  intros H. rewrite getitem_nonneg by lia.
  rewrite range_nth_error by lia. f_equal. lia.
Qed.

End Windows.

(** ** Pedestal stage *)

Section Pedestals.

Lemma std_nonneg (l : list R) : 0 <= Np.std l.
Proof. unfold Np.std. apply sqrt_pos. Qed.

Lemma mapM_map {A B C : Type} (f : A -> option B) (g : A -> option C) (h : B -> C)
    (l : list A) (r : list B) :
  mapM f l = Some r ->
  (forall a b, In a l -> f a = Some b -> g a = Some (h b)) ->
  mapM g l = Some (map h r).
Proof.
  revert r. induction l as [|a t IH]; simpl; intros r H Hg.
  - inversion H. reflexivity.
  - destruct (f a) as [b|] eqn:Eb; simpl in H; [|discriminate].
    destruct (mapM f t) as [bs|] eqn:Ebs; simpl in H; [|discriminate].
    inversion H. subst r.
    rewrite (Hg a b) by auto. simpl.
    rewrite (IH bs) by auto. reflexivity.
Qed.

(** The pedestal window of a valid configuration lies inside every row. *)
Lemma pedestal_window_total (c : Config) (M : nat) (amps : list R) :
  valid_config c M -> length amps = M ->
  exists window, Np.take amps (pedestal_bins c) = Some window /\ window <> [].
Proof.
  intros (a & b & p & q & _ & Ep & _ & _ & Hp & Hq) L.
  rewrite Ep. rewrite take_range by lia.
  eexists. split; [reflexivity|].
  intros E. apply (f_equal (@length R)) in E.
  rewrite take_range_length in E by lia. simpl in E. lia.
Qed.

(** What [find_pedestals] computes for one row, once its pedestal window is
    known. *)
Lemma find_pedestals_row_eq (c : Config) (raw : list Z) (window : list R) :
  Np.take (map (fun x => IZR x * voltage_scale c) raw) (pedestal_bins c) = Some window ->
  window <> [] ->
  find_pedestals_row c raw =
  Some (map (fun x => polarity_sign c * (IZR x * voltage_scale c - Np.mean window)) raw,
        Np.mean window, Np.std window).
Proof.
  intros T N. unfold find_pedestals_row. rewrite T. simpl.
  destruct window as [|w0 ws]; [congruence|].
  unfold polarity_sign. destruct (reverse_polarity c);
    rewrite !map_map; do 3 f_equal; apply map_ext; intros x; ring.
Qed.

Lemma find_pedestals_row_inv (c : Config) (raw : list Z) (amp : list R) (ped sig : R) :
  find_pedestals_row c raw = Some (amp, ped, sig) ->
  exists window,
    Np.take (map (fun x => IZR x * voltage_scale c) raw) (pedestal_bins c) = Some window /\
    window <> [] /\
    amp = map (fun x => polarity_sign c * (IZR x * voltage_scale c - Np.mean window)) raw /\
    ped = Np.mean window /\ sig = Np.std window.
Proof.
  intros H.
  destruct (Np.take (map (fun x => IZR x * voltage_scale c) raw) (pedestal_bins c))
    as [window|] eqn:T.
  - destruct window as [|w0 ws].
    + unfold find_pedestals_row in H. rewrite T in H. discriminate.
    + rewrite (find_pedestals_row_eq c raw (w0 :: ws) T) in H by discriminate.
      inversion H. exists (w0 :: ws). repeat split. discriminate.
  - unfold find_pedestals_row in H. rewrite T in H. discriminate.
Qed.

Lemma find_pedestals_row_length (c : Config) (raw : list Z) (amp : list R) (ped sig : R) :
  find_pedestals_row c raw = Some (amp, ped, sig) -> length amp = length raw.
Proof.
  intros H. apply find_pedestals_row_inv in H.
  destruct H as (window & _ & _ & E & _). subst amp. apply length_map.
Qed.

(** Flipping the polarity flag negates the corrected row and nothing else. *)
Lemma find_pedestals_row_flip (c : Config) (raw : list Z) (r : list R * R * R) :
  find_pedestals_row c raw = Some r ->
  find_pedestals_row (with_reverse_polarity (negb (reverse_polarity c)) c) raw =
  Some (map Ropp (fst (fst r)), snd (fst r), snd r).
Proof.
  destruct r as [[amp ped] sig]. intros H.
  apply find_pedestals_row_inv in H.
  destruct H as (window & T & N & Ea & Ep & Es). subst.
  rewrite (find_pedestals_row_eq _ raw window) by assumption. simpl.
  rewrite map_map. do 3 f_equal. apply map_ext. intros x.
  unfold polarity_sign. simpl. destruct (reverse_polarity c); simpl; ring.
Qed.

Lemma find_pedestals_total (s : WaveformAnalysis) (M : nat) :
  valid_config (config s) M -> rectangular (waveforms s) M ->
  exists s', find_pedestals s = Some s'.
Proof.
  intros V W. unfold find_pedestals.
  destruct (mapM_total (find_pedestals_row (config s)) (waveforms s)) as [rows Hr].
  { intros raw Hin. unfold rectangular in W. rewrite Forall_forall in W.
    destruct (pedestal_window_total (config s) M
                (map (fun x => IZR x * voltage_scale (config s)) raw) V) as [window [T N]].
    - rewrite length_map. apply W. exact Hin.
    - rewrite (find_pedestals_row_eq _ raw window T N). eexists. reflexivity. }
  rewrite Hr. simpl. eexists. reflexivity.
Qed.

(** Row by row, [find_pedestals] stores what [find_pedestals_row] computes. *)
Lemma find_pedestals_rows (s s' : WaveformAnalysis) :
  find_pedestals s = Some s' ->
  config s' = config s /\ waveforms s' = waveforms s /\
  peak_locations s' = peak_locations s /\
  exists rows,
    mapM (find_pedestals_row (config s)) (waveforms s) = Some rows /\
    amplitudes s' = Some (map (fun r => fst (fst r)) rows) /\
    pedestals s' = Some (map (fun r => snd (fst r)) rows) /\
    pedestal_sigmas s' = Some (map snd rows).
Proof.
  unfold find_pedestals. intros H.
  destruct (mapM (find_pedestals_row (config s)) (waveforms s)) as [rows|]; [|discriminate].
  simpl in H. inversion H. simpl. repeat split. exists rows. repeat split.
Qed.

End Pedestals.

Section PedestalStage.

Lemma col_map {A B : Type} (f : A -> B) (l : list A) (k : nat) :
  col (Some (map f l)) k = option_map f (nth_error l k).
Proof. unfold col. simpl. apply nth_error_map. Qed.

Lemma find_pedestals_lookup (s s' : WaveformAnalysis) (k : nat) (raw : list Z) :
  find_pedestals s = Some s' ->
  nth_error (waveforms s) k = Some raw ->
  exists amp ped sig,
    find_pedestals_row (config s) raw = Some (amp, ped, sig) /\
    col (amplitudes s') k = Some amp /\
    col (pedestals s') k = Some ped /\
    col (pedestal_sigmas s') k = Some sig.
Proof.
  intros H E. apply find_pedestals_rows in H.
  destruct H as (_ & _ & _ & rows & Hm & Ea & Ep & Es).
  destruct (mapM_lookup _ _ _ k raw Hm E) as [[[amp ped] sig] [Hrow Hk]].
  exists amp, ped, sig. rewrite Ea, Ep, Es, !col_map, Hk. simpl. auto.
Qed.

(** C7.  Pedestal stage.  On a valid configuration, whose pedestal bins are
    [range(p, q)] with [0 <= p < q <= M], [find_pedestals] returns, and for
    every waveform: the pedestal window is the [q - p] scaled samples
    [raw[p] * voltage_scale], ..., [raw[q-1] * voltage_scale]; the pedestal is
    the mean, and the pedestal sigma the population standard deviation
    (square root of the mean squared deviation, hence non-negative), of that
    window; every corrected sample is the scaled sample minus the pedestal,
    negated when [reverse_polarity] is set.  Running the stage with the
    polarity flag flipped and nothing else changed negates every corrected
    sample and leaves pedestal and sigma as they were. *)
Theorem pedestal_stage (s : WaveformAnalysis) (M : nat) :
  valid_config (config s) M -> rectangular (waveforms s) M ->
  exists s' sf' p q,
    find_pedestals s = Some s' /\
    find_pedestals
      (with_config (with_reverse_polarity (negb (reverse_polarity (config s))) (config s)) s)
      = Some sf' /\
    pedestal_bins (config s) = Np.range p q /\
    (0 <= p < q)%Z /\ (q <= Z.of_nat M)%Z /\
    forall k raw, nth_error (waveforms s) k = Some raw ->
      exists window amp,
        length window = Z.to_nat (q - p) /\
        (forall j, (j < Z.to_nat (q - p))%nat ->
           exists x, nth_error raw (Z.to_nat p + j) = Some x /\
                     nth_error window j = Some (IZR x * voltage_scale (config s))) /\
        Np.take (map (fun x => IZR x * voltage_scale (config s)) raw)
                (pedestal_bins (config s)) = Some window /\
        col (pedestals s') k = Some (Np.sum window / INR (length window)) /\
        col (pedestal_sigmas s') k =
          Some (sqrt (Np.mean (map (fun x => (x - Np.mean window) * (x - Np.mean window))
                                   window))) /\
        0 <= sqrt (Np.mean (map (fun x => (x - Np.mean window) * (x - Np.mean window))
                                window)) /\
        amp = map (fun x => (if reverse_polarity (config s) then -1 else 1)
                            * (IZR x * voltage_scale (config s) - Np.mean window)) raw /\
        col (amplitudes s') k = Some amp /\
        col (amplitudes sf') k = Some (map Ropp amp) /\
        col (pedestals sf') k = col (pedestals s') k /\
        col (pedestal_sigmas sf') k = col (pedestal_sigmas s') k.
Proof.
  intros V W.
  destruct (find_pedestals_total s M V W) as [s' Hs'].
  set (cf := with_reverse_polarity (negb (reverse_polarity (config s))) (config s)).
  destruct (find_pedestals_total (with_config cf s) M) as [sf' Hsf'].
  { destruct V as (a & b & p & q & V). exists a, b, p, q. exact V. }
  { exact W. }
  destruct V as (a & b & p & q & _ & Epq & _ & _ & Hp & Hq).
  exists s', sf', p, q. split; [exact Hs'|]. split; [exact Hsf'|].
  split; [exact Epq|]. split; [exact Hp|]. split; [exact Hq|].
  intros k raw E.
  assert (Lraw : length raw = M).
  { unfold rectangular in W. rewrite Forall_forall in W. apply W.
    eapply nth_error_In. exact E. }
  destruct (find_pedestals_lookup s s' k raw Hs' E)
    as (amp & ped & sig & Hrow & Ca & Cp & Cs).
  destruct (find_pedestals_lookup (with_config cf s) sf' k raw Hsf' E)
    as (ampf & pedf & sigf & Hrowf & Caf & Cpf & Csf).
  simpl in Hrowf. unfold cf in Hrowf.
  rewrite (find_pedestals_row_flip _ _ _ Hrow) in Hrowf. simpl in Hrowf.
  inversion Hrowf. subst ampf pedf sigf. clear Hrowf.
  apply find_pedestals_row_inv in Hrow.
  destruct Hrow as (window & T & N & Ea & Ep & Es).
  assert (Ew : window = skipn (Z.to_nat p) (firstn (Z.to_nat q)
                 (map (fun x => IZR x * voltage_scale (config s)) raw))).
  { pose proof T as T'. rewrite Epq, take_range in T' by (rewrite ?length_map; lia).
    inversion T'. reflexivity. }
  exists window, amp.
  split; [rewrite Ew; apply take_range_length; rewrite ?length_map; lia|].
  split.
  { intros j Hj.
    destruct (nth_error raw (Z.to_nat p + j)) as [x|] eqn:Ex;
      [|apply nth_error_None in Ex; lia].
    exists x. split; [reflexivity|].
    rewrite Ew, take_range_nth_error by lia.
    rewrite nth_error_map, Ex. reflexivity. }
  split; [exact T|].
  split; [rewrite Cp, Ep; reflexivity|].
  split; [rewrite Cs, Es; reflexivity|].
  split; [apply sqrt_pos|].
  split; [exact Ea|].
  split; [exact Ca|].
  split; [exact Caf|].
  split; [rewrite Cpf, Cp; reflexivity | rewrite Csf, Cs; reflexivity].
Qed.

End PedestalStage.

(** ** Peak stage *)

Section Peaks.

Lemma find_peaks_row_inv (c : Config) (amp : list R) (loc : nat) (t v : R) :
  find_peaks_row c amp = Some (loc, t, v) ->
  exists window,
    Np.take amp (analysis_bins c) = Some window /\
    Np.argmax window = Some loc /\
    nth_error window loc = Some v /\
    t = IZR (fst (analysis_window c)) + (INR loc + 0.5) * IZR (ns_per_sample c).
Proof.
  unfold find_peaks_row. intros H.
  apply bind_Some in H. destruct H as [window [T H]].
  apply bind_Some in H. destruct H as [loc' [A H]].
  apply bind_Some in H. destruct H as [v' [N H]].
  inversion H. subst. exists window. auto.
Qed.

Lemma find_peaks_row_total (c : Config) (M : nat) (amp : list R) :
  valid_config c M -> length amp = M ->
  exists loc t v, find_peaks_row c amp = Some (loc, t, v).
Proof.
  intros (a & b & p & q & Ea & _ & Ha & Hb & _) L.
  unfold find_peaks_row. rewrite Ea, take_range by lia. simpl.
  destruct (argmax_total (skipn (Z.to_nat a) (firstn (Z.to_nat b) amp))) as [loc Hloc].
  { intros E. apply (f_equal (@length R)) in E.
    rewrite take_range_length in E by lia. simpl in E. lia. }
  rewrite Hloc. simpl.
  destruct (argmax_spec _ _ Hloc) as [v [Hv _]].
  rewrite Hv. simpl. do 3 eexists. reflexivity.
Qed.

(** The peak of a row whose analysis window is [range(a, b)] inside the row:
    the location is inside the window, the voltage is the sample at
    [a + loc], no sample of the window is larger and every earlier sample of
    the window is strictly smaller. *)
Lemma find_peaks_row_range (c : Config) (amp : list R) (loc : nat) (t v : R) (a b : Z) :
  analysis_bins c = Np.range a b ->
  (0 <= a)%Z -> (a <= b)%Z -> (b <= Z.of_nat (length amp))%Z ->
  find_peaks_row c amp = Some (loc, t, v) ->
  (loc < Z.to_nat (b - a))%nat /\
  nth_error amp (Z.to_nat a + loc) = Some v /\
  (forall j x, (j < Z.to_nat (b - a))%nat ->
               nth_error amp (Z.to_nat a + j) = Some x -> x <= v) /\
  (forall j x, (j < loc)%nat -> nth_error amp (Z.to_nat a + j) = Some x -> x < v).
Proof.
  intros Ea Ha Hab Hb H.
  apply find_peaks_row_inv in H. destruct H as (window & T & A & N & _).
  rewrite Ea, take_range in T by lia. inversion T as [Ew]. clear T.
  assert (Lw : length window = Z.to_nat (b - a)).
  { subst window. apply take_range_length; lia. }
  assert (Hloc : (loc < Z.to_nat (b - a))%nat).
  { rewrite <- Lw. apply nth_error_Some. congruence. }
  destruct (argmax_spec _ _ A) as (v' & Hv' & Hmax & Hfirst).
  rewrite N in Hv'. inversion Hv'. subst v'. clear Hv'.
  split; [exact Hloc|]. split.
  - rewrite <- N, <- Ew. symmetry. apply take_range_nth_error; lia.
  - split.
    + intros j x Hj Hx. apply (Hmax j).
      rewrite <- Ew, take_range_nth_error by lia. exact Hx.
    + intros j x Hj Hx. apply (Hfirst j); [exact Hj|].
      rewrite <- Ew, take_range_nth_error by lia. exact Hx.
Qed.

(** Row by row, [find_peaks] stores what [find_peaks_row] computes on the
    corrected amplitudes; pedestals are found first when they are absent. *)
Lemma find_peaks_rows (s s' : WaveformAnalysis) :
  find_peaks s = Some s' ->
  exists sa amps rows,
    ensure_pedestals s = Some sa /\
    amplitudes sa = Some amps /\
    mapM (find_peaks_row (config sa)) amps = Some rows /\
    config s' = config sa /\ waveforms s' = waveforms sa /\
    amplitudes s' = Some amps /\
    pedestals s' = pedestals sa /\ pedestal_sigmas s' = pedestal_sigmas sa /\
    peak_locations s' = Some (map (fun r => fst (fst r)) rows) /\
    peak_times s' = Some (map (fun r => snd (fst r)) rows) /\
    peak_voltages s' = Some (map snd rows).
Proof.
  unfold find_peaks. intros H.
  apply bind_Some in H. destruct H as [sa [Hsa H]].
  apply bind_Some in H. destruct H as [amps [Ha H]].
  apply bind_Some in H. destruct H as [rows [Hr H]].
  inversion H. simpl. exists sa, amps, rows. repeat split; assumption.
Qed.

Lemma find_peaks_lookup (s s' : WaveformAnalysis) (k : nat) (amp : list R) :
  find_peaks s = Some s' ->
  col (amplitudes s') k = Some amp ->
  exists loc t v,
    find_peaks_row (config s') amp = Some (loc, t, v) /\
    col (peak_locations s') k = Some loc /\
    col (peak_times s') k = Some t /\
    col (peak_voltages s') k = Some v.
Proof.
  intros H E. apply find_peaks_rows in H.
  destruct H as (sa & amps & rows & _ & _ & Hm & Ec & _ & Ea & _ & _ & El & Et & Ev).
  rewrite Ea in E. unfold col in E. simpl in E.
  destruct (mapM_lookup _ _ _ k amp Hm E) as [[[loc t] v] [Hrow Hk]].
  exists loc, t, v. rewrite Ec, El, Et, Ev, !col_map, Hk. simpl. auto.
Qed.

Lemma ensure_pedestals_fresh (s : WaveformAnalysis) :
  amplitudes s = None -> ensure_pedestals s = find_pedestals s.
Proof. intros E. unfold ensure_pedestals. rewrite E. reflexivity. Qed.

Lemma find_pedestals_rectangular (s s' : WaveformAnalysis) (M : nat) (amps : list (list R)) :
  find_pedestals s = Some s' -> rectangular (waveforms s) M ->
  amplitudes s' = Some amps -> rectangular amps M.
Proof.
  intros H W E. apply find_pedestals_rows in H.
  destruct H as (_ & _ & _ & rows & Hm & Ea & _). rewrite Ea in E. inversion E. subst amps.
  unfold rectangular in *. rewrite Forall_forall in *.
  intros amp Hin. apply In_nth_error in Hin. destruct Hin as [k Hk].
  rewrite nth_error_map in Hk.
  destruct (nth_error rows k) as [[[amp' ped] sig]|] eqn:Er; simpl in Hk; [|discriminate].
  inversion Hk. subst amp'.
  destruct (mapM_lookup_inv _ _ _ k _ Hm Er) as [raw [Eraw Hrow]].
  rewrite (find_pedestals_row_length _ _ _ _ _ Hrow).
  apply W. eapply nth_error_In. exact Eraw.
Qed.

Lemma find_peaks_total (s : WaveformAnalysis) (M : nat) :
  valid_config (config s) M -> rectangular (waveforms s) M ->
  amplitudes s = None ->
  exists s', find_peaks s = Some s'.
Proof.
  intros V W F.
  destruct (find_pedestals_total s M V W) as [sa Hsa].
  unfold find_peaks. rewrite (ensure_pedestals_fresh s F), Hsa. simpl.
  pose proof (find_pedestals_rows _ _ Hsa) as (Ec & _ & _ & rows & Hm & Ea & _).
  rewrite Ea. simpl.
  destruct (mapM_total (find_peaks_row (config sa)) (map (fun r => fst (fst r)) rows))
    as [prow Hp].
  { intros amp Hin.
    pose proof (find_pedestals_rectangular _ _ M _ Hsa W Ea) as Rct.
    unfold rectangular in Rct. rewrite Forall_forall in Rct.
    destruct (find_peaks_row_total (config sa) M amp) as (loc & t & v & Hrow).
    - rewrite Ec. exact V.
    - apply Rct. exact Hin.
    - eexists. exact Hrow. }
  rewrite Hp. simpl. eexists. reflexivity.
Qed.

End Peaks.

Section PeakStage.

(** C6.  Peak stage.  On a valid configuration [find_peaks] returns, with
    one row of corrected amplitudes per waveform of the batch: the row that
    the pedestal stage computes from the raw waveform (the scaled samples
    minus the pedestal, with the polarity sign).  For every waveform, with
    the analysis bins being [range(a, b)]: the peak index lies inside the
    analysis window, no sample of the window exceeds the sample at the peak
    index and every earlier sample of the window is strictly smaller (first
    occurrence of the maximum); the peak voltage is the corrected amplitude
    at [a + peakIndex]; the peak time is
    [analysis_window[0] + (peakIndex + 0.5) * ns_per_sample]. *)
Theorem peak_stage (s : WaveformAnalysis) (M : nat) :
  valid_config (config s) M -> rectangular (waveforms s) M ->
  amplitudes s = None ->
  exists sa s' a b,
    find_pedestals s = Some sa /\
    find_peaks s = Some s' /\
    analysis_bins (config s) = Np.range a b /\
    (0 <= a < b)%Z /\ (b <= Z.of_nat M)%Z /\
    (forall k raw, nth_error (waveforms s) k = Some raw ->
      exists amp ped loc v,
        col (amplitudes sa) k = Some amp /\
        col (pedestals sa) k = Some ped /\
        amp = map (fun x => (if reverse_polarity (config s) then -1 else 1)
                            * (IZR x * voltage_scale (config s) - ped)) raw /\
        length amp = M /\
        col (amplitudes s') k = Some amp /\
        col (peak_locations s') k = Some loc /\
        (loc < Z.to_nat (b - a))%nat /\
        (forall j x, (j < Z.to_nat (b - a))%nat ->
                     nth_error amp (Z.to_nat a + j) = Some x -> x <= v) /\
        (forall j x, (j < loc)%nat ->
                     nth_error amp (Z.to_nat a + j) = Some x -> x < v) /\
        col (peak_voltages s') k = Some v /\
        nth_error amp (Z.to_nat a + loc) = Some v /\
        col (peak_times s') k =
          Some (IZR (fst (analysis_window (config s)))
                + (INR loc + 0.5) * IZR (ns_per_sample (config s)))) /\
    (forall k amp, col (amplitudes s') k = Some amp ->
      exists raw, nth_error (waveforms s) k = Some raw).
Proof.
  intros V W F.
  destruct (find_peaks_total s M V W F) as [s' Hs'].
  pose proof V as (a & b & p & q & Ea & _ & Ha & Hb & _).
  pose proof (find_peaks_rows _ _ Hs')
    as (sa & amps & rows & Hsa & Eamps & _ & Ec & _ & Ea' & _).
  rewrite (ensure_pedestals_fresh s F) in Hsa.
  pose proof (find_pedestals_rows _ _ Hsa) as (Eca & _ & _ & prows & Hpm & Epa & _).
  assert (Cfg : config s' = config s) by congruence.
  exists sa, s', a, b. split; [exact Hsa|]. split; [exact Hs'|]. split; [exact Ea|].
  split; [exact Ha|]. split; [exact Hb|]. split.
  - intros k raw Eraw.
    destruct (find_pedestals_lookup s sa k raw Hsa Eraw)
      as (amp & ped & sig & Hprow & Ca & Cp & _).
    assert (Ek : col (amplitudes s') k = Some amp).
    { rewrite Ea', <- Eamps. exact Ca. }
    destruct (find_peaks_lookup s s' k amp Hs' Ek) as (loc & t & v & Hrow & Cl & Ct & Cv).
    assert (L : length amp = M).
    { rewrite (find_pedestals_row_length _ _ _ _ _ Hprow).
      unfold rectangular in W. rewrite Forall_forall in W. apply W.
      eapply nth_error_In. exact Eraw. }
    rewrite Cfg in Hrow.
    destruct (find_peaks_row_range _ amp loc t v a b Ea) as (Hloc & Hv & Hmax & Hfirst);
      try lia; try exact Hrow.
    apply find_peaks_row_inv in Hrow. destruct Hrow as (window & _ & _ & _ & Et).
    apply find_pedestals_row_inv in Hprow.
    destruct Hprow as (pw & _ & _ & Eamp & Eped & _).
    exists amp, ped, loc, v. repeat split; try assumption.
    + rewrite Eamp, Eped. reflexivity.
    + rewrite Ct, Et. reflexivity.
  - intros k amp Ek.
    rewrite Ea' in Ek. rewrite Epa in Eamps. inversion Eamps. subst amps.
    unfold col in Ek. simpl in Ek. rewrite nth_error_map in Ek.
    destruct (nth_error prows k) as [r|] eqn:Er; [|discriminate].
    destruct (mapM_lookup_inv _ _ _ k r Hpm Er) as [raw [Eraw _]].
    exists raw. exact Eraw.
Qed.

End PeakStage.

(** ** Slices *)

Section Slices.

Lemma slice_down_nonneg {A : Type} (l : list A) (k : nat) :
  (k < length l)%nat ->
  Np.slice_down l (Z.of_nat k) = rev (firstn (S k) l).
Proof.
  intros H. unfold Np.slice_down.
  destruct (Z.ltb_spec (Z.of_nat k) 0); [lia|].
  destruct (Z.ltb_spec (Z.of_nat k) 0); [lia|].
  destruct (Z.leb_spec (Z.of_nat (length l)) (Z.of_nat k)); [lia|].
  rewrite Nat2Z.id. reflexivity.
Qed.

Lemma slice_down_length {A : Type} (l : list A) (k : nat) :
  (k < length l)%nat -> length (rev (firstn (S k) l)) = S k.
Proof. intros H. rewrite length_rev, length_firstn. lia. Qed.

Lemma slice_down_nth_error {A : Type} (l : list A) (k i : nat) :
  (k < length l)%nat -> (i <= k)%nat ->
  nth_error (rev (firstn (S k) l)) i = nth_error l (k - i).
Proof.
  intros H Hi. rewrite nth_error_rev, length_firstn.
  replace (Nat.min (S k) (length l)) with (S k) by lia.
  destruct (Nat.ltb_spec i (S k)); [|lia].
  rewrite nth_error_firstn.
  destruct (Nat.ltb_spec (S k - S i) (S k)); [|lia].
  f_equal.
Qed.

Lemma slice_nonneg {A : Type} (l : list A) (a b : nat) :
  (a <= length l)%nat -> (b <= length l)%nat ->
  Np.slice l (Z.of_nat a) (Z.of_nat b) = skipn a (firstn b l).
Proof.
  intros Ha Hb. unfold Np.slice, Np.clip_bound.
  destruct (Z.ltb_spec (Z.of_nat a) 0); [lia|].
  destruct (Z.ltb_spec (Z.of_nat a) 0); [lia|].
  destruct (Z.ltb_spec (Z.of_nat b) 0); [lia|].
  destruct (Z.ltb_spec (Z.of_nat b) 0); [lia|].
  destruct (Z.ltb_spec (Z.of_nat (length l)) (Z.of_nat a)); [lia|].
  destruct (Z.ltb_spec (Z.of_nat (length l)) (Z.of_nat b)); [lia|].
  rewrite !Nat2Z.id. reflexivity.
Qed.

(** Two consecutive samples as a slice. *)
Lemma slice_two {A : Type} (l : list A) (j : nat) (x y : A) :
  nth_error l j = Some x -> nth_error l (S j) = Some y ->
  Np.slice l (Z.of_nat j) (Z.of_nat (S (S j))) = [x; y].
Proof.
  intros Hx Hy.
  assert (L : (S j < length l)%nat) by (apply nth_error_Some; congruence).
  rewrite slice_nonneg by lia.
  apply nth_error_ext. intros n.
  rewrite nth_error_skipn, nth_error_firstn.
  destruct n as [|[|n]]; simpl.
  - replace (j + 0)%nat with j by lia.
    destruct (Nat.ltb_spec j (S (S j))); [exact Hx | lia].
  - replace (j + 1)%nat with (S j) by lia.
    destruct (Nat.ltb_spec (S j) (S (S j))); [exact Hy | lia].
  - destruct (Nat.ltb_spec (j + S (S n)) (S (S j))); [lia|].
    destruct n; reflexivity.
Qed.

Lemma zip3_nth_error {A B C : Type} (l : list A) (m : list B) (n : list C)
    (k : nat) (a : A) (b : B) (c : C) :
  nth_error l k = Some a -> nth_error m k = Some b -> nth_error n k = Some c ->
  nth_error (zip3 l m n) k = Some (a, b, c).
Proof.
  revert m n k. induction l as [|a' l IH]; intros m n k Ha Hb Hc.
  - destruct k; discriminate.
  - destruct m as [|b' m]; [destruct k; discriminate|].
    destruct n as [|c' n]; [destruct k; discriminate|].
    destruct k as [|k]; simpl in *.
    + congruence.
    + apply IH; assumption.
Qed.

Lemma zip3_nth_error_inv {A B C : Type} (l : list A) (m : list B) (n : list C)
    (k : nat) (a : A) (b : B) (c : C) :
  nth_error (zip3 l m n) k = Some (a, b, c) ->
  nth_error l k = Some a /\ nth_error m k = Some b /\ nth_error n k = Some c.
Proof.
  revert m n k. induction l as [|a' l IH]; intros m n k H.
  - destruct k; discriminate.
  - destruct m as [|b' m]; [destruct k; discriminate|].
    destruct n as [|c' n]; [destruct k; discriminate|].
    destruct k as [|k]; simpl in *.
    + inversion H. auto.
    + apply IH. exact H.
Qed.

End Slices.

(** ** Timing stage: the backward scan and the interpolation *)

Section Timing.

(** The backward scan from sample [L'] finds the nearest sample below the
    threshold. *)
Lemma scan_crossing (amp : list R) (L' j : nat) (thr a0 : R) :
  (L' < length amp)%nat -> (j <= L')%nat ->
  nth_error amp j = Some a0 -> a0 < thr ->
  (forall m x, (j < m <= L')%nat -> nth_error amp m = Some x -> thr <= x) ->
  Np.argmax_bool (map (fun a => Np.ltb a thr) (Np.slice_down amp (Z.of_nat L')))
  = Some (L' - j)%nat.
Proof.
  intros HL Hj Ha0 Hlt Hrest.
  rewrite slice_down_nonneg by exact HL.
  assert (F : Np.first_true (map (fun a => Np.ltb a thr) (rev (firstn (S L') amp)))
              = Some (L' - j)%nat).
  { apply first_true_Some. split.
    - rewrite nth_error_map, slice_down_nth_error by lia.
      replace (L' - (L' - j))%nat with j by lia.
      rewrite Ha0. simpl. f_equal. apply ltb_true. exact Hlt.
    - intros i Hi.
      rewrite nth_error_map, slice_down_nth_error by lia.
      destruct (nth_error amp (L' - i)) as [x|] eqn:Ex.
      + simpl. f_equal. apply ltb_false. apply (Hrest (L' - i)%nat); [lia | exact Ex].
      + apply nth_error_None in Ex. lia. }
  unfold Np.argmax_bool. rewrite F.
  destruct (map (fun a => Np.ltb a thr) (rev (firstn (S L') amp))) eqn:E; [|reflexivity].
  apply (f_equal (@length bool)) in E.
  rewrite length_map, slice_down_length in E by exact HL. discriminate.
Qed.

(** When no sample up to [L'] is below the threshold, [argmax] of the
    all-[False] comparison is 0. *)
Lemma scan_no_crossing (amp : list R) (L' : nat) (thr : R) :
  (L' < length amp)%nat ->
  (forall m x, (m <= L')%nat -> nth_error amp m = Some x -> thr <= x) ->
  Np.argmax_bool (map (fun a => Np.ltb a thr) (Np.slice_down amp (Z.of_nat L')))
  = Some 0%nat.
Proof.
  intros HL Hall.
  rewrite slice_down_nonneg by exact HL.
  assert (F : Np.first_true (map (fun a => Np.ltb a thr) (rev (firstn (S L') amp))) = None).
  { apply first_true_None. apply Forall_forall. intros bb Hin.
    apply in_map_iff in Hin. destruct Hin as [x [Ex Hx]].
    apply In_nth_error in Hx. destruct Hx as [i Hi].
    assert (Li : (i < S L')%nat).
    { rewrite <- (slice_down_length amp L' HL). apply nth_error_Some. congruence. }
    rewrite slice_down_nth_error in Hi by lia.
    rewrite <- Ex. apply ltb_false. apply (Hall (L' - i)%nat); [lia | exact Hi]. }
  unfold Np.argmax_bool. rewrite F.
  destruct (map (fun a => Np.ltb a thr) (rev (firstn (S L') amp))) eqn:E; [|reflexivity].
  apply (f_equal (@length bool)) in E.
  rewrite length_map, slice_down_length in E by exact HL. discriminate.
Qed.

(** [np.interp] between a sample below the threshold and a sample at or above
    it is the point where the chord through the two samples meets the
    threshold. *)
Lemma interp_bracket (x a0 a1 f0 : R) :
  a0 < x -> x <= a1 ->
  Np.interp x [a0; a1] [f0; f0 + 1] = Some (f0 + (x - a0) / (a1 - a0)).
Proof.
  intros H0 H1. unfold Np.interp.
  rewrite (ltb_false a1 x) by lra.
  rewrite (ltb_false x a0) by lra.
  destruct (Rlt_dec x a1) as [Hlt|Hge].
  - rewrite (ltb_true x a1) by lra.
    rewrite (eqb_false a0 x) by lra.
    f_equal. field. lra.
  - rewrite (ltb_false x a1) by lra.
    f_equal. assert (E : x = a1) by lra. subst x. field. lra.
Qed.

(** [np.interp] at or below the left sample returns the left position. *)
Lemma interp_left (x a0 a1 f0 f1 : R) :
  x <= a0 -> x < a1 -> Np.interp x [a0; a1] [f0; f1] = Some f0.
Proof.
  intros H0 H1. unfold Np.interp.
  rewrite (ltb_false a1 x) by lra.
  destruct (Rlt_dec x a0) as [Hlt|Hge].
  - rewrite (ltb_true x a0) by lra. reflexivity.
  - rewrite (ltb_false x a0) by lra.
    rewrite (ltb_true x a1) by lra.
    rewrite (eqb_true a0 x) by lra. reflexivity.
Qed.

(** [np.interp] above the right sample returns the right position. *)
Lemma interp_right (x a0 a1 f0 f1 : R) :
  a1 < x -> Np.interp x [a0; a1] [f0; f1] = Some f1.
Proof.
  intros H. unfold Np.interp. rewrite (ltb_true a1 x) by lra. reflexivity.
Qed.

(** The loop body past the [loc == 0] test, with the full-waveform peak index
    [S L'] and the scan result [k]. *)
Lemma signal_time_row_scan (c : Config) (peak : R) (loc : nat) (amp : list R)
    (first_bin : Z) (L' k : nat) :
  loc <> 0%nat ->
  Np.getitem (analysis_bins c) 0 = Some first_bin ->
  (Z.of_nat loc + first_bin = Z.of_nat (S L'))%Z ->
  Np.argmax_bool (map (fun a => Np.ltb a (peak_rise_time_fraction * peak))
                      (Np.slice_down amp (Z.of_nat L'))) = Some k ->
  (k <= L')%nat ->
  signal_time_row c peak loc amp =
  Np.interp (peak_rise_time_fraction * peak)
            (Np.slice amp (Z.of_nat (L' - k)) (Z.of_nat (S (S (L' - k)))))
            [IZR (fst (analysis_window c) + Z.of_nat (L' - k));
             IZR (fst (analysis_window c) + Z.of_nat (S (L' - k)))].
Proof.
  intros Hloc Hfb HL Hk Hle. unfold signal_time_row.
  destruct (Nat.eqb_spec loc 0); [contradiction|].
  rewrite Hfb. cbn [bind]. rewrite HL.
  replace (Z.of_nat (S L') - 1)%Z with (Z.of_nat L') by lia.
  rewrite Hk. cbn [bind].
  replace (Z.of_nat (S L') - Z.of_nat k - 1)%Z with (Z.of_nat (L' - k)) by lia.
  replace (Z.of_nat (S L') - Z.of_nat k + 1)%Z with (Z.of_nat (S (S (L' - k)))) by lia.
  replace (Z.of_nat (S L') - Z.of_nat k)%Z with (Z.of_nat (S (L' - k))) by lia.
  reflexivity.
Qed.

End Timing.

Section TimingStage.

Lemma take_range_bound {A : Type} (l w : list A) (a b : Z) :
  (0 <= a)%Z -> (a < b)%Z -> Np.take l (Np.range a b) = Some w ->
  (b <= Z.of_nat (length l))%Z.
Proof.
  intros Ha Hab T. unfold Np.take in T.
  assert (E : nth_error (Np.range a b) (Z.to_nat (b - a) - 1) = Some (b - 1)%Z).
  { rewrite range_nth_error by lia. f_equal. lia. }
  destruct (mapM_lookup _ _ _ _ _ T E) as [x [Hx _]].
  rewrite getitem_nonneg in Hx by lia.
  assert (N : (Z.to_nat (b - 1) < length l)%nat) by (apply nth_error_Some; congruence).
  lia.
Qed.

(** A peak found in a window [range(a, b)] with [0 <= a]: the window is
    non-empty and inside the row, and the peak is what [find_peaks_row_range]
    says. *)
Lemma find_peaks_row_window (c : Config) (amp : list R) (loc : nat) (t v : R) (a b : Z) :
  analysis_bins c = Np.range a b -> (0 <= a)%Z ->
  find_peaks_row c amp = Some (loc, t, v) ->
  (a < b)%Z /\ (b <= Z.of_nat (length amp))%Z /\
  (loc < Z.to_nat (b - a))%nat /\
  nth_error amp (Z.to_nat a + loc) = Some v /\
  (forall j x, (j < loc)%nat -> nth_error amp (Z.to_nat a + j) = Some x -> x < v).
Proof.
  intros Ea Ha H.
  pose proof (find_peaks_row_inv _ _ _ _ _ H) as (window & T & A & N & _).
  rewrite Ea in T.
  assert (Hab : (a < b)%Z).
  { assert (L : (loc < length window)%nat) by (apply nth_error_Some; congruence).
    unfold Np.take in T. rewrite (mapM_length _ _ _ T), range_length in L. lia. }
  pose proof (take_range_bound _ _ _ _ Ha Hab T) as Hb.
  destruct (find_peaks_row_range c amp loc t v a b Ea) as (Hl & Hv & _ & Hf);
    try lia; try exact H.
  repeat split; assumption.
Qed.

Lemma calculate_signal_times_rows (s s' : WaveformAnalysis) :
  calculate_signal_times s = Some s' ->
  exists sp voltages locations amps times,
    ensure_peaks s = Some sp /\
    peak_voltages sp = Some voltages /\
    peak_locations sp = Some locations /\
    amplitudes sp = Some amps /\
    mapM (fun '(peak, loc, amp) => signal_time_row (config sp) peak loc amp)
         (zip3 voltages locations amps) = Some times /\
    config s' = config sp /\ amplitudes s' = amplitudes sp /\
    pedestal_sigmas s' = pedestal_sigmas sp /\
    peak_locations s' = peak_locations sp /\
    peak_voltages s' = peak_voltages sp /\
    signal_times s' =
      Some (map (fun t => t * IZR (ns_per_sample (config sp)) + time_offset (config sp))
                times).
Proof.
  unfold calculate_signal_times. intros H.
  apply bind_Some in H. destruct H as [sp [Hsp H]].
  apply bind_Some in H. destruct H as [voltages [Hv H]].
  apply bind_Some in H. destruct H as [locations [Hl H]].
  apply bind_Some in H. destruct H as [amps [Ha H]].
  apply bind_Some in H. destruct H as [times [Ht H]].
  inversion H. simpl.
  exists sp, voltages, locations, amps, times. repeat split; assumption.
Qed.

(** Waveform by waveform, [calculate_signal_times] stores the loop body's
    value scaled by [ns_per_sample] and shifted by [time_offset]. *)
Lemma calculate_signal_times_lookup (s s' : WaveformAnalysis) (k : nat)
    (peak : R) (loc : nat) (amp : list R) :
  calculate_signal_times s = Some s' ->
  col (peak_voltages s') k = Some peak ->
  col (peak_locations s') k = Some loc ->
  col (amplitudes s') k = Some amp ->
  exists t,
    signal_time_row (config s') peak loc amp = Some t /\
    col (signal_times s') k =
      Some (t * IZR (ns_per_sample (config s')) + time_offset (config s')).
Proof.
  intros H Cv Cl Ca. apply calculate_signal_times_rows in H.
  destruct H as (sp & voltages & locations & amps & times &
                 _ & Ev & El & Ea & Hm & Ec & Ea' & _ & El' & Ev' & Est).
  rewrite Ev', Ev in Cv. rewrite El', El in Cl. rewrite Ea', Ea in Ca.
  unfold col in Cv, Cl, Ca. simpl in Cv, Cl, Ca.
  pose proof (zip3_nth_error _ _ _ k _ _ _ Cv Cl Ca) as Z3.
  destruct (mapM_lookup _ _ _ k _ Hm Z3) as [t [Ht Hk]].
  exists t. rewrite Ec. split; [exact Ht|].
  rewrite Est, col_map, Hk. reflexivity.
Qed.

Lemma find_peaks_sets_locations (s0 s : WaveformAnalysis) :
  find_peaks s0 = Some s -> ensure_peaks s = Some s.
Proof.
  intros H. apply find_peaks_rows in H.
  destruct H as (sa & amps & rows & _ & _ & _ & _ & _ & _ & _ & _ & El & _).
  unfold ensure_peaks. rewrite El. reflexivity.
Qed.

(** [find_peaks] establishes [peaks_found]. *)
Lemma find_peaks_found (s0 s : WaveformAnalysis) :
  find_peaks s0 = Some s -> peaks_found s.
Proof.
  intros H. apply find_peaks_rows in H.
  destruct H as (sa & amps & rows & _ & _ & Hm & Ec & _ & Ea & _ & _ & El & Et & Ev).
  exists amps, rows. rewrite Ec. auto.
Qed.

(** Each waveform's stored peak is the peak of its stored row. *)
Lemma peaks_found_lookup (s : WaveformAnalysis) (k : nat)
    (peak : R) (loc : nat) (amp : list R) :
  peaks_found s ->
  col (peak_voltages s) k = Some peak ->
  col (peak_locations s) k = Some loc ->
  col (amplitudes s) k = Some amp ->
  exists t, find_peaks_row (config s) amp = Some (loc, t, peak).
Proof.
  intros (amps & rows & Ea & Hm & El & _ & Ev) Cv Cl Ca.
  rewrite Ea in Ca. rewrite El, col_map in Cl. rewrite Ev, col_map in Cv.
  unfold col in Ca. simpl in Ca.
  destruct (mapM_lookup _ _ _ k amp Hm Ca) as [[[loc' t] v] [Hrow Hk]].
  rewrite Hk in Cl, Cv. simpl in Cl, Cv. inversion Cl. inversion Cv. subst.
  exists t. exact Hrow.
Qed.

Lemma ensure_peaks_found (s sp : WaveformAnalysis) :
  ensure_peaks s = Some sp -> peak_locations s = None \/ peaks_found s ->
  peaks_found sp.
Proof.
  unfold ensure_peaks. destruct (peak_locations s) eqn:E; intros H [N|F].
  - discriminate.
  - inversion H. subst sp. exact F.
  - apply (find_peaks_found _ _ H).
  - apply (find_peaks_found _ _ H).
Qed.

(** [calculate_signal_times] leaves the peaks in place. *)
Lemma calculate_signal_times_found (s s' : WaveformAnalysis) :
  calculate_signal_times s = Some s' ->
  peak_locations s = None \/ peaks_found s ->
  peaks_found s'.
Proof.
  intros H F. unfold calculate_signal_times in H.
  apply bind_Some in H. destruct H as [sp [Hsp H]].
  pose proof (ensure_peaks_found _ _ Hsp F) as (amps & rows & Ea & Hm & El & Et & Ev).
  apply bind_Some in H. destruct H as [v1 [_ H]].
  apply bind_Some in H. destruct H as [l1 [_ H]].
  apply bind_Some in H. destruct H as [a1 [_ H]].
  apply bind_Some in H. destruct H as [times [_ H]].
  inversion H. exists amps, rows. cbn. auto.
Qed.

End TimingStage.

Section TimingClaims.

(** C3.  Peak at the waveform origin.  When the full-waveform peak location
    [analysis_bins[0] + peakIndex] of a waveform is 0 (the analysis window
    starting at a sample index that is not negative), the loop body returns
    the value 0 for that waveform, not an error, and the stored signal time is
    [0 * ns_per_sample + time_offset = time_offset]. *)
Theorem signal_time_peak_at_origin (s s' : WaveformAnalysis) (k : nat)
    (first_bin : Z) (loc : nat) (peak : R) (amp : list R) :
  calculate_signal_times s = Some s' ->
  Np.getitem (analysis_bins (config s')) 0 = Some first_bin ->
  (0 <= first_bin)%Z ->
  col (peak_voltages s') k = Some peak ->
  col (peak_locations s') k = Some loc ->
  col (amplitudes s') k = Some amp ->
  (first_bin + Z.of_nat loc = 0)%Z ->
  signal_time_row (config s') peak loc amp = Some 0 /\
  col (signal_times s') k = Some (time_offset (config s')).
Proof.
  intros H Hfb Hnn Cv Cl Ca Hz.
  assert (E : loc = 0%nat) by lia. subst loc.
  destruct (calculate_signal_times_lookup _ _ k peak 0%nat amp H Cv Cl Ca) as [t [Ht Ct]].
  unfold signal_time_row in Ht. simpl in Ht. inversion Ht. subst t.
  split; [reflexivity|].
  rewrite Ct. f_equal. ring.
Qed.

(** C1, as the code has it.  For a waveform analysed with an analysis window
    that starts at 0, whose peak index [loc] is not 0 and whose peak voltage
    is not negative: if sample [j < loc] is below the threshold
    [0.4 * peak] and no sample strictly between [j] and [loc] is, the stored
    signal time is [x * ns_per_sample + time_offset], where [x] is the
    fractional index in [(j, j+1]] at which the chord through samples [j]
    and [j+1] equals the threshold. *)
Theorem signal_time_crossing (s s' : WaveformAnalysis) (k : nat) (b : Z)
    (loc : nat) (peak : R) (amp : list R) (j : nat) (a0 a1 : R) :
  calculate_signal_times s = Some s' ->
  peaks_found s' ->
  fst (analysis_window (config s')) = 0%Z ->
  analysis_bins (config s') = Np.range 0 b ->
  col (peak_voltages s') k = Some peak ->
  col (peak_locations s') k = Some loc ->
  col (amplitudes s') k = Some amp ->
  loc <> 0%nat ->
  0 <= peak ->
  (j < loc)%nat ->
  nth_error amp j = Some a0 ->
  nth_error amp (S j) = Some a1 ->
  a0 < peak_rise_time_fraction * peak ->
  (forall m x, (j < m < loc)%nat -> nth_error amp m = Some x ->
               peak_rise_time_fraction * peak <= x) ->
  let x := INR j + (peak_rise_time_fraction * peak - a0) / (a1 - a0) in
  col (signal_times s') k =
    Some (x * IZR (ns_per_sample (config s')) + time_offset (config s')) /\
  a0 + (a1 - a0) * (x - INR j) = peak_rise_time_fraction * peak /\
  INR j < x <= INR j + 1.
Proof.
  intros Hc Hf Haw Hbins Cv Cl Ca Hloc Hpeak Hj Ha0 Ha1 Hlt Hrest x.
  destruct (peaks_found_lookup _ k peak loc amp Hf Cv Cl Ca) as [t Hrow].
  destruct (find_peaks_row_window _ _ _ _ _ 0%Z b Hbins ltac:(lia) Hrow)
    as (Hb0 & Hb & Hlb & Hv & Hfirst).
  simpl in Hv.
  assert (Hthr : peak_rise_time_fraction * peak <= a1).
  { destruct (Nat.eq_dec (S j) loc) as [E|N].
    - rewrite E, Hv in Ha1. inversion Ha1. subst a1.
      unfold peak_rise_time_fraction. lra.
    - apply (Hrest (S j)); [lia | exact Ha1]. }
  destruct (calculate_signal_times_lookup _ _ k peak loc amp Hc Cv Cl Ca) as [t' [Ht' Ct]].
  assert (Hlen : (loc < length amp)%nat) by lia.
  rewrite (signal_time_row_scan (config s') peak loc amp 0%Z (loc - 1) (loc - 1 - j)) in Ht'.
  - replace (loc - 1 - (loc - 1 - j))%nat with j in Ht' by lia.
    rewrite (slice_two amp j a0 a1 Ha0 Ha1), Haw in Ht'.
    replace (IZR (0 + Z.of_nat (S j))) with (IZR (0 + Z.of_nat j) + 1) in Ht'
      by (rewrite <- plus_IZR; f_equal; lia).
    rewrite interp_bracket in Ht' by lra.
    assert (EI : IZR (0 + Z.of_nat j) = INR j) by (rewrite INR_IZR_INZ; f_equal).
    rewrite EI in Ht'.
    inversion Ht'. subst t'. clear Ht'.
    assert (Hd : 0 < a1 - a0) by lra.
    assert (Hq : 0 < (peak_rise_time_fraction * peak - a0) / (a1 - a0) <= 1).
    { split.
      - apply Rdiv_lt_0_compat; lra.
      - apply Rmult_le_reg_r with (a1 - a0); [lra|].
        unfold Rdiv. rewrite Rmult_assoc, Rinv_l by lra. lra. }
    split; [exact Ct|]. split.
    + unfold x. field. lra.
    + unfold x. lra.
  - exact Hloc.
  - rewrite Hbins. apply range_first. lia.
  - lia.
  - apply scan_crossing with (a0 := a0); try lia; try assumption.
    intros m y Hm Hy. apply (Hrest m); [lia | exact Hy].
  - lia.
Qed.

(** C2, as the code has it.  For a waveform analysed with an analysis window
    that starts at 0 and whose peak index [loc] is not 0: if no sample before
    the peak is below the threshold [0.4 * peak], [argmax] of the all-[False]
    comparison is 0, the scan stays at the sample just before the peak, and
    the interpolation returns that sample's position: the stored signal time
    is [(loc - 1) * ns_per_sample + time_offset]. *)
Theorem signal_time_no_crossing (s s' : WaveformAnalysis) (k : nat) (b : Z)
    (loc : nat) (peak : R) (amp : list R) :
  calculate_signal_times s = Some s' ->
  peaks_found s' ->
  fst (analysis_window (config s')) = 0%Z ->
  analysis_bins (config s') = Np.range 0 b ->
  col (peak_voltages s') k = Some peak ->
  col (peak_locations s') k = Some loc ->
  col (amplitudes s') k = Some amp ->
  loc <> 0%nat ->
  (forall m x, (m < loc)%nat -> nth_error amp m = Some x ->
               peak_rise_time_fraction * peak <= x) ->
  col (signal_times s') k =
    Some ((INR loc - 1) * IZR (ns_per_sample (config s')) + time_offset (config s')).
Proof.
  intros Hc Hf Haw Hbins Cv Cl Ca Hloc Hall.
  destruct (peaks_found_lookup _ k peak loc amp Hf Cv Cl Ca) as [t Hrow].
  destruct (find_peaks_row_window _ _ _ _ _ 0%Z b Hbins ltac:(lia) Hrow)
    as (Hb0 & Hb & Hlb & Hv & Hfirst).
  simpl in Hv.
  destruct (calculate_signal_times_lookup _ _ k peak loc amp Hc Cv Cl Ca) as [t' [Ht' Ct]].
  assert (Hlen : (loc < length amp)%nat) by lia.
  destruct (nth_error amp (loc - 1)) as [a0|] eqn:Ea0;
    [|apply nth_error_None in Ea0; lia].
  assert (H0 : peak_rise_time_fraction * peak <= a0)
    by (apply (Hall (loc - 1)%nat); [lia | exact Ea0]).
  assert (H1 : a0 < peak)
    by (apply (Hfirst (loc - 1)%nat); [lia | exact Ea0]).
  rewrite (signal_time_row_scan (config s') peak loc amp 0%Z (loc - 1) 0) in Ht'.
  - replace (loc - 1 - 0)%nat with (loc - 1)%nat in Ht' by lia.
    rewrite (slice_two amp (loc - 1) a0 peak) in Ht'.
    + rewrite interp_left in Ht' by lra.
      inversion Ht'. subst t'. rewrite Ct. do 2 f_equal.
      rewrite Haw. rewrite INR_IZR_INZ, <- minus_IZR. do 2 f_equal. lia.
    + exact Ea0.
    + replace (S (loc - 1)) with loc by lia. exact Hv.
  - exact Hloc.
  - rewrite Hbins. apply range_first. lia.
  - lia.
  - apply scan_no_crossing; [lia|].
    intros m y Hm Hy. apply (Hall m); [lia | exact Hy].
  - lia.
Qed.

(** X1.  The positions that [calculate_signal_times] interpolates between
    are [analysis_window[0] + (i - 1)] and [analysis_window[0] + i], with [i]
    a full-waveform sample index: for a peak that is not at the start of the
    analysis window, with sample [j] below the threshold, sample [j + 1] at or
    above it and no sample between [j] and the peak below it, the loop body's
    value is [analysis_window[0] + j + (threshold - a0) / (a1 - a0)], the
    window start in ns added to the fractional sample index before the
    scaling by [ns_per_sample]. *)
Lemma signal_time_row_window_start (c : Config) (peak : R) (loc : nat) (amp : list R)
    (first_bin : Z) (j : nat) (a0 a1 : R) :
  loc <> 0%nat ->
  Np.getitem (analysis_bins c) 0 = Some first_bin ->
  (0 <= first_bin)%Z ->
  (Z.to_nat first_bin + loc < length amp)%nat ->
  (j < Z.to_nat first_bin + loc)%nat ->
  nth_error amp j = Some a0 ->
  nth_error amp (S j) = Some a1 ->
  a0 < peak_rise_time_fraction * peak ->
  peak_rise_time_fraction * peak <= a1 ->
  (forall m x, (j < m < Z.to_nat first_bin + loc)%nat -> nth_error amp m = Some x ->
               peak_rise_time_fraction * peak <= x) ->
  signal_time_row c peak loc amp =
  Some (IZR (fst (analysis_window c)) + INR j
        + (peak_rise_time_fraction * peak - a0) / (a1 - a0)).
Proof.
  intros Hloc Hfb Hnn Hlen Hj Ha0 Ha1 Hlt Hge Hrest.
  set (L' := (Z.to_nat first_bin + loc - 1)%nat).
  rewrite (signal_time_row_scan c peak loc amp first_bin L' (L' - j)).
  - replace (L' - (L' - j))%nat with j by (unfold L'; lia).
    rewrite (slice_two amp j a0 a1 Ha0 Ha1).
    replace (IZR (fst (analysis_window c) + Z.of_nat (S j)))
      with (IZR (fst (analysis_window c) + Z.of_nat j) + 1)
      by (rewrite <- plus_IZR; f_equal; lia).
    rewrite interp_bracket by lra.
    rewrite plus_IZR, <- INR_IZR_INZ. reflexivity.
  - exact Hloc.
  - exact Hfb.
  - unfold L'. lia.
  - apply scan_crossing with (a0 := a0); try assumption; unfold L'; try lia.
    intros m y Hm Hy. apply (Hrest m); [lia | exact Hy].
  - lia.
Qed.

End TimingClaims.

(** ** Charge stage: the cumulative-sum masks *)

Section Masks.

Lemma map2_length {A B C : Type} (f : A -> B -> C) (l : list A) (m : list B) :
  length (Np.map2 f l m) = Nat.min (length l) (length m).
Proof.
  revert m. induction l as [|a l IH]; intros [|b m]; simpl; try reflexivity.
  rewrite IH. reflexivity.
Qed.

Lemma map2_nth_error {A B C : Type} (f : A -> B -> C) (l : list A) (m : list B)
    (k : nat) (a : A) (b : B) :
  nth_error l k = Some a -> nth_error m k = Some b ->
  nth_error (Np.map2 f l m) k = Some (f a b).
Proof.
  revert m k. induction l as [|a' l IH]; intros [|b' m] [|k] Ha Hb;
    simpl in *; try discriminate.
  - congruence.
  - apply IH; assumption.
Qed.

Lemma arange_length (n : nat) : length (arange n) = n.
Proof. unfold arange. rewrite length_map, length_seq. reflexivity. Qed.

Lemma arange_nth_error (n k : nat) :
  (k < n)%nat -> nth_error (arange n) k = Some (Z.of_nat k).
Proof.
  intros H. unfold arange. rewrite nth_error_map, nth_error_seq.
  destruct (Nat.ltb_spec k n); [reflexivity | lia].
Qed.

(** A running count is 0 at position [i] exactly when it started at 0 and
    nothing was counted up to [i]. *)
Lemma cumsum_from_zero (l : list bool) : forall (acc i : nat),
  (i < length l)%nat ->
  nth_error (map (fun n => (n =? 0)%nat) (Np.cumsum_from acc l)) i =
  Some ((acc =? 0)%nat && forallb negb (firstn (S i) l)).
Proof.
  induction l as [|b t IH]; intros acc i Hi; simpl in Hi; [lia|].
  destruct i as [|i].
  - simpl. f_equal. destruct b, acc; reflexivity.
  - cbn [Np.cumsum_from map nth_error]. rewrite IH by lia.
    f_equal. cbn [firstn forallb].
    destruct b, acc; reflexivity.
Qed.

Lemma cumsum_length (l : list bool) : length (Np.cumsum l) = length l.
Proof.
  unfold Np.cumsum. generalize 0%nat. induction l as [|b t IH]; intros acc; simpl.
  - reflexivity.
  - rewrite IH. reflexivity.
Qed.

Lemma forallb_rev {A : Type} (f : A -> bool) (l : list A) :
  forallb f (rev l) = forallb f l.
Proof.
  apply Bool.eq_iff_eq_true. rewrite !forallb_forall.
  split; intros H x Hx; apply H; [apply in_rev in Hx | apply in_rev]; assumption.
Qed.

(** The count from the left. *)
Lemma cumsum_left_zero (l : list bool) (i : nat) :
  (i < length l)%nat ->
  nth_error (map (fun n => (n =? 0)%nat) (Np.cumsum l)) i =
  Some (forallb negb (firstn (S i) l)).
Proof. intros H. unfold Np.cumsum. rewrite cumsum_from_zero by exact H. reflexivity. Qed.

(** The count from the right: reversed, cumulated, reversed back. *)
Lemma cumsum_right_zero (l : list bool) (i : nat) :
  (i < length l)%nat ->
  nth_error (map (fun n => (n =? 0)%nat) (rev (Np.cumsum (rev l)))) i =
  Some (forallb negb (skipn i l)).
Proof.
  intros H. rewrite map_rev, nth_error_rev, length_map, cumsum_length, length_rev.
  destruct (Nat.ltb_spec i (length l)); [|lia].
  rewrite cumsum_left_zero by (rewrite length_rev; lia).
  f_equal.
  replace (S (length l - S i)) with (length l - i)%nat by lia.
  rewrite firstn_rev.
  replace (length l - (length l - i))%nat with i by lia.
  apply forallb_rev.
Qed.

Lemma forallb_negb_true (l : list bool) :
  forallb negb l = true <-> forall j, (j < length l)%nat -> nth_error l j = Some false.
Proof.
  rewrite forallb_forall. split.
  - intros H j Hj. destruct (nth_error l j) as [x|] eqn:E.
    + specialize (H x (nth_error_In _ _ E)). destruct x; [discriminate | reflexivity].
    + apply nth_error_None in E. lia.
  - intros H x Hx. apply In_nth_error in Hx. destruct Hx as [j Hj].
    assert (L : (j < length l)%nat) by (apply nth_error_Some; congruence).
    rewrite (H j L) in Hj. inversion Hj. reflexivity.
Qed.

Lemma clear_run_spec (l : list bool) :
  (clear_run l <= length l)%nat /\
  (forall j, (j < clear_run l)%nat -> nth_error l j = Some false) /\
  ((clear_run l < length l)%nat -> nth_error l (clear_run l) = Some true).
Proof.
  induction l as [|b t (IH1 & IH2 & IH3)]; simpl.
  - repeat split; intros; lia.
  - destruct b; simpl.
    + repeat split; intros; try lia; try reflexivity.
    + repeat split.
      * lia.
      * intros [|j] Hj; [reflexivity|]. simpl. apply IH2. lia.
      * intros H. apply IH3. lia.
Qed.

End Masks.

Section Region.

Lemma region_stop_spec (below : list bool) (p : nat) :
  (p < length below)%nat ->
  (p < region_stop below p <= length below)%nat /\
  (forall j, (p < j < region_stop below p)%nat -> nth_error below j = Some false) /\
  ((region_stop below p < length below)%nat ->
   nth_error below (region_stop below p) = Some true).
Proof.
  intros Hp. unfold region_stop.
  destruct (clear_run_spec (skipn (S p) below)) as (H1 & H2 & H3).
  rewrite length_skipn in H1, H3.
  split; [lia|]. split.
  - intros j Hj.
    specialize (H2 (j - S p)%nat ltac:(lia)).
    rewrite nth_error_skipn in H2.
    replace (S p + (j - S p))%nat with j in H2 by lia. exact H2.
  - intros H. specialize (H3 ltac:(lia)).
    rewrite nth_error_skipn in H3. exact H3.
Qed.

Lemma region_start_spec (below : list bool) (p : nat) :
  (p < length below)%nat ->
  (region_start below p <= p)%nat /\
  (forall j, (region_start below p <= j < p)%nat -> nth_error below j = Some false) /\
  ((0 < region_start below p)%nat ->
   nth_error below (region_start below p - 1) = Some true).
Proof.
  intros Hp. unfold region_start.
  destruct (clear_run_spec (rev (firstn p below))) as (H1 & H2 & H3).
  assert (L : length (rev (firstn p below)) = p)
    by (rewrite length_rev, length_firstn; lia).
  rewrite L in H1, H3.
  assert (N : forall k, (k < p)%nat ->
              nth_error (rev (firstn p below)) k = nth_error below (p - S k)).
  { intros k Hk. rewrite nth_error_rev, length_firstn.
    replace (Nat.min p (length below)) with p by lia.
    destruct (Nat.ltb_spec k p); [|lia].
    rewrite nth_error_firstn.
    destruct (Nat.ltb_spec (p - S k) p); [reflexivity | lia]. }
  split; [lia|]. split.
  - intros j Hj.
    specialize (H2 (p - S j)%nat ltac:(lia)).
    rewrite N in H2 by lia.
    replace (p - S (p - S j))%nat with j in H2 by lia. exact H2.
  - intros H. specialize (H3 ltac:(lia)).
    rewrite N in H3 by lia.
    replace (p - clear_run (rev (firstn p below)) - 1)%nat
      with (p - S (clear_run (rev (firstn p below))))%nat by lia.
    exact H3.
Qed.

(** A comparison of the indices with the peak index, gated by the
    below-threshold flags. *)
Lemma gate_nth_error (f : Z -> bool) (below : list bool) (j : nat) (bj : bool) :
  nth_error below j = Some bj ->
  nth_error (Np.map2 andb (map f (arange (length below))) below) j =
  Some (f (Z.of_nat j) && bj).
Proof.
  intros H.
  assert (L : (j < length below)%nat) by (apply nth_error_Some; congruence).
  apply map2_nth_error; [|exact H].
  rewrite nth_error_map, arange_nth_error by exact L. reflexivity.
Qed.

Lemma gate_length (f : Z -> bool) (below : list bool) :
  length (Np.map2 andb (map f (arange (length below))) below) = length below.
Proof. rewrite map2_length, length_map, arange_length. lia. Qed.

(** [before_peak_fall] holds up to the first below-threshold sample after the
    peak. *)
Lemma before_peak_fall_nth_error (below : list bool) (p i : nat) :
  (p < length below)%nat -> (i < length below)%nat ->
  nth_error (before_peak_fall below (Z.of_nat p)) i =
  Some (i <? region_stop below p)%nat.
Proof.
  intros Hp Hi. unfold before_peak_fall.
  rewrite cumsum_left_zero by (rewrite gate_length; exact Hi).
  f_equal.
  destruct (region_stop_spec below p Hp) as (R1 & R2 & R3).
  set (g := Np.map2 andb (map (fun i0 => (Z.of_nat p <? i0)%Z) (arange (length below))) below).
  assert (G : forall j bj, nth_error below j = Some bj ->
              nth_error g j = Some ((Z.of_nat p <? Z.of_nat j)%Z && bj))
    by (intros j bj Hj;
        apply (gate_nth_error (fun i0 => (Z.of_nat p <? i0)%Z) below j bj Hj)).
  assert (LF : length (firstn (S i) g) = S i).
  { rewrite length_firstn. unfold g. rewrite gate_length. lia. }
  destruct (Nat.ltb_spec i (region_stop below p)) as [Hlt|Hge].
  - apply forallb_negb_true. intros j Hj. rewrite LF in Hj.
    rewrite nth_error_firstn.
    destruct (Nat.ltb_spec j (S i)); [|lia].
    destruct (nth_error below j) as [bj|] eqn:Ej;
      [|apply nth_error_None in Ej; lia].
    rewrite (G j bj Ej). f_equal.
    destruct (Z.ltb_spec (Z.of_nat p) (Z.of_nat j)); [|reflexivity].
    rewrite R2 in Ej by lia. inversion Ej. reflexivity.
  - destruct (forallb negb (firstn (S i) g)) eqn:F; [|reflexivity].
    exfalso.
    pose proof (proj1 (forallb_negb_true _) F (region_stop below p)) as C.
    rewrite LF in C. specialize (C ltac:(lia)).
    rewrite nth_error_firstn in C.
    destruct (Nat.ltb_spec (region_stop below p) (S i)); [|lia].
    rewrite (G _ true (R3 ltac:(lia))) in C.
    destruct (Z.ltb_spec (Z.of_nat p) (Z.of_nat (region_stop below p))); [|lia].
    discriminate.
Qed.

(** [after_peak_rise] holds from just past the last below-threshold sample
    before the peak. *)
Lemma after_peak_rise_nth_error (below : list bool) (p i : nat) :
  (p < length below)%nat -> (i < length below)%nat ->
  nth_error (after_peak_rise below (Z.of_nat p)) i =
  Some (region_start below p <=? i)%nat.
Proof.
  intros Hp Hi. unfold after_peak_rise.
  rewrite cumsum_right_zero by (rewrite gate_length; exact Hi).
  f_equal.
  destruct (region_start_spec below p Hp) as (L1 & L2 & L3).
  set (h := Np.map2 andb (map (fun i0 => (i0 <? Z.of_nat p)%Z) (arange (length below))) below).
  assert (G : forall j bj, nth_error below j = Some bj ->
              nth_error h j = Some ((Z.of_nat j <? Z.of_nat p)%Z && bj))
    by (intros j bj Hj;
        apply (gate_nth_error (fun i0 => (i0 <? Z.of_nat p)%Z) below j bj Hj)).
  assert (LS : length (skipn i h) = (length below - i)%nat).
  { rewrite length_skipn. unfold h. rewrite gate_length. reflexivity. }
  destruct (Nat.leb_spec (region_start below p) i) as [Hle|Hgt].
  - apply forallb_negb_true. intros j Hj. rewrite LS in Hj.
    rewrite nth_error_skipn.
    destruct (nth_error below (i + j)) as [bj|] eqn:Ej;
      [|apply nth_error_None in Ej; lia].
    rewrite (G _ bj Ej). f_equal.
    destruct (Z.ltb_spec (Z.of_nat (i + j)) (Z.of_nat p)); [|reflexivity].
    rewrite L2 in Ej by lia. inversion Ej. reflexivity.
  - destruct (forallb negb (skipn i h)) eqn:F; [|reflexivity].
    exfalso.
    pose proof (proj1 (forallb_negb_true _) F (region_start below p - 1 - i)%nat) as C.
    rewrite LS in C. specialize (C ltac:(lia)).
    rewrite nth_error_skipn in C.
    replace (i + (region_start below p - 1 - i))%nat
      with (region_start below p - 1)%nat in C by lia.
    rewrite (G _ true (L3 ltac:(lia))) in C.
    destruct (Z.ltb_spec (Z.of_nat (region_start below p - 1)) (Z.of_nat p)); [|lia].
    discriminate.
Qed.

Lemma before_peak_fall_length (below : list bool) (p : Z) :
  length (before_peak_fall below p) = length below.
Proof. unfold before_peak_fall. rewrite length_map, cumsum_length, gate_length. reflexivity. Qed.

Lemma after_peak_rise_length (below : list bool) (p : Z) :
  length (after_peak_rise below p) = length below.
Proof.
  unfold after_peak_rise.
  rewrite length_map, length_rev, cumsum_length, length_rev, gate_length. reflexivity.
Qed.

Lemma charge_mask_length (amp : list R) (sigma : R) (p : Z) :
  length (charge_mask amp sigma p) = length amp.
Proof.
  unfold charge_mask.
  rewrite map2_length, before_peak_fall_length, after_peak_rise_length, length_map. lia.
Qed.

(** The mask that [integrate_charges] builds with the two cumulative sums is
    the region of the explicit scan. *)
Lemma charge_mask_region (amp : list R) (sigma : R) (p : nat) :
  (p < length amp)%nat ->
  let below := map (fun a => Np.ltb a (3 * sigma)) amp in
  charge_mask amp sigma (Z.of_nat p) =
  map (fun i => (region_start below p <=? i)%nat && (i <? region_stop below p)%nat)
      (seq 0 (length amp)).
Proof.
  intros Hp below. apply nth_error_ext. intros i.
  assert (Lb : length below = length amp) by (unfold below; apply length_map).
  destruct (Nat.lt_ge_cases i (length amp)) as [Hi|Hi].
  - rewrite nth_error_map, nth_error_seq.
    destruct (Nat.ltb_spec i (length amp)); [|lia]. simpl.
    unfold charge_mask. fold below.
    rewrite (map2_nth_error andb _ _ i (i <? region_stop below p)%nat
               (region_start below p <=? i)%nat).
    + f_equal. apply andb_comm.
    + apply before_peak_fall_nth_error; lia.
    + apply after_peak_rise_nth_error; lia.
  - replace (nth_error (charge_mask amp sigma (Z.of_nat p)) i) with (@None bool)
      by (symmetry; apply nth_error_None; rewrite charge_mask_length; exact Hi).
    symmetry. apply nth_error_None. rewrite length_map, length_seq. exact Hi.
Qed.

End Region.

Section ChargeSum.

Lemma sum_app (l m : list R) : Np.sum (l ++ m) = Np.sum l + Np.sum m.
Proof.
  induction l as [|a l IH]; simpl.
  - lra.
  - unfold Np.sum in *. simpl. rewrite IH. lra.
Qed.

Lemma sum_cons (a : R) (l : list R) : Np.sum (a :: l) = a + Np.sum l.
Proof. reflexivity. Qed.

(** Summing a row against the mask of an interval of indices sums the
    samples of the interval. *)
Lemma sum_masked_interval (amp : list R) : forall (i0 lo hi : nat),
  Np.sum (Np.map2 masked amp
            (map (fun i => (lo <=? i)%nat && (i <? hi)%nat) (seq i0 (length amp)))) =
  Np.sum (skipn (lo - i0) (firstn (hi - i0) amp)).
Proof.
  induction amp as [|a t IH]; intros i0 lo hi.
  - simpl. rewrite firstn_nil, skipn_nil. reflexivity.
  - cbn [length seq map Np.map2]. rewrite sum_cons, IH. unfold masked.
    destruct (Nat.leb_spec lo i0) as [Hlo|Hlo];
      destruct (Nat.ltb_spec i0 hi) as [Hhi|Hhi]; cbn [andb].
    + replace (lo - i0)%nat with 0%nat by lia.
      replace (lo - S i0)%nat with 0%nat by lia.
      replace (hi - i0)%nat with (S (hi - S i0)) by lia.
      cbn [firstn skipn]. rewrite sum_cons. lra.
    + replace (hi - i0)%nat with 0%nat by lia.
      replace (hi - S i0)%nat with 0%nat by lia.
      cbn [firstn]. rewrite !skipn_nil. unfold Np.sum. simpl. lra.
    + replace (lo - i0)%nat with (S (lo - S i0)) by lia.
      replace (hi - i0)%nat with (S (hi - S i0)) by lia.
      cbn [firstn skipn]. lra.
    + replace (hi - i0)%nat with 0%nat by lia.
      replace (hi - S i0)%nat with 0%nat by lia.
      cbn [firstn]. rewrite !skipn_nil. unfold Np.sum. simpl. lra.
Qed.

(** The charge of a row is the sum of the samples of its region, scaled. *)
Lemma charge_row_region (c : Config) (amp : list R) (sigma : R) (p : nat) :
  (p < length amp)%nat ->
  let below := map (fun a => Np.ltb a (3 * sigma)) amp in
  charge_row c amp sigma (Z.of_nat p) =
  Np.sum (skipn (region_start below p) (firstn (region_stop below p) amp))
  * (IZR (ns_per_sample c) / impedance).
Proof.
  intros Hp below. unfold charge_row.
  rewrite (charge_mask_region amp sigma p Hp). fold below.
  rewrite sum_masked_interval. rewrite !Nat.sub_0_r. reflexivity.
Qed.

(** A region that contains [p] splits at [p]. *)
Lemma region_split (amp : list R) (start stop p : nat) (x : R) :
  (start <= p)%nat -> (p < stop)%nat -> nth_error amp p = Some x ->
  skipn start (firstn stop amp) =
  skipn start (firstn p amp) ++ x :: firstn (stop - S p) (skipn (S p) amp).
Proof.
  intros Hs Hp Hx.
  destruct (nth_error_split _ _ Hx) as (l1 & l2 & E & L). subst amp.
  assert (E2 : skipn (S p) (l1 ++ x :: l2) = l2).
  { rewrite skipn_app.
    replace (skipn (S p) l1) with (@nil R) by (symmetry; apply skipn_all2; lia).
    replace (S p - length l1)%nat with 1%nat by lia. reflexivity. }
  rewrite E2. rewrite !firstn_app, L.
  replace (firstn stop l1) with l1 by (symmetry; apply firstn_all2; lia).
  replace (firstn p l1) with l1 by (symmetry; apply firstn_all2; lia).
  replace (p - p)%nat with 0%nat by lia.
  replace (stop - p)%nat with (S (stop - S p)) by lia.
  cbn [firstn]. rewrite app_nil_r.
  rewrite skipn_app.
  replace (start - length l1)%nat with 0%nat by lia. reflexivity.
Qed.

End ChargeSum.

Section RegionUnique.

Lemma clear_run_unique (l : list bool) (n : nat) :
  (n <= length l)%nat ->
  (forall j, (j < n)%nat -> nth_error l j = Some false) ->
  ((n < length l)%nat -> nth_error l n = Some true) ->
  clear_run l = n.
Proof.
  revert n. induction l as [|b t IH]; intros n H1 H2 H3; simpl in *.
  - lia.
  - destruct b.
    + destruct n as [|n]; [reflexivity|].
      specialize (H2 0%nat ltac:(lia)). discriminate.
    + destruct n as [|n].
      * specialize (H3 ltac:(lia)). discriminate.
      * f_equal. apply IH.
        -- lia.
        -- intros j Hj. apply (H2 (S j)). lia.
        -- intros H. apply H3. lia.
Qed.

Lemma region_stop_unique (below : list bool) (p r : nat) :
  (p < r <= length below)%nat ->
  (forall j, (p < j < r)%nat -> nth_error below j = Some false) ->
  ((r < length below)%nat -> nth_error below r = Some true) ->
  region_stop below p = r.
Proof.
  intros H1 H2 H3. unfold region_stop.
  rewrite (clear_run_unique (skipn (S p) below) (r - S p)).
  - lia.
  - rewrite length_skipn. lia.
  - intros j Hj. rewrite nth_error_skipn. apply H2. lia.
  - rewrite length_skipn. intros H. rewrite nth_error_skipn.
    replace (S p + (r - S p))%nat with r by lia. apply H3. lia.
Qed.

Lemma region_start_unique (below : list bool) (p l : nat) :
  (p < length below)%nat -> (l <= p)%nat ->
  (forall j, (l <= j < p)%nat -> nth_error below j = Some false) ->
  ((0 < l)%nat -> nth_error below (l - 1) = Some true) ->
  region_start below p = l.
Proof.
  intros Hp H1 H2 H3. unfold region_start.
  assert (L : length (rev (firstn p below)) = p)
    by (rewrite length_rev, length_firstn; lia).
  assert (N : forall k, (k < p)%nat ->
              nth_error (rev (firstn p below)) k = nth_error below (p - S k)).
  { intros k Hk. rewrite nth_error_rev, length_firstn.
    replace (Nat.min p (length below)) with p by lia.
    destruct (Nat.ltb_spec k p); [|lia].
    rewrite nth_error_firstn.
    destruct (Nat.ltb_spec (p - S k) p); [reflexivity | lia]. }
  rewrite (clear_run_unique (rev (firstn p below)) (p - l)).
  - lia.
  - lia.
  - intros j Hj. rewrite N by lia. apply H2. lia.
  - rewrite L. intros H. rewrite N by lia.
    replace (p - S (p - l))%nat with (l - 1)%nat by lia. apply H3. lia.
Qed.

Lemma sum_scale_masked (c : R) (amp : list R) : forall (mask : list bool),
  Np.sum (Np.map2 masked (scale_region c amp mask) mask) =
  c * Np.sum (Np.map2 masked amp mask).
Proof.
  unfold scale_region.
  induction amp as [|a t IH]; intros [|m mask]; cbn [Np.map2].
  - unfold Np.sum. simpl. lra.
  - unfold Np.sum. simpl. lra.
  - unfold Np.sum. simpl. lra.
  - rewrite !sum_cons, IH. unfold masked. destruct m; lra.
Qed.

Lemma scale_region_length (c : R) (amp : list R) (mask : list bool) :
  length mask = length amp -> length (scale_region c amp mask) = length amp.
Proof. intros H. unfold scale_region. rewrite map2_length. lia. Qed.

End RegionUnique.

Section ChargeScaling.

Lemma interval_mask_nth_error (start stop n j : nat) :
  (j < n)%nat ->
  nth_error (map (fun i => (start <=? i)%nat && (i <? stop)%nat) (seq 0 n)) j =
  Some ((start <=? j)%nat && (j <? stop)%nat).
Proof.
  intros H. rewrite nth_error_map, nth_error_seq.
  destruct (Nat.ltb_spec j n); [reflexivity | lia].
Qed.

(** Scaling the samples of the region leaves the mask as it is, provided no
    scaled sample of the region other than the peak falls below the
    threshold. *)
Lemma scaled_mask_preserved (amp : list R) (sigma c : R) (p : nat) :
  (p < length amp)%nat ->
  let mask := charge_mask amp sigma (Z.of_nat p) in
  (forall j x, j <> p -> nth_error mask j = Some true ->
               nth_error amp j = Some x -> 3 * sigma <= c * x) ->
  charge_mask (scale_region c amp mask) sigma (Z.of_nat p) = mask.
Proof.
  intros Hp mask Hkeep.
  set (below := map (fun a => Np.ltb a (3 * sigma)) amp).
  set (start := region_start below p). set (stop := region_stop below p).
  assert (Em : mask = map (fun i => (start <=? i)%nat && (i <? stop)%nat)
                          (seq 0 (length amp)))
    by (apply (charge_mask_region amp sigma p Hp)).
  assert (Lb : length below = length amp) by (unfold below; apply length_map).
  destruct (region_stop_spec below p ltac:(lia)) as (R1 & R2 & R3).
  destruct (region_start_spec below p ltac:(lia)) as (L1 & L2 & L3).
  fold start in L1, L2, L3. fold stop in R1, R2, R3.
  assert (Lm : length mask = length amp) by apply charge_mask_length.
  set (amp' := scale_region c amp mask).
  assert (La : length amp' = length amp) by (apply scale_region_length; exact Lm).
  assert (Na : forall j x, nth_error amp j = Some x ->
               nth_error amp' j =
               Some (if (start <=? j)%nat && (j <? stop)%nat then c * x else x)).
  { intros j x Hx.
    assert (Hj : (j < length amp)%nat) by (apply nth_error_Some; congruence).
    unfold amp', scale_region.
    rewrite (map2_nth_error _ amp mask j x ((start <=? j)%nat && (j <? stop)%nat) Hx);
      [reflexivity|].
    rewrite Em. apply interval_mask_nth_error. exact Hj. }
  set (below' := map (fun a => Np.ltb a (3 * sigma)) amp').
  assert (Lb' : length below' = length amp) by (unfold below'; rewrite length_map; exact La).
  (* inside the region, a scaled sample other than the peak is not below *)
  assert (In' : forall j, (start <= j < stop)%nat -> j <> p ->
                nth_error below' j = Some false).
  { intros j Hj Hne.
    destruct (nth_error amp j) as [x|] eqn:Ex; [|apply nth_error_None in Ex; lia].
    unfold below'. rewrite nth_error_map, (Na j x Ex).
    destruct (Nat.leb_spec start j); [|lia].
    destruct (Nat.ltb_spec j stop); [|lia]. simpl. f_equal.
    apply ltb_false. apply (Hkeep j x Hne); [|exact Ex].
    rewrite Em, interval_mask_nth_error by lia.
    destruct (Nat.leb_spec start j); [|lia].
    destruct (Nat.ltb_spec j stop); [reflexivity | lia]. }
  (* outside the region, the flags are those of the row *)
  assert (Out' : forall j, (j < start \/ stop <= j)%nat ->
                 nth_error below' j = nth_error below j).
  { intros j Hj. unfold below', below. rewrite !nth_error_map.
    destruct (nth_error amp j) as [x|] eqn:Ex.
    - rewrite (Na j x Ex).
      destruct (Nat.leb_spec start j); destruct (Nat.ltb_spec j stop);
        try lia; reflexivity.
    - replace (nth_error amp' j) with (@None R); [reflexivity|].
      symmetry. apply nth_error_None. apply nth_error_None in Ex. lia. }
  assert (Estop : region_stop below' p = stop).
  { apply region_stop_unique.
    - lia.
    - intros j Hj. apply In'; lia.
    - intros H. rewrite Out' by lia. apply R3. lia. }
  assert (Estart : region_start below' p = start).
  { apply region_start_unique.
    - lia.
    - lia.
    - intros j Hj. apply In'; lia.
    - intros H. rewrite Out' by lia. apply L3. lia. }
  rewrite (charge_mask_region amp' sigma p) by lia.
  fold below'. rewrite Estart, Estop, La. symmetry. exact Em.
Qed.

(** The charge of a row whose region is scaled and keeps its mask. *)
Lemma charge_row_scaling (cfg : Config) (amp : list R) (sigma c : R) (p : nat) :
  (p < length amp)%nat ->
  (forall j x, j <> p ->
               nth_error (charge_mask amp sigma (Z.of_nat p)) j = Some true ->
               nth_error amp j = Some x -> 3 * sigma <= c * x) ->
  charge_row cfg (scale_region c amp (charge_mask amp sigma (Z.of_nat p))) sigma (Z.of_nat p)
  = c * charge_row cfg amp sigma (Z.of_nat p).
Proof.
  intros Hp Hkeep. unfold charge_row.
  rewrite (scaled_mask_preserved amp sigma c p Hp Hkeep).
  rewrite sum_scale_masked. ring.
Qed.

(** Scaling up keeps the samples of the region at or above the threshold: a
    sample of the region other than the peak is at least [3 * sigma], and
    [sigma] is not negative. *)
Lemma scaling_up_keeps (amp : list R) (sigma c : R) (p : nat) :
  (p < length amp)%nat -> 1 <= c -> 0 <= sigma ->
  forall j x, j <> p ->
              nth_error (charge_mask amp sigma (Z.of_nat p)) j = Some true ->
              nth_error amp j = Some x -> 3 * sigma <= c * x.
Proof.
  intros Hp Hc Hs j x Hne Hm Hx.
  set (below := map (fun a => Np.ltb a (3 * sigma)) amp).
  rewrite (charge_mask_region amp sigma p Hp) in Hm. fold below in Hm.
  assert (Hj : (j < length amp)%nat) by (apply nth_error_Some; congruence).
  rewrite interval_mask_nth_error in Hm by exact Hj.
  inversion Hm as [Hm']. apply andb_true_iff in Hm'. destruct Hm' as [M1 M2].
  apply Nat.leb_le in M1. apply Nat.ltb_lt in M2.
  assert (Lb : length below = length amp) by (unfold below; apply length_map).
  destruct (region_stop_spec below p ltac:(lia)) as (_ & R2 & _).
  destruct (region_start_spec below p ltac:(lia)) as (_ & L2 & _).
  assert (Hb : nth_error below j = Some false).
  { destruct (Nat.lt_ge_cases j p); [apply L2 | apply R2]; lia. }
  unfold below in Hb. rewrite nth_error_map, Hx in Hb. simpl in Hb.
  inversion Hb as [Hb']. apply ltb_false_iff in Hb'. nra.
Qed.

(** X2.  Scaling up always keeps the region: a sample of the region other
    than the peak is at least [3 * sigma], and [sigma] is not negative; so for
    [c >= 1] multiplying the samples of the region by [c] leaves the region
    (the mask of the samples that are summed) as it is and multiplies the
    charge of the row by [c]. *)
Lemma charge_scaling_up (cfg : Config) (amp : list R) (sigma c : R) (p : nat) :
  (p < length amp)%nat -> 1 <= c -> 0 <= sigma ->
  charge_mask (scale_region c amp (charge_mask amp sigma (Z.of_nat p))) sigma (Z.of_nat p)
  = charge_mask amp sigma (Z.of_nat p) /\
  charge_row cfg (scale_region c amp (charge_mask amp sigma (Z.of_nat p))) sigma (Z.of_nat p)
  = c * charge_row cfg amp sigma (Z.of_nat p).
Proof.
  intros Hp Hc Hs.
  pose proof (scaling_up_keeps amp sigma c p Hp Hc Hs) as Hkeep.
  split.
  - apply (scaled_mask_preserved amp sigma c p Hp Hkeep).
  - apply (charge_row_scaling cfg amp sigma c p Hp Hkeep).
Qed.

(** Two rows of one length compared entry by entry. *)
Lemma sum_le_entrywise (l1 : list R) : forall (l2 : list R),
  length l1 = length l2 ->
  (forall i x y, nth_error l1 i = Some x -> nth_error l2 i = Some y -> x <= y) ->
  Np.sum l1 <= Np.sum l2.
Proof.
  induction l1 as [|a l1 IH]; intros [|b l2] L H; try discriminate.
  - unfold Np.sum. simpl. lra.
  - rewrite !sum_cons.
    pose proof (H 0%nat a b eq_refl eq_refl).
    assert (Np.sum l1 <= Np.sum l2).
    { apply IH; [simpl in L; lia|]. intros i x y Hx Hy. apply (H (S i)); assumption. }
    lra.
Qed.

Lemma sum_lt_entrywise (l1 : list R) : forall (l2 : list R) (j : nat) (x y : R),
  length l1 = length l2 ->
  (forall i x y, nth_error l1 i = Some x -> nth_error l2 i = Some y -> x <= y) ->
  nth_error l1 j = Some x -> nth_error l2 j = Some y -> x < y ->
  Np.sum l1 < Np.sum l2.
Proof.
  induction l1 as [|a l1 IH]; intros [|b l2] j x y L H Hx Hy Hlt;
    try discriminate; try (destruct j; discriminate).
  rewrite !sum_cons.
  assert (T : forall i x y, nth_error l1 i = Some x -> nth_error l2 i = Some y -> x <= y).
  { intros i x' y' Hx' Hy'. apply (H (S i)); assumption. }
  assert (Lt : length l1 = length l2) by (simpl in L; lia).
  destruct j as [|j].
  - simpl in Hx, Hy. inversion Hx. inversion Hy. subst a b.
    pose proof (sum_le_entrywise l1 l2 Lt T). lra.
  - pose proof (H 0%nat a b eq_refl eq_refl).
    pose proof (IH l2 j x y Lt T Hx Hy Hlt). lra.
Qed.

(** When a scaled sample of the region other than the peak falls below the
    threshold, that sample leaves the region and no sample enters it. *)
Lemma scaled_mask_shrinks (amp : list R) (sigma c : R) (p j : nat) (x : R) :
  (p < length amp)%nat ->
  let mask := charge_mask amp sigma (Z.of_nat p) in
  let mask' := charge_mask (scale_region c amp mask) sigma (Z.of_nat p) in
  j <> p -> nth_error mask j = Some true -> nth_error amp j = Some x ->
  c * x < 3 * sigma ->
  nth_error mask' j = Some false /\
  nth_error mask' p = Some true /\
  (forall i, nth_error mask' i = Some true -> nth_error mask i = Some true).
Proof.
  intros Hp mask mask' Hne Hm Hx Hlow.
  set (below := map (fun a => Np.ltb a (3 * sigma)) amp).
  set (start := region_start below p). set (stop := region_stop below p).
  assert (Em : mask = map (fun i => (start <=? i)%nat && (i <? stop)%nat)
                          (seq 0 (length amp)))
    by (apply (charge_mask_region amp sigma p Hp)).
  assert (Lb : length below = length amp) by (unfold below; apply length_map).
  destruct (region_stop_spec below p ltac:(lia)) as (R1 & R2 & R3).
  destruct (region_start_spec below p ltac:(lia)) as (L1 & L2 & L3).
  fold start in L1, L2, L3. fold stop in R1, R2, R3.
  assert (Lm : length mask = length amp) by apply charge_mask_length.
  set (amp' := scale_region c amp mask).
  assert (La : length amp' = length amp) by (apply scale_region_length; exact Lm).
  assert (Na : forall i y, nth_error amp i = Some y ->
               nth_error amp' i =
               Some (if (start <=? i)%nat && (i <? stop)%nat then c * y else y)).
  { intros i y Hy.
    assert (Hi : (i < length amp)%nat) by (apply nth_error_Some; congruence).
    unfold amp', scale_region.
    rewrite (map2_nth_error _ amp mask i y ((start <=? i)%nat && (i <? stop)%nat) Hy);
      [reflexivity|].
    rewrite Em. apply interval_mask_nth_error. exact Hi. }
  set (below' := map (fun a => Np.ltb a (3 * sigma)) amp').
  assert (Lb' : length below' = length amp) by (unfold below'; rewrite length_map; exact La).
  assert (Out' : forall i, (i < start \/ stop <= i)%nat ->
                 nth_error below' i = nth_error below i).
  { intros i Hi. unfold below', below. rewrite !nth_error_map.
    destruct (nth_error amp i) as [y|] eqn:Ey.
    - rewrite (Na i y Ey).
      destruct (Nat.leb_spec start i); destruct (Nat.ltb_spec i stop);
        try lia; reflexivity.
    - replace (nth_error amp' i) with (@None R); [reflexivity|].
      symmetry. apply nth_error_None. apply nth_error_None in Ey. lia. }
  set (start' := region_start below' p). set (stop' := region_stop below' p).
  destruct (region_stop_spec below' p ltac:(lia)) as (R1' & R2' & R3').
  destruct (region_start_spec below' p ltac:(lia)) as (L1' & L2' & L3').
  fold start' in L1', L2', L3'. fold stop' in R1', R2', R3'.
  assert (Em' : mask' = map (fun i => (start' <=? i)%nat && (i <? stop')%nat)
                            (seq 0 (length amp))).
  { unfold mask'. fold amp'. rewrite (charge_mask_region amp' sigma p) by lia.
    fold below'. fold start'. fold stop'. rewrite La. reflexivity. }
  assert (Hstop : (stop' <= stop)%nat).
  { destruct (Nat.le_gt_cases stop' stop) as [|G]; [assumption|]. exfalso.
    pose proof (R2' stop ltac:(lia)) as F.
    rewrite Out' in F by lia. rewrite R3 in F by lia. discriminate. }
  assert (Hstart : (start <= start')%nat).
  { destruct (Nat.le_gt_cases start start') as [|G]; [assumption|]. exfalso.
    pose proof (L2' (start - 1)%nat ltac:(lia)) as F.
    rewrite Out' in F by lia. rewrite L3 in F by lia. discriminate. }
  assert (Hj : (j < length amp)%nat) by (apply nth_error_Some; congruence).
  assert (Mj : (start <= j < stop)%nat).
  { rewrite Em, interval_mask_nth_error in Hm by exact Hj.
    inversion Hm as [Hm']. apply andb_true_iff in Hm'. destruct Hm' as [M1 M2].
    apply Nat.leb_le in M1. apply Nat.ltb_lt in M2. lia. }
  assert (Bj : nth_error below' j = Some true).
  { unfold below'. rewrite nth_error_map, (Na j x Hx).
    destruct (Nat.leb_spec start j); [|lia].
    destruct (Nat.ltb_spec j stop); [|lia]. simpl. f_equal.
    apply ltb_true. exact Hlow. }
  split; [|split].
  - rewrite Em', interval_mask_nth_error by exact Hj. f_equal.
    destruct (Nat.leb_spec start' j); destruct (Nat.ltb_spec j stop');
      try reflexivity.
    exfalso. destruct (Nat.lt_ge_cases j p).
    + rewrite L2' in Bj by lia. discriminate.
    + rewrite R2' in Bj by lia. discriminate.
  - rewrite Em', interval_mask_nth_error by exact Hp. f_equal.
    destruct (Nat.leb_spec start' p); [|lia].
    destruct (Nat.ltb_spec p stop'); [reflexivity | lia].
  - intros i Hi.
    assert (Hil : (i < length amp)%nat).
    { assert (Lm' : length mask' = length amp)
        by (unfold mask'; rewrite charge_mask_length; exact La).
      rewrite <- Lm'. apply nth_error_Some. rewrite Hi. discriminate. }
    rewrite Em', interval_mask_nth_error in Hi by exact Hil.
    injection Hi as Hi'. apply andb_true_iff in Hi'. destruct Hi' as [M1 M2].
    apply Nat.leb_le in M1. apply Nat.ltb_lt in M2.
    rewrite Em, interval_mask_nth_error by exact Hil. f_equal.
    destruct (Nat.leb_spec start i); [|lia].
    destruct (Nat.ltb_spec i stop); [reflexivity | lia].
Qed.

(** The charge of a row whose region is scaled and loses a sample: with a
    pedestal sigma that is not negative and a positive sampling interval, it
    is strictly less than the scaled charge. *)
Lemma charge_row_shrinks (cfg : Config) (amp : list R) (sigma c : R) (p j : nat) (x : R) :
  (p < length amp)%nat -> 0 < c -> 0 <= sigma -> (0 < ns_per_sample cfg)%Z ->
  j <> p -> nth_error (charge_mask amp sigma (Z.of_nat p)) j = Some true ->
  nth_error amp j = Some x -> c * x < 3 * sigma ->
  charge_row cfg (scale_region c amp (charge_mask amp sigma (Z.of_nat p))) sigma (Z.of_nat p)
  < c * charge_row cfg amp sigma (Z.of_nat p).
Proof.
  intros Hp Hc Hs Hn Hne Hm Hx Hlow.
  destruct (scaled_mask_shrinks amp sigma c p j x Hp Hne Hm Hx Hlow)
    as (Mj' & Mp' & Sub).
  set (mask := charge_mask amp sigma (Z.of_nat p)) in *.
  set (amp' := scale_region c amp mask) in *.
  set (mask' := charge_mask amp' sigma (Z.of_nat p)) in *.
  assert (Lm : length mask = length amp) by apply charge_mask_length.
  assert (La : length amp' = length amp) by (apply scale_region_length; exact Lm).
  assert (Lm' : length mask' = length amp)
    by (unfold mask'; rewrite charge_mask_length; exact La).
  (* a sample of the region other than the peak is not below the threshold *)
  assert (Hreg : forall i y, i <> p -> nth_error mask i = Some true ->
                 nth_error amp i = Some y -> 3 * sigma <= y).
  { intros i y Hi Hmi Hy.
    pose proof (scaling_up_keeps amp sigma 1 p Hp ltac:(lra) Hs i y Hi Hmi Hy). lra. }
  assert (Na : forall i y m, nth_error amp i = Some y -> nth_error mask i = Some m ->
               nth_error amp' i = Some (if m then c * y else y)).
  { intros i y m Hy Hmi. unfold amp', scale_region.
    apply (map2_nth_error (fun a (b : bool) => if b then c * a else a)
             amp mask i y m Hy Hmi). }
  assert (Hsum : Np.sum (Np.map2 masked amp' mask') < Np.sum (Np.map2 masked amp' mask)).
  { apply (sum_lt_entrywise _ _ j 0 (c * x)).
    - rewrite !map2_length. lia.
    - intros i u w Hu Hw.
      assert (Hi : (i < length amp)%nat).
      { assert (i < length (Np.map2 masked amp' mask'))%nat
          by (apply nth_error_Some; congruence).
        rewrite map2_length in *. lia. }
      destruct (nth_error amp i) as [y|] eqn:Ey; [|apply nth_error_None in Ey; lia].
      destruct (nth_error mask i) as [m|] eqn:Emi; [|apply nth_error_None in Emi; lia].
      destruct (nth_error mask' i) as [m'|] eqn:Emi'; [|apply nth_error_None in Emi'; lia].
      pose proof (Na i y m Ey Emi) as Ea'.
      rewrite (map2_nth_error masked amp' mask' i _ m' Ea' Emi') in Hu.
      rewrite (map2_nth_error masked amp' mask i _ m Ea' Emi) in Hw.
      inversion Hu. inversion Hw. subst u w. unfold masked.
      destruct m'.
      + rewrite (Sub i Emi') in Emi. inversion Emi. subst m. lra.
      + destruct m; [|lra].
        assert (i <> p) by (intros E; subst i; congruence).
        pose proof (Hreg i y ltac:(assumption) Emi Ey). nra.
    - rewrite (map2_nth_error masked amp' mask' j _ false (Na j x true Hx Hm) Mj').
      unfold masked. f_equal. ring.
    - rewrite (map2_nth_error masked amp' mask j _ true (Na j x true Hx Hm) Hm).
      unfold masked. f_equal. ring.
    - pose proof (Hreg j x Hne Hm Hx). nra. }
  unfold charge_row. fold mask. fold amp'. fold mask'.
  unfold amp' in Hsum at 2. rewrite sum_scale_masked in Hsum.
  assert (Hk : 0 < IZR (ns_per_sample cfg) / impedance).
  { unfold impedance. apply Rdiv_lt_0_compat; [apply IZR_lt; exact Hn | lra]. }
  fold amp' in Hsum. nra.
Qed.

End ChargeScaling.

Section ChargeStage.

Lemma integrate_charges_rows (s s' : WaveformAnalysis) :
  integrate_charges s = Some s' ->
  exists sp amps sigmas locations first_bin,
    ensure_peaks s = Some sp /\
    amplitudes sp = Some amps /\
    pedestal_sigmas sp = Some sigmas /\
    peak_locations sp = Some locations /\
    Np.getitem (analysis_bins (config sp)) 0 = Some first_bin /\
    config s' = config sp /\ amplitudes s' = amplitudes sp /\
    pedestal_sigmas s' = pedestal_sigmas sp /\
    peak_locations s' = peak_locations sp /\
    peak_voltages s' = peak_voltages sp /\
    integrated_charges s' =
      Some (map (fun '(amp, sigma, p) => charge_row (config sp) amp sigma p)
                (zip3 amps sigmas
                      (map (fun loc => (Z.of_nat loc + first_bin)%Z) locations))).
Proof.
  unfold integrate_charges. intros H.
  apply bind_Some in H. destruct H as [sp [Hsp H]].
  apply bind_Some in H. destruct H as [amps [Ha H]].
  apply bind_Some in H. destruct H as [sigmas [Hs H]].
  apply bind_Some in H. destruct H as [locations [Hl H]].
  apply bind_Some in H. destruct H as [first_bin [Hf H]].
  inversion H. simpl.
  exists sp, amps, sigmas, locations, first_bin. repeat split; assumption.
Qed.

(** Waveform by waveform, [integrate_charges] stores [charge_row] at the
    full-waveform peak index. *)
Lemma integrate_charges_lookup (s s' : WaveformAnalysis) (k : nat)
    (amp : list R) (sigma : R) (loc : nat) (first_bin : Z) :
  integrate_charges s = Some s' ->
  Np.getitem (analysis_bins (config s')) 0 = Some first_bin ->
  col (amplitudes s') k = Some amp ->
  col (pedestal_sigmas s') k = Some sigma ->
  col (peak_locations s') k = Some loc ->
  col (integrated_charges s') k =
    Some (charge_row (config s') amp sigma (Z.of_nat loc + first_bin)).
Proof.
  intros H Hfb Ca Cs Cl. apply integrate_charges_rows in H.
  destruct H as (sp & amps & sigmas & locations & fb &
                 _ & Ea & Es & El & Hf & Ec & Ea' & Es' & El' & _ & Eq).
  rewrite Ec in Hfb. rewrite Hf in Hfb. inversion Hfb. subst fb.
  rewrite Ea', Ea in Ca. rewrite Es', Es in Cs. rewrite El', El in Cl.
  unfold col in Ca, Cs, Cl. simpl in Ca, Cs, Cl.
  assert (Cp : nth_error (map (fun l => (Z.of_nat l + first_bin)%Z) locations) k
               = Some (Z.of_nat loc + first_bin)%Z)
    by (rewrite nth_error_map, Cl; reflexivity).
  pose proof (zip3_nth_error _ _ _ k _ _ _ Ca Cs Cp) as Z3.
  rewrite Eq, col_map, Z3, Ec. reflexivity.
Qed.

(** [integrate_charges] leaves the peaks in place. *)
Lemma integrate_charges_found (s s' : WaveformAnalysis) :
  integrate_charges s = Some s' ->
  peak_locations s = None \/ peaks_found s ->
  peaks_found s'.
Proof.
  intros H F. unfold integrate_charges in H.
  apply bind_Some in H. destruct H as [sp [Hsp H]].
  pose proof (ensure_peaks_found _ _ Hsp F) as (amps & rows & Ea & Hm & El & Et & Ev).
  apply bind_Some in H. destruct H as [a1 [_ H]].
  apply bind_Some in H. destruct H as [sg [_ H]].
  apply bind_Some in H. destruct H as [l1 [_ H]].
  apply bind_Some in H. destruct H as [fb [_ H]].
  inversion H. exists amps, rows. cbn. auto.
Qed.

(** C4.  Charge stage.  For a waveform whose peak was found in the analysis
    window [range(a, b)], with [below[i]] the flag [amplitude[i] < 3 *
    pedestalSigma] and [p = a + peakIndex] the full-waveform peak index: the
    samples that are summed are those of the indices [start <= i < stop],
    where [stop] is the first index after [p] whose flag holds (the row
    length when there is none) and [start - 1] is the nearest index before
    [p] whose flag holds ([start = 0] when there is none); the stored charge
    is the sum of the amplitudes over that region times [ns_per_sample]
    divided by the impedance. *)
Theorem charge_stage (s s' : WaveformAnalysis) (k : nat) (a b : Z)
    (amp : list R) (sigma : R) (loc : nat) :
  integrate_charges s = Some s' ->
  peaks_found s' ->
  analysis_bins (config s') = Np.range a b -> (0 <= a)%Z ->
  col (amplitudes s') k = Some amp ->
  col (pedestal_sigmas s') k = Some sigma ->
  col (peak_locations s') k = Some loc ->
  let below := map (fun x => Np.ltb x (3 * sigma)) amp in
  let p := (Z.to_nat a + loc)%nat in
  let start := region_start below p in
  let stop := region_stop below p in
  (p < stop <= length amp)%nat /\
  ((stop < length amp)%nat -> nth_error below stop = Some true) /\
  (forall j, (p < j < stop)%nat -> nth_error below j = Some false) /\
  (start <= p)%nat /\
  ((0 < start)%nat -> nth_error below (start - 1) = Some true) /\
  (forall j, (start <= j < p)%nat -> nth_error below j = Some false) /\
  charge_mask amp sigma (Z.of_nat p) =
    map (fun i => (start <=? i)%nat && (i <? stop)%nat) (seq 0 (length amp)) /\
  col (integrated_charges s') k =
    Some (Np.sum (skipn start (firstn stop amp))
          * IZR (ns_per_sample (config s')) / impedance).
Proof.
  intros Hc Hf Hbins Ha Ca Cs Cl below p start stop.
  destruct (col (peak_voltages s') k) as [v|] eqn:Cv.
  2:{ destruct Hf as (amps & rows & Ea & Hm & El & _ & Ev).
      rewrite El, col_map in Cl. rewrite Ev, col_map in Cv.
      destruct (nth_error rows k); discriminate. }
  destruct (peaks_found_lookup _ k v loc amp Hf Cv Cl Ca) as [t Hrow].
  destruct (find_peaks_row_window _ _ _ _ _ a b Hbins Ha Hrow)
    as (Hab & Hb & Hlb & Hv & _).
  assert (Hlen : (p < length amp)%nat) by (unfold p; lia).
  assert (Lb : length below = length amp) by (unfold below; apply length_map).
  destruct (region_stop_spec below p ltac:(lia)) as (R1 & R2 & R3).
  destruct (region_start_spec below p ltac:(lia)) as (L1 & L2 & L3).
  fold start in L1, L2, L3. fold stop in R1, R2, R3.
  split; [lia|].
  split; [intros H; apply R3; lia|].
  split; [exact R2|].
  split; [exact L1|].
  split; [exact L3|].
  split; [exact L2|].
  split; [apply (charge_mask_region amp sigma p Hlen)|].
  rewrite (integrate_charges_lookup s s' k amp sigma loc a Hc); try assumption.
  - f_equal.
    replace (Z.of_nat loc + a)%Z with (Z.of_nat p) by (unfold p; lia).
    rewrite (charge_row_region (config s') amp sigma p Hlen).
    fold below start stop. unfold Rdiv. ring.
  - rewrite Hbins. apply range_first. exact Hab.
Qed.

(** C9.  The region always contains the peak sample.  For a waveform whose
    peak was found in the analysis window [range(a, b)], whatever the peak
    amplitude is compared with [3 * pedestalSigma]: the mask holds at the
    full-waveform peak index [p], so the region is not empty, and the stored
    charge is the peak sample's contribution [amplitude[p] * ns_per_sample /
    impedance] plus that of the samples of the region before and after the
    peak. *)
Theorem charge_region_contains_peak (s s' : WaveformAnalysis) (k : nat) (a b : Z)
    (amp : list R) (sigma peak : R) (loc : nat) :
  integrate_charges s = Some s' ->
  peaks_found s' ->
  analysis_bins (config s') = Np.range a b -> (0 <= a)%Z ->
  col (amplitudes s') k = Some amp ->
  col (pedestal_sigmas s') k = Some sigma ->
  col (peak_locations s') k = Some loc ->
  col (peak_voltages s') k = Some peak ->
  let below := map (fun x => Np.ltb x (3 * sigma)) amp in
  let p := (Z.to_nat a + loc)%nat in
  nth_error amp p = Some peak /\
  nth_error (charge_mask amp sigma (Z.of_nat p)) p = Some true /\
  col (integrated_charges s') k =
    Some (peak * IZR (ns_per_sample (config s')) / impedance
          + (Np.sum (skipn (region_start below p) (firstn p amp))
             + Np.sum (firstn (region_stop below p - S p) (skipn (S p) amp)))
            * IZR (ns_per_sample (config s')) / impedance).
Proof.
  intros Hc Hf Hbins Ha Ca Cs Cl Cv below p.
  destruct (peaks_found_lookup _ k peak loc amp Hf Cv Cl Ca) as [t Hrow].
  destruct (find_peaks_row_window _ _ _ _ _ a b Hbins Ha Hrow)
    as (Hab & Hb & Hlb & Hv & _).
  assert (Hlen : (p < length amp)%nat) by (unfold p; lia).
  assert (Lb : length below = length amp) by (unfold below; apply length_map).
  destruct (region_stop_spec below p ltac:(lia)) as (R1 & _ & _).
  destruct (region_start_spec below p ltac:(lia)) as (L1 & _ & _).
  split; [exact Hv|]. split.
  - rewrite (charge_mask_region amp sigma p Hlen). fold below.
    rewrite interval_mask_nth_error by exact Hlen. f_equal.
    apply andb_true_iff. split; [apply Nat.leb_le | apply Nat.ltb_lt]; lia.
  - rewrite (integrate_charges_lookup s s' k amp sigma loc a Hc); try assumption.
    + f_equal.
      replace (Z.of_nat loc + a)%Z with (Z.of_nat p) by (unfold p; lia).
      rewrite (charge_row_region (config s') amp sigma p Hlen). fold below.
      rewrite (region_split amp _ _ p peak) by (try lia; exact Hv).
      rewrite sum_app, sum_cons. unfold Rdiv. ring.
    + rewrite Hbins. apply range_first. exact Hab.
Qed.

(** C5, as the code has it.  With the pedestal sigma and the peak index of a
    waveform held fixed, multiplying every sample of its integration region
    by a constant [c > 0] leaves the region as it is and multiplies the
    integrated charge by [c], provided no scaled sample of the region other
    than the peak falls below the threshold [3 * pedestalSigma]; this is
    always so for [c >= 1] (and a sigma that is not negative).  Otherwise,
    with a sigma that is not negative and a positive sampling interval, every
    sample of the region whose scaled value falls below the threshold leaves
    the region, and the charge is strictly less than [c] times the charge: it
    is not scaled by [c]. *)
Theorem charge_scaling (s s' : WaveformAnalysis) (k : nat) (a b : Z)
    (amp : list R) (sigma q c : R) (loc : nat) :
  integrate_charges s = Some s' ->
  peaks_found s' ->
  analysis_bins (config s') = Np.range a b -> (0 <= a)%Z ->
  col (amplitudes s') k = Some amp ->
  col (pedestal_sigmas s') k = Some sigma ->
  col (peak_locations s') k = Some loc ->
  col (integrated_charges s') k = Some q ->
  0 < c ->
  let p := (Z.of_nat loc + a)%Z in
  let mask := charge_mask amp sigma p in
  let scaled := scale_region c amp mask in
  ((forall j x, Z.of_nat j <> p -> nth_error mask j = Some true ->
                nth_error amp j = Some x -> 3 * sigma <= c * x) ->
   charge_mask scaled sigma p = mask /\
   charge_row (config s') scaled sigma p = c * q) /\
  (1 <= c -> 0 <= sigma ->
   charge_mask scaled sigma p = mask /\
   charge_row (config s') scaled sigma p = c * q) /\
  (0 <= sigma -> (0 < ns_per_sample (config s'))%Z ->
   forall j x, Z.of_nat j <> p -> nth_error mask j = Some true ->
               nth_error amp j = Some x -> c * x < 3 * sigma ->
     nth_error (charge_mask scaled sigma p) j = Some false /\
     charge_row (config s') scaled sigma p < c * q).
Proof.
  intros Hc Hf Hbins Ha Ca Cs Cl Cq Hpos p mask scaled.
  destruct (col (peak_voltages s') k) as [v|] eqn:Cv.
  2:{ destruct Hf as (amps & rows & Ea & Hm & El & _ & Ev).
      rewrite El, col_map in Cl. rewrite Ev, col_map in Cv.
      destruct (nth_error rows k); discriminate. }
  destruct (peaks_found_lookup _ k v loc amp Hf Cv Cl Ca) as [t Hrow].
  destruct (find_peaks_row_window _ _ _ _ _ a b Hbins Ha Hrow)
    as (Hab & Hb & Hlb & _ & _).
  rewrite (integrate_charges_lookup s s' k amp sigma loc a Hc) in Cq; try assumption.
  2:{ rewrite Hbins. apply range_first. exact Hab. }
  inversion Cq. subst q. fold p.
  assert (Ep : p = Z.of_nat (loc + Z.to_nat a)) by (unfold p; lia).
  assert (Hp : (loc + Z.to_nat a < length amp)%nat) by lia.
  unfold scaled, mask. clearbody p. subst p.
  split; [|split].
  - intros Hkeep.
    assert (K : forall j x, j <> (loc + Z.to_nat a)%nat ->
                nth_error (charge_mask amp sigma (Z.of_nat (loc + Z.to_nat a))) j
                  = Some true ->
                nth_error amp j = Some x -> 3 * sigma <= c * x).
    { intros j x Hne. apply Hkeep. lia. }
    split.
    + apply (scaled_mask_preserved amp sigma c _ Hp K).
    + apply (charge_row_scaling _ amp sigma c _ Hp K).
  - intros H1 Hs.
    pose proof (scaling_up_keeps amp sigma c _ Hp H1 Hs) as K.
    split.
    + apply (scaled_mask_preserved amp sigma c _ Hp K).
    + apply (charge_row_scaling _ amp sigma c _ Hp K).
  - intros Hs Hn j x Hne Hm Hx Hlow.
    assert (Hne' : j <> (loc + Z.to_nat a)%nat) by lia.
    split.
    + apply (scaled_mask_shrinks amp sigma c _ j x Hp Hne' Hm Hx Hlow).
    + apply (charge_row_shrinks _ amp sigma c _ j x Hp Hpos Hs Hn Hne' Hm Hx Hlow).
Qed.

End ChargeStage.

(** ** Running the stages again, and out of order *)

Section Reruns.

Lemma ensure_pedestals_amplitudes (s sa : WaveformAnalysis) :
  ensure_pedestals s = Some sa -> exists amps, amplitudes sa = Some amps.
Proof.
  unfold ensure_pedestals. destruct (amplitudes s) as [amps|] eqn:E; intros H.
  - inversion H. subst sa. exists amps. exact E.
  - apply find_pedestals_rows in H. destruct H as (_ & _ & _ & rows & _ & Ea & _).
    eexists. exact Ea.
Qed.

(** A second [run_analysis] on the same instance finds the amplitudes and the
    peak locations of the first run in place, recomputes every attribute from
    them and stores the values that are there already. *)
Lemma run_analysis_again (s s1 : WaveformAnalysis) :
  run_analysis s = Some s1 -> run_analysis s1 = Some s1.
Proof.
  unfold run_analysis. intros H.
  apply bind_Some in H. destruct H as [sb [Hb H]].
  apply bind_Some in H. destruct H as [sc [Hc H]].
  apply bind_Some in H. destruct H as [sd [Hd H]].
  apply bind_Some in H. destruct H as [voltages [Hv H]].
  pose proof (find_peaks_sets_locations _ _ Hb) as Eb.
  unfold find_peaks in Hb.
  apply bind_Some in Hb. destruct Hb as [sa [Ha Hb]].
  apply bind_Some in Hb. destruct Hb as [amps [Hamps Hb]].
  apply bind_Some in Hb. destruct Hb as [rows [Hrows Hb]].
  inversion Hb. subst sb. clear Hb.
  unfold calculate_signal_times in Hc. rewrite Eb in Hc. cbn [bind] in Hc.
  cbn in Hc. rewrite ?Hamps in Hc. cbn [bind] in Hc.
  apply bind_Some in Hc. destruct Hc as [times [Htimes Hc]].
  inversion Hc. subst sc. clear Hc.
  unfold integrate_charges, ensure_peaks in Hd.
  cbn in Hd. rewrite ?Hamps in Hd. cbn [bind] in Hd.
  apply bind_Some in Hd. destruct Hd as [sigmas [Hsig Hd]].
  apply bind_Some in Hd. destruct Hd as [first_bin [Hfb Hd]].
  inversion Hd. subst sd. clear Hd.
  cbn in Hv. inversion Hv. subst voltages. clear Hv.
  inversion H. clear H.
  unfold find_peaks, ensure_pedestals.
  cbn. rewrite ?Hamps. cbn. rewrite Hrows. cbn.
  unfold calculate_signal_times, ensure_peaks.
  cbn. rewrite ?Hamps. cbn. rewrite Htimes. cbn.
  unfold integrate_charges, ensure_peaks.
  cbn. rewrite ?Hamps. cbn. rewrite Hsig. cbn. rewrite Hfb. cbn.
  reflexivity.
Qed.

End Reruns.

(** ** The stages return on valid configurations *)

Section Totality.

Lemma argmax_bool_total (l : list bool) :
  l <> [] -> exists k, Np.argmax_bool l = Some k /\ (k < length l)%nat.
Proof.
  intros N. unfold Np.argmax_bool.
  destruct (Np.first_true l) as [k|] eqn:F.
  - exists k. split; [destruct l; [congruence | reflexivity]|].
    apply first_true_Some in F. destruct F as [F _].
    apply nth_error_Some. congruence.
  - exists 0%nat. destruct l; [congruence|]. split; [reflexivity | simpl; lia].
Qed.

(** The loop body of [calculate_signal_times] returns for a peak found in a
    valid analysis window. *)
Lemma signal_time_row_total (c : Config) (M : nat) (amp : list R)
    (loc : nat) (t v : R) :
  valid_config c M -> length amp = M ->
  find_peaks_row c amp = Some (loc, t, v) ->
  exists x, signal_time_row c v loc amp = Some x.
Proof.
  intros (a & b & p & q & Ea & _ & Ha & Hb & _) L Hrow.
  destruct (Nat.eq_dec loc 0) as [E|N].
  - subst loc. exists 0. reflexivity.
  - destruct (find_peaks_row_window _ _ _ _ _ a b Ea ltac:(lia) Hrow)
      as (Hab & Hbl & Hlb & _ & _).
    set (L' := (Z.to_nat a + loc - 1)%nat).
    assert (HL : (L' < length amp)%nat) by (unfold L'; lia).
    destruct (argmax_bool_total
                (map (fun x => Np.ltb x (peak_rise_time_fraction * v))
                     (Np.slice_down amp (Z.of_nat L')))) as [k [Hk Hlt]].
    { rewrite slice_down_nonneg by exact HL. intros E.
      apply (f_equal (@length bool)) in E.
      rewrite length_map, slice_down_length in E by exact HL. discriminate. }
    rewrite length_map, slice_down_nonneg, slice_down_length in Hlt by exact HL.
    rewrite (signal_time_row_scan c v loc amp a L' k); try assumption.
    + destruct (nth_error amp (L' - k)) as [x0|] eqn:E0;
        [|apply nth_error_None in E0; lia].
      destruct (nth_error amp (S (L' - k))) as [x1|] eqn:E1;
        [|apply nth_error_None in E1; lia].
      rewrite (slice_two amp (L' - k) x0 x1 E0 E1).
      unfold Np.interp. eexists. reflexivity.
    + rewrite Ea. apply range_first. lia.
    + unfold L'. lia.
    + lia.
Qed.

Lemma calculate_signal_times_total (s0 s : WaveformAnalysis) (M : nat) :
  find_peaks s0 = Some s ->
  valid_config (config s) M ->
  (forall amps, amplitudes s = Some amps -> rectangular amps M) ->
  exists s', calculate_signal_times s = Some s'.
Proof.
  intros Hp V Rct.
  pose proof (find_peaks_sets_locations _ _ Hp) as Ep.
  pose proof (find_peaks_rows _ _ Hp)
    as (sa & amps & rows & _ & _ & Hm & Ec & _ & Ea & _ & _ & El & _ & Ev).
  unfold calculate_signal_times. rewrite Ep. cbn [bind].
  rewrite Ev, El, Ea. cbn [bind].
  destruct (mapM_total (fun '(peak, loc, amp) => signal_time_row (config s) peak loc amp)
              (zip3 (map snd rows) (map (fun r => fst (fst r)) rows) amps)) as [times Ht].
  { intros [[peak loc] amp] Hin.
    apply In_nth_error in Hin. destruct Hin as [k Hk].
    apply zip3_nth_error_inv in Hk. destruct Hk as (Kv & Kl & Ka).
    destruct (mapM_lookup _ _ _ k amp Hm Ka) as [[[loc' t] v] [Hrow Hr]].
    rewrite nth_error_map, Hr in Kv. rewrite nth_error_map, Hr in Kl.
    simpl in Kv, Kl. inversion Kv. inversion Kl. subst.
    apply (signal_time_row_total (config s) M amp loc t peak V).
    - specialize (Rct amps Ea). unfold rectangular in Rct.
      rewrite Forall_forall in Rct. apply Rct. eapply nth_error_In. exact Ka.
    - rewrite Ec. exact Hrow. }
  rewrite Ht. cbn [bind]. eexists. reflexivity.
Qed.

Lemma integrate_charges_total (s0 s : WaveformAnalysis) (M : nat) (sigmas : list R) :
  find_peaks s0 = Some s ->
  valid_config (config s) M ->
  pedestal_sigmas s = Some sigmas ->
  exists s', integrate_charges s = Some s'.
Proof.
  intros Hp (a & b & p & q & Ea & _ & Ha & _) Hs.
  pose proof (find_peaks_sets_locations _ _ Hp) as Ep.
  pose proof (find_peaks_rows _ _ Hp)
    as (sa & amps & rows & _ & _ & _ & _ & _ & Eamps & _ & _ & El & _).
  unfold integrate_charges. rewrite Ep. cbn [bind].
  rewrite Eamps, Hs, El. cbn [bind].
  rewrite Ea, range_first by lia. cbn [bind].
  eexists. reflexivity.
Qed.

(** On a valid configuration, [run_analysis] on a new instance returns. *)
Lemma run_analysis_total (c : Config) (w : list (list Z)) (M : nat) :
  valid_config c M -> rectangular w M ->
  exists s1, run_analysis (fresh c w) = Some s1.
Proof.
  intros V W.
  destruct (find_peaks_total (fresh c w) M V W eq_refl) as [sb Hb].
  pose proof (find_peaks_rows _ _ Hb)
    as (sa & amps & rows & Hsa & Eamps & _ & Ec & _ & Ea & _ & Es & _).
  rewrite ensure_pedestals_fresh in Hsa by reflexivity.
  pose proof (find_pedestals_rows _ _ Hsa) as (Eca & _ & _ & prows & _ & _ & _ & Esig).
  assert (Cfg : config sb = c) by (rewrite Ec, Eca; reflexivity).
  destruct (calculate_signal_times_total _ sb M Hb) as [sc Hc].
  { rewrite Cfg. exact V. }
  { intros amps' E. rewrite Ea in E. inversion E. subst amps'.
    apply (find_pedestals_rectangular _ _ M amps Hsa W Eamps). }
  pose proof (calculate_signal_times_rows _ _ Hc)
    as (sp & _ & _ & _ & _ & Hsp & _ & _ & _ & _ & Ecc & Eac & Esc & Elc & Evc & _).
  rewrite (find_peaks_sets_locations _ _ Hb) in Hsp. inversion Hsp. subst sp.
  pose proof (find_peaks_rows _ _ Hb)
    as (_ & _ & rows' & _ & _ & _ & _ & _ & _ & _ & _ & El & _ & Ev).
  assert (Hlc : ensure_peaks sc = Some sc)
    by (unfold ensure_peaks; rewrite Elc, El; reflexivity).
  unfold run_analysis. rewrite Hb. cbn [bind]. rewrite Hc. cbn [bind].
  unfold integrate_charges. rewrite Hlc. cbn [bind].
  rewrite Eac, Ea, Esc, Es, Esig, Elc, El. cbn [bind].
  rewrite Ecc, Cfg.
  destruct V as (a & b & p & q & Eab & _ & Ha & _).
  rewrite Eab, range_first by lia. cbn [bind peak_voltages].
  rewrite Evc, Ev. cbn [bind]. eexists. reflexivity.
Qed.

End Totality.

Section StageOrder.

Lemma find_pedestals_sets_amplitudes (s s1 : WaveformAnalysis) :
  find_pedestals s = Some s1 -> ensure_pedestals s1 = Some s1.
Proof.
  intros H. apply find_pedestals_rows in H.
  destruct H as (_ & _ & _ & rows & _ & Ea & _).
  unfold ensure_pedestals. rewrite Ea. reflexivity.
Qed.

Lemma ensure_peaks_idem (s sp : WaveformAnalysis) :
  ensure_peaks s = Some sp -> ensure_peaks sp = Some sp.
Proof.
  unfold ensure_peaks at 1. destruct (peak_locations s) eqn:E; intros H.
  - inversion H. subst sp. unfold ensure_peaks. rewrite E. reflexivity.
  - apply (find_peaks_sets_locations _ _ H).
Qed.

Lemma calculate_signal_times_lazy (s : WaveformAnalysis) :
  calculate_signal_times s = (sp <- ensure_peaks s ;; calculate_signal_times sp).
Proof.
  unfold calculate_signal_times at 1.
  destruct (ensure_peaks s) as [sp|] eqn:E; cbn [bind]; [|reflexivity].
  unfold calculate_signal_times. rewrite (ensure_peaks_idem _ _ E). reflexivity.
Qed.

Lemma integrate_charges_lazy (s : WaveformAnalysis) :
  integrate_charges s = (sp <- ensure_peaks s ;; integrate_charges sp).
Proof.
  unfold integrate_charges at 1.
  destruct (ensure_peaks s) as [sp|] eqn:E; cbn [bind]; [|reflexivity].
  unfold integrate_charges. rewrite (ensure_peaks_idem _ _ E). reflexivity.
Qed.

Lemma find_peaks_lazy (s : WaveformAnalysis) :
  find_peaks s = (sa <- ensure_pedestals s ;; find_peaks sa).
Proof.
  unfold find_peaks at 1.
  destruct (ensure_pedestals s) as [sa|] eqn:E; cbn [bind]; [|reflexivity].
  unfold find_peaks.
  assert (Ei : ensure_pedestals sa = Some sa).
  { destruct (ensure_pedestals_amplitudes _ _ E) as [amps Ea].
    unfold ensure_pedestals. rewrite Ea. reflexivity. }
  rewrite Ei. reflexivity.
Qed.

(** C10.  Stage order.  On a new instance, each later stage runs the earlier
    stages that are missing: [find_peaks] alone is [find_pedestals] followed
    by [find_peaks]; [calculate_signal_times] alone, and [integrate_charges]
    alone, are [find_pedestals], then [find_peaks], then the stage.  The
    resulting instances (every attribute, and failure as well) are equal. *)
Theorem stage_order (c : Config) (w : list (list Z)) :
  find_peaks (fresh c w) =
    (s1 <- find_pedestals (fresh c w) ;; find_peaks s1) /\
  calculate_signal_times (fresh c w) =
    (s1 <- find_pedestals (fresh c w) ;; s2 <- find_peaks s1 ;;
     calculate_signal_times s2) /\
  integrate_charges (fresh c w) =
    (s1 <- find_pedestals (fresh c w) ;; s2 <- find_peaks s1 ;;
     integrate_charges s2).
Proof.
  assert (P : find_peaks (fresh c w) =
              (s1 <- find_pedestals (fresh c w) ;; find_peaks s1))
    by (rewrite find_peaks_lazy; reflexivity).
  split; [exact P|]. split.
  - rewrite calculate_signal_times_lazy.
    change (ensure_peaks (fresh c w)) with (find_peaks (fresh c w)).
    rewrite P. destruct (find_pedestals (fresh c w)); reflexivity.
  - rewrite integrate_charges_lazy.
    change (ensure_peaks (fresh c w)) with (find_peaks (fresh c w)).
    rewrite P. destruct (find_pedestals (fresh c w)); reflexivity.
Qed.

Lemma ensure_pedestals_frame (s sa : WaveformAnalysis) :
  ensure_pedestals s = Some sa ->
  config sa = config s /\ waveforms sa = waveforms s.
Proof.
  unfold ensure_pedestals. destruct (amplitudes s); intros H.
  - inversion H. auto.
  - apply find_pedestals_rows in H. destruct H as (Ec & Ew & _). auto.
Qed.

(** No stage changes the configuration or the batch. *)
Lemma run_analysis_frame (s s1 : WaveformAnalysis) :
  run_analysis s = Some s1 ->
  config s1 = config s /\ waveforms s1 = waveforms s.
Proof.
  unfold run_analysis. intros H.
  apply bind_Some in H. destruct H as [sb [Hb H]].
  apply bind_Some in H. destruct H as [sc [Hc H]].
  apply bind_Some in H. destruct H as [sd [Hd H]].
  apply bind_Some in H. destruct H as [voltages [Hv H]].
  inversion H. cbn. clear H.
  pose proof (find_peaks_sets_locations _ _ Hb) as Eb.
  unfold find_peaks in Hb.
  apply bind_Some in Hb. destruct Hb as [sa [Ha Hb]].
  apply bind_Some in Hb. destruct Hb as [amps [Hamps Hb]].
  apply bind_Some in Hb. destruct Hb as [rows [Hrows Hb]].
  destruct (ensure_pedestals_frame _ _ Ha) as [Fc Fw].
  inversion Hb. subst sb. clear Hb.
  unfold calculate_signal_times in Hc. rewrite Eb in Hc. cbn [bind] in Hc.
  apply bind_Some in Hc. destruct Hc as [v1 [_ Hc]].
  apply bind_Some in Hc. destruct Hc as [l1 [_ Hc]].
  apply bind_Some in Hc. destruct Hc as [a1 [_ Hc]].
  apply bind_Some in Hc. destruct Hc as [times [_ Hc]].
  inversion Hc. subst sc. clear Hc.
  unfold integrate_charges, ensure_peaks in Hd. cbn in Hd.
  apply bind_Some in Hd. destruct Hd as [a2 [_ Hd]].
  apply bind_Some in Hd. destruct Hd as [sg [_ Hd]].
  apply bind_Some in Hd. destruct Hd as [fb [_ Hd]].
  inversion Hd. cbn. auto.
Qed.

(** C8.  Determinism.  On a valid configuration, [run_analysis] on a new
    instance returns a result that is a function of the batch and the
    configuration alone, and leaves both as they were; running it a second
    time on the same instance, with every attribute of the first run in
    place, returns the very same instance: the attributes that are kept
    between the runs change no result. *)
Theorem run_analysis_deterministic (c : Config) (w : list (list Z)) (M : nat) :
  valid_config c M -> rectangular w M ->
  exists s1,
    run_analysis (fresh c w) = Some s1 /\
    config s1 = c /\ waveforms s1 = w /\
    run_analysis s1 = Some s1.
Proof.
  intros V W.
  destruct (run_analysis_total c w M V W) as [s1 H1].
  exists s1. split; [exact H1|].
  destruct (run_analysis_frame _ _ H1) as [Fc Fw].
  split; [exact Fc|]. split; [exact Fw|].
  apply (run_analysis_again _ _ H1).
Qed.

End StageOrder.

(** ** Instances as [__init__] and [run_analysis] make them *)

Section Reachable.

Lemma init_fresh (w : list (list Z)) (thr : R) (aw pw : Z * Z) (rp : bool)
    (nsps : Z) (vs toff : R) (s : WaveformAnalysis) :
  init w thr aw pw rp nsps vs toff = Some s ->
  s = fresh (config s) w /\
  analysis_bins (config s) = Np.range (fst aw / nsps) (snd aw / nsps) /\
  pedestal_bins (config s) = Np.range (fst pw / nsps) (snd pw / nsps).
Proof.
  unfold init. destruct (nsps =? 0)%Z; [discriminate|].
  intros H. inversion H. cbn. repeat split.
Qed.

(** The invariant of the data model: both windows resolve to a non-empty
    span of sample indices inside the waveform. *)
Lemma init_valid (w : list (list Z)) (thr : R) (aw pw : Z * Z) (rp : bool)
    (nsps : Z) (vs toff : R) (s : WaveformAnalysis) (M : nat) :
  init w thr aw pw rp nsps vs toff = Some s ->
  (0 <= fst aw / nsps < snd aw / nsps)%Z -> (snd aw / nsps <= Z.of_nat M)%Z ->
  (0 <= fst pw / nsps < snd pw / nsps)%Z -> (snd pw / nsps <= Z.of_nat M)%Z ->
  valid_config (config s) M.
Proof.
  intros H A1 A2 P1 P2. apply init_fresh in H. destruct H as (_ & Ea & Ep).
  exists (fst aw / nsps)%Z, (snd aw / nsps)%Z, (fst pw / nsps)%Z, (snd pw / nsps)%Z.
  repeat split; try assumption; lia.
Qed.

Lemma run_analysis_found (s s1 : WaveformAnalysis) :
  run_analysis s = Some s1 -> peaks_found s1.
Proof.
  unfold run_analysis. intros H.
  apply bind_Some in H. destruct H as [sb [Hb H]].
  apply bind_Some in H. destruct H as [sc [Hc H]].
  apply bind_Some in H. destruct H as [sd [Hd H]].
  apply bind_Some in H. destruct H as [voltages [Hv H]].
  pose proof (find_peaks_found _ _ Hb) as Fb.
  pose proof (calculate_signal_times_found _ _ Hc (or_intror Fb)) as Fc.
  pose proof (integrate_charges_found _ _ Hd (or_intror Fc))
    as (amps & rows & Ea & Hm & El & Et & Ev).
  inversion H. exists amps, rows. cbn. auto.
Qed.

End Reachable.

(** ** The worked batch, stage by stage *)

Ltac np_cbv :=
  cbv -[Rplus Rmult Rminus Ropp Rdiv Rinv IZR INR sqrt Np.ltb Np.eqb
        Rlt_dec Req_dec_T Rle Rlt Rge Rgt].
Ltac r_arith := cbn [INR]; lra.
Ltac r_sqrt := apply sqrt_lem_1; cbn [INR]; lra.
Ltac r_val := first [reflexivity | r_arith | r_sqrt].
Ltac r_list := repeat (apply (f_equal2 (@cons R)); [r_val|]); reflexivity.
Ltac r_rows := repeat (apply (f_equal2 (@cons (list R))); [r_list|]); reflexivity.
Ltac r_field := first [reflexivity | apply f_equal; first [r_list | r_rows]].
Ltac np_ltb :=
  repeat match goal with
  | |- context [Np.ltb ?a ?b] =>
      first [ rewrite (ltb_true a b) by r_arith | rewrite (ltb_false a b) by r_arith ]
  | |- context [Np.eqb ?a ?b] =>
      first [ rewrite (eqb_true a b) by r_arith | rewrite (eqb_false a b) by r_arith ]
  end.
Ltac np_eval := np_cbv; repeat (progress np_ltb; np_cbv).

Section WorkedBatch.

Lemma exA_init :
  init exA_waveforms 0.01 (0, 10)%Z (10, 18)%Z true 2 1 0
  = Some (fresh exA_config exA_waveforms).
Proof. reflexivity. Qed.

Lemma exA_valid : valid_config exA_config 9.
Proof. exists 0%Z, 5%Z, 5%Z, 9%Z. repeat split; lia. Qed.

Lemma exA_rectangular : rectangular exA_waveforms 9.
Proof. repeat constructor. Qed.

Lemma exA_find_peaks : find_peaks (fresh exA_config exA_waveforms) = Some exA_peaks.
Proof. np_eval. apply f_equal. f_equal; r_field. Qed.

Lemma exA_signal_times : calculate_signal_times exA_peaks = Some exA_timed.
Proof. np_eval. apply f_equal. f_equal; r_field. Qed.

Lemma exA_charges : integrate_charges exA_timed = Some exA_charged.
Proof. np_eval. apply f_equal. f_equal; r_field. Qed.

Lemma exA_run : run_analysis (fresh exA_config exA_waveforms) = Some exA_final.
Proof.
  unfold run_analysis. rewrite exA_find_peaks. cbn [bind].
  rewrite exA_signal_times. cbn [bind]. rewrite exA_charges. cbn [bind].
  np_eval. reflexivity.
Qed.

Lemma exA_timed_found : peaks_found exA_timed.
Proof.
  apply (calculate_signal_times_found _ _ exA_signal_times).
  right. apply (find_peaks_found _ _ exA_find_peaks).
Qed.

Lemma exA_charged_found : peaks_found exA_charged.
Proof.
  apply (integrate_charges_found _ _ exA_charges). right. exact exA_timed_found.
Qed.

End WorkedBatch.

(** ** The claims on the worked batch *)

Section Instances.

(** [pedestal_stage] on the worked batch. *)
Lemma pedestal_stage_witness :
  valid_config exA_config 9 /\ rectangular exA_waveforms 9 /\
  exists s' sf' p q,
    find_pedestals (fresh exA_config exA_waveforms) = Some s' /\
    find_pedestals
      (with_config (with_reverse_polarity false exA_config)
                   (fresh exA_config exA_waveforms)) = Some sf' /\
    Np.range 5 9 = Np.range p q /\
    (0 <= p < q)%Z /\ (q <= Z.of_nat 9)%Z /\
    forall k raw, nth_error exA_waveforms k = Some raw ->
      exists window amp,
        length window = Z.to_nat (q - p) /\
        (forall j, (j < Z.to_nat (q - p))%nat ->
           exists x, nth_error raw (Z.to_nat p + j) = Some x /\
                     nth_error window j = Some (IZR x * 1)) /\
        Np.take (map (fun x => IZR x * 1) raw) (Np.range 5 9) = Some window /\
        col (pedestals s') k = Some (Np.sum window / INR (length window)) /\
        col (pedestal_sigmas s') k =
          Some (sqrt (Np.mean (map (fun x => (x - Np.mean window) * (x - Np.mean window))
                                   window))) /\
        0 <= sqrt (Np.mean (map (fun x => (x - Np.mean window) * (x - Np.mean window))
                                window)) /\
        amp = map (fun x => -1 * (IZR x * 1 - Np.mean window)) raw /\
        col (amplitudes s') k = Some amp /\
        col (amplitudes sf') k = Some (map Ropp amp) /\
        col (pedestals sf') k = col (pedestals s') k /\
        col (pedestal_sigmas sf') k = col (pedestal_sigmas s') k.
Proof.
  split; [exact exA_valid|]. split; [exact exA_rectangular|].
  exact (pedestal_stage (fresh exA_config exA_waveforms) 9 exA_valid exA_rectangular).
Defined.

(** [peak_stage] on the worked batch. *)
Lemma peak_stage_witness :
  exists sa s' a b,
    find_pedestals (fresh exA_config exA_waveforms) = Some sa /\
    find_peaks (fresh exA_config exA_waveforms) = Some s' /\
    Np.range 0 5 = Np.range a b /\
    (0 <= a < b)%Z /\ (b <= Z.of_nat 9)%Z /\
    (forall k raw, nth_error exA_waveforms k = Some raw ->
      exists amp ped loc v,
        col (amplitudes sa) k = Some amp /\
        col (pedestals sa) k = Some ped /\
        amp = map (fun x => -1 * (IZR x * 1 - ped)) raw /\
        length amp = 9%nat /\
        col (amplitudes s') k = Some amp /\
        col (peak_locations s') k = Some loc /\
        (loc < Z.to_nat (b - a))%nat /\
        (forall j x, (j < Z.to_nat (b - a))%nat ->
                     nth_error amp (Z.to_nat a + j) = Some x -> x <= v) /\
        (forall j x, (j < loc)%nat ->
                     nth_error amp (Z.to_nat a + j) = Some x -> x < v) /\
        col (peak_voltages s') k = Some v /\
        nth_error amp (Z.to_nat a + loc) = Some v /\
        col (peak_times s') k = Some (IZR 0 + (INR loc + 0.5) * IZR 2)) /\
    (forall k amp, col (amplitudes s') k = Some amp ->
      exists raw, nth_error exA_waveforms k = Some raw).
Proof.
  exact (peak_stage (fresh exA_config exA_waveforms) 9 exA_valid exA_rectangular eq_refl).
Defined.

(** [signal_time_peak_at_origin] on waveform 1 of the worked batch, whose
    peak is its first sample. *)
Lemma signal_time_peak_at_origin_witness :
  col (peak_locations exA_timed) 1 = Some 0%nat /\
  signal_time_row exA_config 10 0 exA_row1 = Some 0 /\
  col (signal_times exA_timed) 1 = Some 0.
Proof.
  split; [reflexivity|].
  apply (signal_time_peak_at_origin exA_peaks exA_timed 1 0%Z 0 10 exA_row1
           exA_signal_times);
    try reflexivity; lia.
Defined.

(** [signal_time_crossing] on waveform 0 of the worked batch: the peak 10 is
    at sample 2, sample 1 (amplitude 2) is below the threshold 4, and the
    chord through samples 1 and 2 meets the threshold at index 1.25. *)
Lemma signal_time_crossing_witness :
  let x := INR 1 + (peak_rise_time_fraction * 10 - 2) / (10 - 2) in
  col (signal_times exA_timed) 0 = Some (x * IZR 2 + 0) /\
  2 + (10 - 2) * (x - INR 1) = peak_rise_time_fraction * 10 /\
  INR 1 < x <= INR 1 + 1.
Proof.
  apply (signal_time_crossing exA_peaks exA_timed 0 5%Z 2 10 exA_row0 1 2 10
           exA_signal_times exA_timed_found);
    try reflexivity; try lia;
    unfold peak_rise_time_fraction; lra.
Defined.

(** [signal_time_no_crossing] on waveform 2 of the worked batch: the peak 10
    is at sample 2 and samples 0 and 1 (amplitudes 5 and 6) are not below the
    threshold 4; the signal time is that of sample 1. *)
Lemma signal_time_no_crossing_witness :
  col (signal_times exA_timed) 2 = Some ((INR 2 - 1) * IZR 2 + 0).
Proof.
  apply (signal_time_no_crossing exA_peaks exA_timed 2 5%Z 2 10 exA_row2
           exA_signal_times exA_timed_found);
    try reflexivity; try lia.
  intros [|[|m]] x Hm Hx; try lia; inversion Hx; subst x;
    unfold peak_rise_time_fraction; lra.
Defined.

(** [charge_stage] on waveform 0 of the worked batch: with [3 * sigma = 3]
    the region around the peak at sample 2 is samples 2 and 3. *)
Lemma charge_stage_witness :
  let below := map (fun x => Np.ltb x (3 * 1)) exA_row0 in
  let p := 2%nat in
  let start := region_start below p in
  let stop := region_stop below p in
  (p < stop <= length exA_row0)%nat /\
  ((stop < length exA_row0)%nat -> nth_error below stop = Some true) /\
  (forall j, (p < j < stop)%nat -> nth_error below j = Some false) /\
  (start <= p)%nat /\
  ((0 < start)%nat -> nth_error below (start - 1) = Some true) /\
  (forall j, (start <= j < p)%nat -> nth_error below j = Some false) /\
  charge_mask exA_row0 1 (Z.of_nat p) =
    map (fun i => (start <=? i)%nat && (i <? stop)%nat) (seq 0 (length exA_row0)) /\
  col (integrated_charges exA_charged) 0 =
    Some (Np.sum (skipn start (firstn stop exA_row0)) * IZR 2 / impedance).
Proof.
  apply (charge_stage exA_timed exA_charged 0 0%Z 5%Z exA_row0 1 2
           exA_charges exA_charged_found);
    try reflexivity; lia.
Defined.

(** [charge_region_contains_peak] on waveform 3 of the worked batch: its peak,
    -4 at sample 1, is below [3 * sigma = 3], and the charge still holds the
    peak sample's contribution. *)
Lemma charge_region_contains_peak_witness :
  -4 < 3 * 1 /\
  nth_error exA_row3 1 = Some (-4) /\
  nth_error (charge_mask exA_row3 1 1) 1 = Some true /\
  col (integrated_charges exA_charged) 3 =
    Some (-4 * IZR 2 / impedance
          + (Np.sum (skipn (region_start (map (fun x => Np.ltb x (3 * 1)) exA_row3) 1)
                           (firstn 1 exA_row3))
             + Np.sum (firstn (region_stop (map (fun x => Np.ltb x (3 * 1)) exA_row3) 1 - 2)
                              (skipn 2 exA_row3)))
            * IZR 2 / impedance).
Proof.
  split; [lra|].
  apply (charge_region_contains_peak exA_timed exA_charged 3 0%Z 5%Z exA_row3 1 (-4) 1
           exA_charges exA_charged_found);
    try reflexivity; lia.
Defined.

Lemma exA_row0_mask :
  charge_mask exA_row0 1 2 =
  [false; false; true; true; false; false; false; false; false].
Proof. np_eval. reflexivity. Qed.

(** [charge_scaling] on waveform 0 of the worked batch, whose region is the
    samples 2 and 3 (10 and 4, threshold 3).  With [c = 2] the region is kept
    and the charge doubled; with [c = 1/2] sample 3 falls to 2, leaves the
    region, and the charge is less than half the charge. *)
Lemma charge_scaling_witness :
  (charge_mask (scale_region 2 exA_row0 (charge_mask exA_row0 1 2)) 1 2
   = charge_mask exA_row0 1 2 /\
   charge_row exA_config (scale_region 2 exA_row0 (charge_mask exA_row0 1 2)) 1 2
   = 2 * (14 / 25)) /\
  (nth_error (charge_mask (scale_region (1/2) exA_row0 (charge_mask exA_row0 1 2)) 1 2) 3
   = Some false /\
   charge_row exA_config (scale_region (1/2) exA_row0 (charge_mask exA_row0 1 2)) 1 2
   < 1/2 * (14 / 25)).
Proof.
  split.
  - assert (U := charge_scaling exA_timed exA_charged 0 0%Z 5%Z exA_row0 1 (14/25) 2 2
                   exA_charges exA_charged_found eq_refl (Z.le_refl 0)
                   eq_refl eq_refl eq_refl eq_refl).
    destruct U as (_ & Up & _); [lra|]. apply Up; lra.
  - assert (D := charge_scaling exA_timed exA_charged 0 0%Z 5%Z exA_row0 1 (14/25) (1/2) 2
                   exA_charges exA_charged_found eq_refl (Z.le_refl 0)
                   eq_refl eq_refl eq_refl eq_refl).
    destruct D as (_ & _ & Down); [lra|].
    apply (Down ltac:(lra) ltac:(simpl; lia) 3%nat 4).
    + simpl. lia.
    + change (Z.of_nat 2 + 0)%Z with 2%Z. rewrite exA_row0_mask. reflexivity.
    + reflexivity.
    + lra.
Defined.

(** [run_analysis_deterministic] on the worked batch. *)
Lemma run_analysis_deterministic_witness :
  exists s1,
    run_analysis (fresh exA_config exA_waveforms) = Some s1 /\
    config s1 = exA_config /\ waveforms s1 = exA_waveforms /\
    run_analysis s1 = Some s1.
Proof.
  exact (run_analysis_deterministic exA_config exA_waveforms 9 exA_valid exA_rectangular).
Defined.

(** C1 as stated fails on waveform 3 of the worked batch.  Its peak, -4, is
    at sample 1; the threshold is [0.4 * -4 = -1.6]; sample 0 (amplitude -10)
    is below it.  The chord through samples 0 and 1 would meet the threshold
    at index 1.4, beyond sample 1; [np.interp] does not extrapolate and
    returns the position of sample 1: the signal time is [1 * 2 + 0 = 2], not
    [1.4 * 2 + 0 = 2.8]. *)
Lemma signal_time_crossing_counterexample :
  ~ (forall (s s' : WaveformAnalysis) (k : nat) (first_bin : Z) (loc : nat)
            (peak : R) (amp : list R) (j : nat) (a0 a1 : R),
        calculate_signal_times s = Some s' ->
        peaks_found s' ->
        Np.getitem (analysis_bins (config s')) 0 = Some first_bin ->
        col (peak_voltages s') k = Some peak ->
        col (peak_locations s') k = Some loc ->
        col (amplitudes s') k = Some amp ->
        (first_bin + Z.of_nat loc <> 0)%Z ->
        (Z.of_nat j < first_bin + Z.of_nat loc)%Z ->
        nth_error amp j = Some a0 ->
        nth_error amp (S j) = Some a1 ->
        a0 < peak_rise_time_fraction * peak ->
        (forall m x, (j < m)%nat -> (Z.of_nat m < first_bin + Z.of_nat loc)%Z ->
                     nth_error amp m = Some x -> peak_rise_time_fraction * peak <= x) ->
        col (signal_times s') k =
          Some ((INR j + (peak_rise_time_fraction * peak - a0) / (a1 - a0))
                * IZR (ns_per_sample (config s')) + time_offset (config s'))).
Proof.
  intros H.
  assert (C : col (signal_times exA_timed) 3 =
              Some ((INR 0 + (peak_rise_time_fraction * -4 - -10) / (-4 - -10))
                    * IZR 2 + 0)).
  { apply (H exA_peaks exA_timed 3%nat 0%Z 1%nat (-4) exA_row3 0%nat (-10) (-4)
             exA_signal_times exA_timed_found);
      try reflexivity; try lia.
    unfold peak_rise_time_fraction. lra. }
  cbv [col exA_timed exA_state signal_times bind nth_error] in C.
  inversion C as [E]. unfold peak_rise_time_fraction in E. cbn [INR] in E.
  replace (-4 - -10) with 6 in E by lra. lra.
Qed.

(** C2 as stated fails on waveform 2 of the worked batch.  Its peak, 10, is at
    sample 2; the threshold is 4; samples 0 and 1 (amplitudes 5 and 6) are not
    below it.  The signal time is that of sample 1, [1 * 2 + 0 = 2], not the
    time offset 0. *)
Lemma signal_time_no_crossing_counterexample :
  ~ (forall (s s' : WaveformAnalysis) (k : nat) (first_bin : Z) (loc : nat)
            (peak : R) (amp : list R),
        calculate_signal_times s = Some s' ->
        peaks_found s' ->
        Np.getitem (analysis_bins (config s')) 0 = Some first_bin ->
        col (peak_voltages s') k = Some peak ->
        col (peak_locations s') k = Some loc ->
        col (amplitudes s') k = Some amp ->
        (first_bin + Z.of_nat loc <> 0)%Z ->
        (forall m x, (Z.of_nat m < first_bin + Z.of_nat loc)%Z ->
                     nth_error amp m = Some x -> peak_rise_time_fraction * peak <= x) ->
        col (signal_times s') k = Some (time_offset (config s'))).
Proof.
  intros H.
  assert (C : col (signal_times exA_timed) 2 = Some 0).
  { apply (H exA_peaks exA_timed 2%nat 0%Z 2%nat 10 exA_row2
             exA_signal_times exA_timed_found);
      try reflexivity; try lia.
    intros [|[|m]] x Hm Hx; try lia; inversion Hx; subst x;
      unfold peak_rise_time_fraction; lra. }
  cbv [col exA_timed exA_state signal_times bind nth_error] in C.
  inversion C as [E]. lra.
Qed.

(** C5 as stated fails on waveform 0 of the worked batch with [c = 1/2].  Its
    region is samples 2 and 3 (amplitudes 10 and 4, [3 * sigma = 3]) and its
    charge is [14 * 2 / 50 = 14/25].  Halving the two samples gives 5 and 2;
    sample 3 is now below 3 and leaves the region, and the charge is
    [5 * 2 / 50 = 1/5], not [7/25]. *)
Lemma charge_scaling_counterexample :
  ~ (forall (s s' : WaveformAnalysis) (k : nat) (a b : Z) (amp : list R)
            (sigma q c : R) (loc : nat),
        integrate_charges s = Some s' ->
        peaks_found s' ->
        analysis_bins (config s') = Np.range a b -> (0 <= a)%Z ->
        col (amplitudes s') k = Some amp ->
        col (pedestal_sigmas s') k = Some sigma ->
        col (peak_locations s') k = Some loc ->
        col (integrated_charges s') k = Some q ->
        0 < c ->
        charge_row (config s')
                   (scale_region c amp (charge_mask amp sigma (Z.of_nat loc + a)))
                   sigma (Z.of_nat loc + a)
        = c * q).
Proof.
  intros H.
  assert (C : charge_row exA_config
                (scale_region (1/2) exA_row0 (charge_mask exA_row0 1 2)) 1 2
              = 1/2 * (14/25)).
  { apply (H exA_timed exA_charged 0%nat 0%Z 5%Z exA_row0 1 (14/25) (1/2) 2%nat
             exA_charges exA_charged_found);
      try reflexivity; try lia; lra. }
  rewrite exA_row0_mask in C.
  revert C. np_eval. lra.
Qed.

(** [signal_time_row_window_start] on a row analysed in the window
    [4, 14) ns: the peak 10 is at sample 4 (index 2 of the window), sample 3
    (amplitude 2) is below the threshold 4, and the loop body's value is
    [4 + 3 + 0.25]. *)
Lemma signal_time_row_window_start_witness :
  signal_time_row exB_config 10 2 exB_row =
  Some (IZR 4 + INR 3 + (peak_rise_time_fraction * 10 - 2) / (10 - 2)).
Proof.
  apply (signal_time_row_window_start exB_config 10 2 exB_row 2%Z 3 2 10);
    try reflexivity; try (simpl; lia);
    try (unfold peak_rise_time_fraction; lra).
Defined.

(** [charge_scaling_up] on waveform 0 of the worked batch with [c = 2]. *)
Lemma charge_scaling_up_witness :
  charge_mask (scale_region 2 exA_row0 (charge_mask exA_row0 1 2)) 1 2
  = charge_mask exA_row0 1 2 /\
  charge_row exA_config (scale_region 2 exA_row0 (charge_mask exA_row0 1 2)) 1 2
  = 2 * charge_row exA_config exA_row0 1 2.
Proof.
  apply (charge_scaling_up exA_config exA_row0 1 2 2); try (simpl; lia); lra.
Defined.

End Instances.

(** ** Further properties of the timing stage *)

Section TimingBounds.

(** [np.interp] between two positions in increasing order stays between
    them. *)
Lemma interp_between (x x0 x1 f0 f1 r : R) :
  f0 <= f1 -> Np.interp x [x0; x1] [f0; f1] = Some r -> f0 <= r <= f1.
Proof.
  intros Hf H. unfold Np.interp in H.
  destruct (Rlt_dec x1 x) as [A|A].
  { rewrite (ltb_true x1 x A) in H. inversion H. lra. }
  rewrite (ltb_false x1 x) in H by lra.
  destruct (Rlt_dec x x0) as [B|B].
  { rewrite (ltb_true x x0 B) in H. inversion H. lra. }
  rewrite (ltb_false x x0) in H by lra.
  destruct (Rlt_dec x x1) as [C|C].
  - rewrite (ltb_true x x1 C) in H.
    destruct (Req_dec_T x0 x) as [E|E].
    + rewrite (eqb_true x0 x E) in H. inversion H. lra.
    + rewrite (eqb_false x0 x E) in H. inversion H. subst r. clear H.
      assert (D : 0 < x1 - x0) by lra.
      assert (Q : 0 <= (x - x0) / (x1 - x0) <= 1).
      { split.
        - apply Rmult_le_reg_r with (x1 - x0); [lra|].
          unfold Rdiv. rewrite Rmult_assoc, Rinv_l by lra. lra.
        - apply Rmult_le_reg_r with (x1 - x0); [lra|].
          unfold Rdiv. rewrite Rmult_assoc, Rinv_l by lra. lra. }
      replace ((f1 - f0) / (x1 - x0) * (x - x0) + f0)
        with (f0 + (f1 - f0) * ((x - x0) / (x1 - x0))) by (field; lra).
      nra.
  - rewrite (ltb_false x x1) in H by lra. inversion H. lra.
Qed.

Lemma IZR_plus_nat (z : Z) (n : nat) : IZR (z + Z.of_nat n) = IZR z + INR n.
Proof. rewrite plus_IZR, <- INR_IZR_INZ. reflexivity. Qed.

(** The loop body's value is 0 for a peak at the start of the analysis
    window; otherwise it lies between the window start and the window start
    plus the full-waveform peak index. *)
Lemma signal_time_row_bounds (c : Config) (peak : R) (loc : nat) (amp : list R)
    (a b : Z) (t r : R) :
  find_peaks_row c amp = Some (loc, t, peak) ->
  analysis_bins c = Np.range a b -> (0 <= a)%Z ->
  signal_time_row c peak loc amp = Some r ->
  (loc = 0%nat /\ r = 0) \/
  (loc <> 0%nat /\
   IZR (fst (analysis_window c)) <= r
   <= IZR (fst (analysis_window c)) + INR (Z.to_nat a + loc)).
Proof.
  intros Hrow Ea Ha Hr.
  destruct (Nat.eq_dec loc 0) as [E|N].
  - left. subst loc. split; [reflexivity|].
    unfold signal_time_row in Hr. simpl in Hr. inversion Hr. reflexivity.
  - right. split; [exact N|].
    destruct (find_peaks_row_window _ _ _ _ _ a b Ea Ha Hrow)
      as (Hab & Hbl & Hlb & _ & _).
    set (L' := (Z.to_nat a + loc - 1)%nat).
    assert (HL : (L' < length amp)%nat) by (unfold L'; lia).
    destruct (argmax_bool_total
                (map (fun x => Np.ltb x (peak_rise_time_fraction * peak))
                     (Np.slice_down amp (Z.of_nat L')))) as [k [Hk Hlt]].
    { rewrite slice_down_nonneg by exact HL. intros E.
      apply (f_equal (@length bool)) in E.
      rewrite length_map, slice_down_length in E by exact HL. discriminate. }
    rewrite length_map, slice_down_nonneg, slice_down_length in Hlt by exact HL.
    rewrite (signal_time_row_scan c peak loc amp a L' k) in Hr; try assumption.
    + destruct (nth_error amp (L' - k)) as [x0|] eqn:E0;
        [|apply nth_error_None in E0; lia].
      destruct (nth_error amp (S (L' - k))) as [x1|] eqn:E1;
        [|apply nth_error_None in E1; lia].
      rewrite (slice_two amp (L' - k) x0 x1 E0 E1) in Hr.
      apply interp_between in Hr.
      * rewrite !IZR_plus_nat in Hr.
        assert (I0 : 0 <= INR (L' - k)) by apply pos_INR.
        assert (I1 : INR (S (L' - k)) <= INR (Z.to_nat a + loc))
          by (apply le_INR; unfold L'; lia).
        lra.
      * apply IZR_le. lia.
    + rewrite Ea. apply range_first. lia.
    + unfold L'. lia.
    + lia.
Qed.

(** Each waveform's stored peak, with its peak time. *)
Lemma peaks_found_lookup_time (s : WaveformAnalysis) (k : nat)
    (peak pt : R) (loc : nat) (amp : list R) :
  peaks_found s ->
  col (peak_voltages s) k = Some peak ->
  col (peak_locations s) k = Some loc ->
  col (peak_times s) k = Some pt ->
  col (amplitudes s) k = Some amp ->
  find_peaks_row (config s) amp = Some (loc, pt, peak).
Proof.
  intros (amps & rows & Ea & Hm & El & Et & Ev) Cv Cl Ct Ca.
  rewrite Ea in Ca. rewrite El, col_map in Cl. rewrite Ev, col_map in Cv.
  rewrite Et, col_map in Ct.
  unfold col in Ca. simpl in Ca.
  destruct (mapM_lookup _ _ _ k amp Hm Ca) as [[[loc' t] v] [Hrow Hk]].
  rewrite Hk in Cl, Cv, Ct. simpl in Cl, Cv, Ct.
  inversion Cl. inversion Cv. inversion Ct. subst. exact Hrow.
Qed.

(** X3.  Peak at the start of the analysis window.  The test [loc == 0] is
    made on the peak index inside the analysis window, before
    [analysis_bins[0]] is added: for every waveform whose peak is the first
    sample of the analysis window, wherever the window starts, the stored
    signal time is [time_offset]. *)
Theorem signal_time_peak_at_window_start (s s' : WaveformAnalysis) (k : nat)
    (peak : R) (amp : list R) :
  calculate_signal_times s = Some s' ->
  col (peak_voltages s') k = Some peak ->
  col (peak_locations s') k = Some 0%nat ->
  col (amplitudes s') k = Some amp ->
  col (signal_times s') k = Some (time_offset (config s')).
Proof.
  intros H Cv Cl Ca.
  destruct (calculate_signal_times_lookup _ _ k peak 0%nat amp H Cv Cl Ca) as [t [Ht Ct]].
  unfold signal_time_row in Ht. simpl in Ht. inversion Ht. subst t.
  rewrite Ct. f_equal. ring.
Qed.

(** X4.  Negative peak.  For a waveform whose peak is negative and not at the
    start of the analysis window, the threshold [0.4 * peak] lies above the
    peak: the sample before the peak is below it, [np.interp] is asked for a
    value above its right node and returns the right position.  The stored
    signal time is [(analysis_window[0] + p) * ns_per_sample + time_offset],
    with [p] the full-waveform peak index. *)
Theorem signal_time_negative_peak (s s' : WaveformAnalysis) (k : nat) (a b : Z)
    (loc : nat) (peak : R) (amp : list R) :
  calculate_signal_times s = Some s' ->
  peaks_found s' ->
  analysis_bins (config s') = Np.range a b -> (0 <= a)%Z ->
  col (peak_voltages s') k = Some peak ->
  col (peak_locations s') k = Some loc ->
  col (amplitudes s') k = Some amp ->
  loc <> 0%nat ->
  peak < 0 ->
  col (signal_times s') k =
    Some ((IZR (fst (analysis_window (config s'))) + INR (Z.to_nat a + loc))
          * IZR (ns_per_sample (config s')) + time_offset (config s')).
Proof.
  intros Hc Hf Hbins Ha Cv Cl Ca Hloc Hneg.
  destruct (peaks_found_lookup _ k peak loc amp Hf Cv Cl Ca) as [t Hrow].
  destruct (find_peaks_row_window _ _ _ _ _ a b Hbins Ha Hrow)
    as (Hab & Hb & Hlb & Hv & Hfirst).
  destruct (calculate_signal_times_lookup _ _ k peak loc amp Hc Cv Cl Ca) as [t' [Ht' Ct]].
  set (L' := (Z.to_nat a + loc - 1)%nat).
  assert (HL : (S L' < length amp)%nat) by (unfold L'; lia).
  destruct (nth_error amp L') as [a0|] eqn:Ea0;
    [|apply nth_error_None in Ea0; lia].
  assert (H0 : a0 < peak).
  { apply (Hfirst (loc - 1)%nat); [lia|].
    replace (Z.to_nat a + (loc - 1))%nat with L' by (unfold L'; lia). exact Ea0. }
  assert (Hthr : peak < peak_rise_time_fraction * peak)
    by (unfold peak_rise_time_fraction; lra).
  rewrite (signal_time_row_scan (config s') peak loc amp a L' 0) in Ht'.
  - replace (L' - 0)%nat with L' in Ht' by lia.
    rewrite (slice_two amp L' a0 peak) in Ht'.
    + rewrite interp_right in Ht' by lra.
      rewrite IZR_plus_nat in Ht'.
      replace (S L') with (Z.to_nat a + loc)%nat in Ht' by (unfold L'; lia).
      inversion Ht'. subst t'. exact Ct.
    + exact Ea0.
    + replace (S L') with (Z.to_nat a + loc)%nat by (unfold L'; lia). exact Hv.
  - exact Hloc.
  - rewrite Hbins. apply range_first. lia.
  - unfold L'. lia.
  - replace 0%nat with (L' - L')%nat by lia.
    apply scan_crossing with (a0 := a0); try lia; try assumption; try lra.
  - lia.
Qed.

(** X5.  Where the signal time can lie.  For every waveform whose peak is not
    at the start of the analysis window, the value that is scaled by
    [ns_per_sample] lies between [analysis_window[0]] and
    [analysis_window[0] + p], with [p] the full-waveform peak index: the
    crossing is never placed before the first sample or after the peak
    sample.  For a peak at the start of the window the value is 0. *)
Theorem signal_time_bounds (s s' : WaveformAnalysis) (k : nat) (a b : Z)
    (loc : nat) (peak : R) (amp : list R) (T : R) :
  calculate_signal_times s = Some s' ->
  peaks_found s' ->
  analysis_bins (config s') = Np.range a b -> (0 <= a)%Z ->
  col (peak_voltages s') k = Some peak ->
  col (peak_locations s') k = Some loc ->
  col (amplitudes s') k = Some amp ->
  col (signal_times s') k = Some T ->
  exists t,
    T = t * IZR (ns_per_sample (config s')) + time_offset (config s') /\
    (loc = 0%nat -> t = 0) /\
    (loc <> 0%nat ->
     IZR (fst (analysis_window (config s'))) <= t
     <= IZR (fst (analysis_window (config s'))) + INR (Z.to_nat a + loc)).
Proof.
  intros Hc Hf Hbins Ha Cv Cl Ca CT.
  destruct (peaks_found_lookup _ k peak loc amp Hf Cv Cl Ca) as [pt Hrow].
  destruct (calculate_signal_times_lookup _ _ k peak loc amp Hc Cv Cl Ca) as [t [Ht Ct]].
  rewrite Ct in CT. inversion CT. exists t. split; [reflexivity|].
  destruct (signal_time_row_bounds _ _ _ _ a b pt t Hrow Hbins Ha Ht) as [[E0 E1]|[N B]].
  - split; [intros _; exact E1 | intros N; contradiction].
  - split; [intros E; contradiction | intros _; exact B].
Qed.

(** X6.  The signal time precedes the peak time.  With an analysis window
    that starts at 0 and a positive sampling interval, for every waveform
    [0 <= signalTime - time_offset < peakTime]: the crossing lies at or before
    the peak sample, and the peak time is taken at the middle of that
    sample. *)
Theorem signal_time_before_peak_time (s s' : WaveformAnalysis) (k : nat) (b : Z)
    (loc : nat) (peak pt : R) (amp : list R) (T : R) :
  calculate_signal_times s = Some s' ->
  peaks_found s' ->
  fst (analysis_window (config s')) = 0%Z ->
  analysis_bins (config s') = Np.range 0 b ->
  (0 < ns_per_sample (config s'))%Z ->
  col (peak_voltages s') k = Some peak ->
  col (peak_locations s') k = Some loc ->
  col (peak_times s') k = Some pt ->
  col (amplitudes s') k = Some amp ->
  col (signal_times s') k = Some T ->
  0 <= T - time_offset (config s') < pt.
Proof.
  intros Hc Hf Haw Hbins Hn Cv Cl Cp Ca CT.
  pose proof (peaks_found_lookup_time _ k peak pt loc amp Hf Cv Cl Cp Ca) as Hrow.
  destruct (calculate_signal_times_lookup _ _ k peak loc amp Hc Cv Cl Ca) as [t [Ht Ct]].
  rewrite Ct in CT. inversion CT. subst T. clear CT.
  pose proof (find_peaks_row_inv _ _ _ _ _ Hrow) as (_ & _ & _ & _ & Ept).
  rewrite Haw in Ept.
  assert (N0 : 0 < IZR (ns_per_sample (config s'))) by (apply IZR_lt; exact Hn).
  assert (I0 : 0 <= INR loc) by apply pos_INR.
  destruct (signal_time_row_bounds _ _ _ _ 0%Z b pt t Hrow Hbins ltac:(lia) Ht)
    as [[E0 E1]|[N B]].
  - subst t pt. rewrite E0. simpl INR. split; nra.
  - rewrite Haw in B. simpl in B. subst pt. split; nra.
Qed.

End TimingBounds.

Section SecondBatch.

Lemma exC_find_peaks : find_peaks (fresh exC_config exC_waveforms) = Some exC_peaks.
Proof. np_eval. apply f_equal. f_equal; r_field. Qed.

Lemma exC_signal_times : calculate_signal_times exC_peaks = Some exC_timed.
Proof. np_eval. apply f_equal. f_equal; r_field. Qed.

Lemma exC_timed_found : peaks_found exC_timed.
Proof.
  apply (calculate_signal_times_found _ _ exC_signal_times).
  right. apply (find_peaks_found _ _ exC_find_peaks).
Qed.

(** [signal_time_peak_at_window_start] on waveform 0 of the second batch: the
    window starts at sample 2, the peak is its first sample, and the signal
    time is the time offset 3. *)
Lemma signal_time_peak_at_window_start_witness :
  Np.getitem (analysis_bins exC_config) 0 = Some 2%Z /\
  col (signal_times exC_timed) 0 = Some 3.
Proof.
  split; [reflexivity|].
  exact (signal_time_peak_at_window_start exC_peaks exC_timed 0 10 exC_row0
           exC_signal_times eq_refl eq_refl eq_refl).
Defined.

(** [signal_time_negative_peak] on waveform 3 of the worked batch: the peak
    -4 is at sample 1 and the signal time is that of sample 1. *)
Lemma signal_time_negative_peak_witness :
  col (signal_times exA_timed) 3 = Some ((IZR 0 + INR (0 + 1)) * IZR 2 + 0).
Proof.
  apply (signal_time_negative_peak exA_peaks exA_timed 3 0%Z 5%Z 1 (-4) exA_row3
           exA_signal_times exA_timed_found);
    try reflexivity; try lia; lra.
Defined.

(** [signal_time_bounds] on waveform 1 of the second batch: the window starts
    at 4 ns and the peak is at sample 4. *)
Lemma signal_time_bounds_witness :
  exists t,
    35 / 2 = t * IZR 2 + 3 /\
    (2%nat = 0%nat -> t = 0) /\
    (2%nat <> 0%nat -> IZR 4 <= t <= IZR 4 + INR (2 + 2)).
Proof.
  apply (signal_time_bounds exC_peaks exC_timed 1 2%Z 7%Z 2 10 exC_row1 (35/2)
           exC_signal_times exC_timed_found);
    try reflexivity; lia.
Defined.

(** [signal_time_before_peak_time] on waveform 0 of the worked batch: signal
    time 2.5 ns, peak time 5 ns. *)
Lemma signal_time_before_peak_time_witness :
  0 <= 5 / 2 - 0 < 5.
Proof.
  apply (signal_time_before_peak_time exA_peaks exA_timed 0 5%Z 2 10 5 exA_row0 (5/2)
           exA_signal_times exA_timed_found);
    try reflexivity; lia.
Defined.

End SecondBatch.

(** ** Further properties of the pedestal and charge stages *)

Section PedestalRemoved.

Lemma getitem_map {A B : Type} (f : A -> B) (l : list A) (k : Z) :
  Np.getitem (map f l) k = option_map f (Np.getitem l k).
Proof.
  unfold Np.getitem. rewrite length_map.
  destruct (0 <=? k)%Z; [apply nth_error_map|].
  destruct (- Z.of_nat (length l) <=? k)%Z; [apply nth_error_map | reflexivity].
Qed.

(** Selecting a window commutes with a samplewise operation. *)
Lemma take_map {A B : Type} (f : A -> B) (l : list A) (bins : list Z) :
  Np.take (map f l) bins = option_map (map f) (Np.take l bins).
Proof.
  unfold Np.take. induction bins as [|k t IH]; simpl; [reflexivity|].
  rewrite getitem_map. destruct (Np.getitem l k) as [x|]; simpl; [|reflexivity].
  rewrite IH. destruct (mapM (Np.getitem l) t); reflexivity.
Qed.

Lemma sum_map_affine (s m : R) (w : list R) :
  Np.sum (map (fun x => s * (x - m)) w) = s * (Np.sum w - INR (length w) * m).
Proof.
  induction w as [|x w IH].
  - unfold Np.sum. simpl. ring.
  - cbn [map]. rewrite !sum_cons, IH.
    change (length (x :: w)) with (S (length w)). rewrite S_INR. ring.
Qed.

(** The mean of a window shifted by its own mean, with either sign, is 0. *)
Lemma mean_centred (s : R) (w : list R) :
  w <> [] -> Np.mean (map (fun x => s * (x - Np.mean w)) w) = 0.
Proof.
  intros N. unfold Np.mean at 1. rewrite sum_map_affine, length_map.
  assert (L : INR (length w) <> 0).
  { apply not_0_INR. destruct w; [congruence | discriminate]. }
  unfold Np.mean. field. exact L.
Qed.

(** X7.  The pedestal is removed.  After [find_pedestals], for every
    waveform, the corrected amplitudes over the pedestal bins have mean 0,
    and their standard deviation is the stored pedestal sigma: the pedestal
    subtraction and the polarity flip change neither. *)
Theorem pedestal_removed (s s' : WaveformAnalysis) (k : nat) (amp : list R) (sigma : R) :
  find_pedestals s = Some s' ->
  col (amplitudes s') k = Some amp ->
  col (pedestal_sigmas s') k = Some sigma ->
  exists window,
    Np.take amp (pedestal_bins (config s')) = Some window /\
    window <> [] /\
    Np.mean window = 0 /\
    Np.std window = sigma.
Proof.
  intros H Ca Cs.
  pose proof (find_pedestals_rows _ _ H) as (Ec & _ & _ & rows & Hm & Ea & _ & Es).
  rewrite Ea, col_map in Ca. rewrite Es, col_map in Cs.
  destruct (nth_error rows k) as [[[amp' ped] sig]|] eqn:Er; [|discriminate].
  simpl in Ca, Cs. inversion Ca. inversion Cs. subst amp' sig. clear Ca Cs.
  destruct (mapM_lookup_inv _ _ _ k _ Hm Er) as [raw [_ Hrow]].
  apply find_pedestals_row_inv in Hrow.
  destruct Hrow as (w & T & N & Eamp & _ & Esig).
  set (m := Np.mean w) in *.
  set (h := fun y => polarity_sign (config s) * (y - m)).
  assert (Eh : amp = map h (map (fun x => IZR x * voltage_scale (config s)) raw))
    by (rewrite map_map; exact Eamp).
  exists (map h w). rewrite Ec.
  split; [rewrite Eh, take_map, T; reflexivity|].
  split; [destruct w; [congruence | discriminate]|].
  assert (M0 : Np.mean (map h w) = 0) by (apply mean_centred; exact N).
  split; [exact M0|].
  rewrite Esig. unfold Np.std. rewrite M0. fold m.
  rewrite map_map. do 2 f_equal. apply map_ext. intros x.
  unfold h, polarity_sign. destruct (reverse_polarity (config s)); ring.
Qed.

End PedestalRemoved.

Section ChargeBound.

Lemma sum_nonneg (l : list R) :
  (forall i x, nth_error l i = Some x -> 0 <= x) -> 0 <= Np.sum l.
Proof.
  induction l as [|a l IH]; intros H.
  - unfold Np.sum. simpl. lra.
  - rewrite sum_cons.
    assert (Ha : 0 <= a) by (apply (H 0%nat); reflexivity).
    assert (Hl : 0 <= Np.sum l) by (apply IH; intros i x Hx; apply (H (S i)); exact Hx).
    lra.
Qed.

(** X8.  A lower bound of the charge.  The pedestal sigma and the sampling
    interval not being negative, every sample of the integration region other
    than the peak is at least [3 * sigma >= 0], so the integrated charge is
    at least the peak sample's contribution [peak * ns_per_sample /
    impedance]; it is not negative when the peak is not. *)
Theorem charge_lower_bound (s s' : WaveformAnalysis) (k : nat) (a b : Z)
    (amp : list R) (sigma peak q : R) (loc : nat) :
  integrate_charges s = Some s' ->
  peaks_found s' ->
  analysis_bins (config s') = Np.range a b -> (0 <= a)%Z ->
  col (amplitudes s') k = Some amp ->
  col (pedestal_sigmas s') k = Some sigma ->
  col (peak_locations s') k = Some loc ->
  col (peak_voltages s') k = Some peak ->
  col (integrated_charges s') k = Some q ->
  0 <= sigma ->
  (0 <= ns_per_sample (config s'))%Z ->
  peak * IZR (ns_per_sample (config s')) / impedance <= q /\
  (0 <= peak -> 0 <= q).
Proof.
  intros Hc Hf Hbins Ha Ca Cs Cl Cv Cq Hs Hn.
  destruct (peaks_found_lookup _ k peak loc amp Hf Cv Cl Ca) as [t Hrow].
  destruct (find_peaks_row_window _ _ _ _ _ a b Hbins Ha Hrow)
    as (Hab & Hb & Hlb & Hv & _).
  set (p := (Z.to_nat a + loc)%nat) in *.
  set (below := map (fun x => Np.ltb x (3 * sigma)) amp).
  assert (Hlen : (p < length amp)%nat) by (unfold p; lia).
  assert (Lb : length below = length amp) by (unfold below; apply length_map).
  destruct (region_stop_spec below p ltac:(lia)) as (R1 & R2 & _).
  destruct (region_start_spec below p ltac:(lia)) as (L1 & L2 & _).
  assert (Above : forall j x, nth_error below j = Some false ->
                    nth_error amp j = Some x -> 0 <= x).
  { intros j x Hb0 Hx. unfold below in Hb0. rewrite nth_error_map, Hx in Hb0.
    simpl in Hb0. inversion Hb0 as [Hb1]. apply ltb_false_iff in Hb1. lra. }
  rewrite (integrate_charges_lookup s s' k amp sigma loc a Hc) in Cq; try assumption.
  2:{ rewrite Hbins. apply range_first. exact Hab. }
  inversion Cq as [Eq]. clear Cq.
  replace (Z.of_nat loc + a)%Z with (Z.of_nat p) by (unfold p; lia).
  rewrite (charge_row_region (config s') amp sigma p Hlen). fold below.
  rewrite (region_split amp _ _ p peak) by (try lia; exact Hv).
  rewrite sum_app, sum_cons.
  assert (SL : 0 <= Np.sum (skipn (region_start below p) (firstn p amp))).
  { apply sum_nonneg. intros i x Hx.
    rewrite nth_error_skipn, nth_error_firstn in Hx.
    destruct (Nat.ltb_spec (region_start below p + i) p); [|discriminate].
    apply (Above (region_start below p + i)%nat x); [apply L2; lia | exact Hx]. }
  assert (SR : 0 <= Np.sum (firstn (region_stop below p - S p) (skipn (S p) amp))).
  { apply sum_nonneg. intros i x Hx.
    rewrite nth_error_firstn, nth_error_skipn in Hx.
    destruct (Nat.ltb_spec i (region_stop below p - S p)); [|discriminate].
    apply (Above (S p + i)%nat x); [apply R2; lia | exact Hx]. }
  assert (N0 : 0 <= IZR (ns_per_sample (config s'))) by (apply IZR_le; exact Hn).
  unfold impedance. split; [nra | intros Hp; nra].
Qed.

End ChargeBound.

(** ** The assembled result of [run_analysis] *)

Section Assembled.

(** What [run_analysis] leaves in the instance, attribute by attribute. *)
Lemma run_analysis_rows (s s1 : WaveformAnalysis) :
  run_analysis s = Some s1 ->
  exists sa amps rows times sigmas first_bin,
    ensure_pedestals s = Some sa /\
    amplitudes sa = Some amps /\
    mapM (find_peaks_row (config sa)) amps = Some rows /\
    mapM (fun '(peak, loc, amp) => signal_time_row (config sa) peak loc amp)
         (zip3 (map snd rows) (map (fun r => fst (fst r)) rows) amps) = Some times /\
    pedestal_sigmas sa = Some sigmas /\
    Np.getitem (analysis_bins (config sa)) 0 = Some first_bin /\
    config s1 = config sa /\ waveforms s1 = waveforms sa /\
    amplitudes s1 = Some amps /\
    pedestals s1 = pedestals sa /\
    pedestal_sigmas s1 = Some sigmas /\
    peak_locations s1 = Some (map (fun r => fst (fst r)) rows) /\
    peak_times s1 = Some (map (fun r => snd (fst r)) rows) /\
    peak_voltages s1 = Some (map snd rows) /\
    signal_times s1 =
      Some (map (fun t => t * IZR (ns_per_sample (config sa)) + time_offset (config sa))
                times) /\
    integrated_charges s1 =
      Some (map (fun '(amp, sigma, p) => charge_row (config sa) amp sigma p)
                (zip3 amps sigmas
                      (map (fun loc => (Z.of_nat loc + first_bin)%Z)
                           (map (fun r => fst (fst r)) rows)))) /\
    is_over_threshold s1 =
      Some (map (fun v => Np.gtb v (threshold (config sa))) (map snd rows)).
Proof.
  unfold run_analysis. intros H.
  apply bind_Some in H. destruct H as [sb [Hb H]].
  apply bind_Some in H. destruct H as [sc [Hc H]].
  apply bind_Some in H. destruct H as [sd [Hd H]].
  apply bind_Some in H. destruct H as [voltages [Hv H]].
  pose proof (find_peaks_sets_locations _ _ Hb) as Eb.
  unfold find_peaks in Hb.
  apply bind_Some in Hb. destruct Hb as [sa [Ha Hb]].
  apply bind_Some in Hb. destruct Hb as [amps [Hamps Hb]].
  apply bind_Some in Hb. destruct Hb as [rows [Hrows Hb]].
  inversion Hb. subst sb. clear Hb.
  unfold calculate_signal_times in Hc. rewrite Eb in Hc. cbn [bind] in Hc.
  cbn in Hc. rewrite ?Hamps in Hc. cbn [bind] in Hc.
  apply bind_Some in Hc. destruct Hc as [times [Htimes Hc]].
  inversion Hc. subst sc. clear Hc.
  unfold integrate_charges, ensure_peaks in Hd.
  cbn in Hd. rewrite ?Hamps in Hd. cbn [bind] in Hd.
  apply bind_Some in Hd. destruct Hd as [sigmas [Hsig Hd]].
  apply bind_Some in Hd. destruct Hd as [first_bin [Hfb Hd]].
  inversion Hd. subst sd. clear Hd.
  cbn in Hv. inversion Hv. subst voltages. clear Hv.
  inversion H. clear H. cbn.
  exists sa, amps, rows, times, sigmas, first_bin.
  repeat split; try assumption; try reflexivity.
Qed.

(** X9.  The threshold flag.  After [run_analysis], a waveform is flagged
    over threshold exactly when some corrected sample of its analysis window
    is strictly above the configured threshold. *)
Theorem over_threshold_iff (s s' : WaveformAnalysis) (k : nat) (a b : Z) (amp : list R) :
  run_analysis s = Some s' ->
  analysis_bins (config s') = Np.range a b -> (0 <= a)%Z ->
  col (amplitudes s') k = Some amp ->
  exists over,
    col (is_over_threshold s') k = Some over /\
    (over = true <->
     exists j x, (j < Z.to_nat (b - a))%nat /\
                 nth_error amp (Z.to_nat a + j) = Some x /\
                 threshold (config s') < x).
Proof.
  intros H Hbins Ha Ca.
  pose proof (run_analysis_rows _ _ H)
    as (sa & amps & rows & times & sigmas & fb & _ & _ & Hm & _ & _ & _ &
        Ec & _ & Ea & _ & _ & _ & _ & _ & _ & _ & Eo).
  rewrite Ea in Ca. unfold col in Ca. simpl in Ca.
  destruct (mapM_lookup _ _ _ k amp Hm Ca) as [[[loc t] v] [Hrow Hk]].
  rewrite <- Ec in Hrow, Eo.
  exists (Np.gtb v (threshold (config s'))). split.
  - rewrite Eo, map_map, col_map, Hk. reflexivity.
  - destruct (find_peaks_row_window _ _ _ _ _ a b Hbins Ha Hrow)
      as (Hab & Hb & Hlb & Hv & _).
    destruct (find_peaks_row_range _ amp loc t v a b Hbins Ha ltac:(lia) Hb Hrow)
      as (_ & _ & Hmax & _).
    unfold Np.gtb. rewrite ltb_true_iff. split.
    + intros Hgt. exists loc, v. auto.
    + intros (j & x & Hj & Hx & Hgt).
      pose proof (Hmax j x Hj Hx). lra.
Qed.

Lemma zip3_length {A B C : Type} (l : list A) (m : list B) (n : list C) :
  length l = length m -> length l = length n -> length (zip3 l m n) = length l.
Proof.
  revert m n. induction l as [|a l IH]; intros [|b m] [|c n] H1 H2;
    simpl in *; try discriminate; try reflexivity.
  f_equal. apply IH; lia.
Qed.

(** X10.  One entry per waveform.  After [run_analysis] on an instance whose
    amplitudes were not set before, every per-waveform attribute has exactly
    as many entries as the batch has waveforms, and every row of corrected
    amplitudes is as long as its raw waveform. *)
Theorem run_analysis_columns (s s' : WaveformAnalysis) :
  amplitudes s = None ->
  run_analysis s = Some s' ->
  let N := length (waveforms s) in
  col_length (amplitudes s') N /\
  col_length (pedestals s') N /\
  col_length (pedestal_sigmas s') N /\
  col_length (peak_locations s') N /\
  col_length (peak_times s') N /\
  col_length (peak_voltages s') N /\
  col_length (signal_times s') N /\
  col_length (integrated_charges s') N /\
  col_length (is_over_threshold s') N /\
  (forall k raw amp, nth_error (waveforms s) k = Some raw ->
                     col (amplitudes s') k = Some amp ->
                     length amp = length raw).
Proof.
  intros F H N.
  pose proof (run_analysis_rows _ _ H)
    as (sa & amps & rows & times & sigmas & fb & Hsa & Eamps & Hm & Ht & Esig & _ &
        _ & _ & Ea & Ep & Es & El & Etm & Ev & Est & Eq & Eo).
  rewrite (ensure_pedestals_fresh s F) in Hsa.
  pose proof (find_pedestals_rows _ _ Hsa) as (_ & _ & _ & prows & Hpm & Epa & Epp & Eps).
  assert (Lp : length prows = N) by apply (mapM_length _ _ _ Hpm).
  assert (La : length amps = N).
  { rewrite Epa in Eamps. inversion Eamps. rewrite length_map. exact Lp. }
  assert (Ls : length sigmas = N).
  { rewrite Eps in Esig. inversion Esig. rewrite length_map. exact Lp. }
  assert (Lr : length rows = N) by (rewrite (mapM_length _ _ _ Hm); exact La).
  assert (Lt : length times = N).
  { rewrite (mapM_length _ _ _ Ht), zip3_length; rewrite ?length_map; lia. }
  unfold col_length.
  split; [exists amps; auto|].
  split; [rewrite Ep, Epp; eexists; split; [reflexivity | rewrite length_map; exact Lp]|].
  split; [exists sigmas; auto|].
  split; [rewrite El; eexists; split; [reflexivity | rewrite length_map; exact Lr]|].
  split; [rewrite Etm; eexists; split; [reflexivity | rewrite length_map; exact Lr]|].
  split; [rewrite Ev; eexists; split; [reflexivity | rewrite length_map; exact Lr]|].
  split; [rewrite Est; eexists; split; [reflexivity | rewrite length_map; exact Lt]|].
  split.
  { rewrite Eq. eexists. split; [reflexivity|].
    rewrite length_map, zip3_length; rewrite ?length_map; lia. }
  split; [rewrite Eo; eexists; split; [reflexivity | rewrite !length_map; exact Lr]|].
  intros k raw amp Hraw Ca.
  rewrite Ea in Ca. rewrite Epa in Eamps. inversion Eamps as [E]. subst amps.
  unfold col in Ca. simpl in Ca. rewrite nth_error_map in Ca.
  destruct (mapM_lookup _ _ _ k raw Hpm Hraw) as [[[amp' ped] sig] [Hrow Hk]].
  rewrite Hk in Ca. simpl in Ca. inversion Ca. subst amp'.
  apply (find_pedestals_row_length _ _ _ _ _ Hrow).
Qed.

(** X11.  Timing and charge in either order.  [calculate_signal_times]
    followed by [integrate_charges] and [integrate_charges] followed by
    [calculate_signal_times] give the same instance on every instance, and
    fail on the same ones: neither stage reads what the other writes. *)
Theorem timing_charge_commute (s : WaveformAnalysis) :
  (s1 <- calculate_signal_times s ;; integrate_charges s1) =
  (s1 <- integrate_charges s ;; calculate_signal_times s1).
Proof.
  rewrite (calculate_signal_times_lazy s), (integrate_charges_lazy s).
  destruct (ensure_peaks s) as [sp|] eqn:E; cbn [bind]; [|reflexivity].
  pose proof (ensure_peaks_idem _ _ E) as Ei.
  unfold calculate_signal_times at 1. unfold integrate_charges at 2.
  rewrite Ei. cbn [bind].
  assert (El : exists ls, peak_locations sp = Some ls).
  { unfold ensure_peaks in Ei. destruct (peak_locations sp) as [ls|] eqn:El.
    - exists ls. reflexivity.
    - apply find_peaks_sets_locations in Ei. unfold ensure_peaks in Ei.
      rewrite El in Ei. apply find_peaks_rows in Ei.
      destruct Ei as (? & ? & ? & ? & ? & ? & ? & ? & ? & ? & ? & El' & _).
      congruence. }
  destruct El as [ls El].
  unfold integrate_charges, calculate_signal_times, ensure_peaks.
  destruct (peak_voltages sp) as [vs|] eqn:Ev;
    destruct (amplitudes sp) as [amps|] eqn:Ea;
    destruct (pedestal_sigmas sp) as [sg|] eqn:Es;
    destruct (Np.getitem (analysis_bins (config sp)) 0) as [fb|] eqn:Ef;
    rewrite ?El; cbn -[Np.getitem]; rewrite ?El, ?Ev, ?Ea, ?Es, ?Ef; cbn -[Np.getitem];
    try reflexivity;
    destruct (mapM (fun '(peak, loc, amp) => signal_time_row (config sp) peak loc amp)
                   (zip3 vs ls amps)) as [times|] eqn:Em;
    cbn -[Np.getitem]; rewrite ?El, ?Ev, ?Ea, ?Es, ?Ef; cbn -[Np.getitem];
    rewrite ?Em; cbn -[Np.getitem]; rewrite ?Ef; reflexivity.
Qed.

End Assembled.

(** ** Windows that do not fit the waveforms *)

Section WindowErrors.

Lemma mapM_None {A B : Type} (f : A -> option B) (l : list A) (a : A) :
  In a l -> f a = None -> mapM f l = None.
Proof.
  induction l as [|x t IH]; simpl; intros Hin Hf; [contradiction|].
  destruct Hin as [E|Hin].
  - subst x. rewrite Hf. reflexivity.
  - destruct (f x); [|reflexivity]. simpl. rewrite (IH Hin Hf). reflexivity.
Qed.

Lemma getitem_out_of_range {A : Type} (l : list A) (k : Z) :
  (k < - Z.of_nat (length l) \/ Z.of_nat (length l) <= k)%Z ->
  Np.getitem l k = None.
Proof.
  intros H. unfold Np.getitem.
  destruct (Z.leb_spec 0 k).
  - apply nth_error_None. lia.
  - destruct (Z.leb_spec (- Z.of_nat (length l)) k); [lia | reflexivity].
Qed.

(** The later stages fail when an earlier stage that they run fails. *)
Lemma stages_fail_with_find_peaks (s : WaveformAnalysis) :
  find_peaks s = None ->
  run_analysis s = None /\
  (peak_locations s = None ->
   calculate_signal_times s = None /\ integrate_charges s = None).
Proof.
  intros H. split.
  - unfold run_analysis. rewrite H. reflexivity.
  - intros N. unfold calculate_signal_times, integrate_charges, ensure_peaks.
    rewrite N, H. split; reflexivity.
Qed.

(** X12.  A pedestal window past the end of the waveform.  [__init__] accepts
    any window; when some pedestal bin is not an index of some waveform
    (below [-M] or at least [M] for a waveform of [M] samples),
    [find_pedestals] fails with the IndexError of the fancy indexing, and so
    does every stage that has to run it: [find_peaks] and [run_analysis] on an
    instance without amplitudes, [calculate_signal_times] and
    [integrate_charges] on one without peaks either. *)
Theorem pedestal_window_out_of_range (s : WaveformAnalysis) (raw : list Z) (k : Z) :
  In raw (waveforms s) ->
  In k (pedestal_bins (config s)) ->
  (k < - Z.of_nat (length raw) \/ Z.of_nat (length raw) <= k)%Z ->
  find_pedestals s = None /\
  (amplitudes s = None ->
   find_peaks s = None /\ run_analysis s = None /\
   (peak_locations s = None ->
    calculate_signal_times s = None /\ integrate_charges s = None)).
Proof.
  intros Hraw Hk Hout.
  assert (P : find_pedestals s = None).
  { unfold find_pedestals.
    rewrite (mapM_None (find_pedestals_row (config s)) (waveforms s) raw Hraw);
      [reflexivity|].
    unfold find_pedestals_row, Np.take.
    rewrite (mapM_None _ (pedestal_bins (config s)) k Hk); [reflexivity|].
    apply getitem_out_of_range. rewrite length_map. exact Hout. }
  split; [exact P|]. intros F.
  assert (Q : find_peaks s = None).
  { unfold find_peaks. rewrite (ensure_pedestals_fresh s F), P. reflexivity. }
  split; [exact Q|]. apply (stages_fail_with_find_peaks s Q).
Qed.

(** X13.  An empty analysis window.  When the analysis window resolves to no
    sample index and the batch has a waveform, [find_peaks] on an instance
    without amplitudes fails (the ValueError of [argmax] on an empty row, if
    not an earlier error of [find_pedestals]), and so do [run_analysis] and,
    on an instance without peaks, [calculate_signal_times] and
    [integrate_charges]. *)
Theorem empty_analysis_window (s : WaveformAnalysis) :
  analysis_bins (config s) = [] ->
  waveforms s <> [] ->
  amplitudes s = None ->
  find_peaks s = None /\ run_analysis s = None /\
  (peak_locations s = None ->
   calculate_signal_times s = None /\ integrate_charges s = None).
Proof.
  intros Hbins Hw F.
  assert (Q : find_peaks s = None).
  { unfold find_peaks. rewrite (ensure_pedestals_fresh s F).
    destruct (find_pedestals s) as [sa|] eqn:P; [|reflexivity]. cbn [bind].
    pose proof (find_pedestals_rows _ _ P) as (Ec & _ & _ & rows & Hm & Ea & _).
    rewrite Ea. cbn [bind].
    destruct (waveforms s) as [|raw w] eqn:Ew; [congruence|].
    destruct rows as [|r rows].
    { apply mapM_length in Hm. discriminate. }
    cbn [map mapM]. unfold find_peaks_row at 1.
    rewrite Ec, Hbins. reflexivity. }
  split; [exact Q|]. apply (stages_fail_with_find_peaks s Q).
Qed.

End WindowErrors.

Section MoreInstances.

Lemma exA_find_pedestals :
  find_pedestals (fresh exA_config exA_waveforms) = Some exA_pedestals.
Proof. np_eval. apply f_equal. f_equal; r_field. Qed.

(** [pedestal_removed] on waveform 0 of the worked batch. *)
Lemma pedestal_removed_witness :
  exists window,
    Np.take exA_row0 (Np.range 5 9) = Some window /\
    window <> [] /\
    Np.mean window = 0 /\
    Np.std window = 1.
Proof.
  exact (pedestal_removed (fresh exA_config exA_waveforms) exA_pedestals 0 exA_row0 1
           exA_find_pedestals eq_refl eq_refl).
Defined.

(** [charge_lower_bound] on waveform 0 of the worked batch: the charge 14/25
    is at least the peak's contribution [10 * 2 / 50]. *)
Lemma charge_lower_bound_witness :
  10 * IZR 2 / impedance <= 14 / 25 /\ (0 <= 10 -> 0 <= 14 / 25).
Proof.
  apply (charge_lower_bound exA_timed exA_charged 0 0%Z 5%Z exA_row0 1 10 (14/25) 2
           exA_charges exA_charged_found);
    try reflexivity; try lia; try lra.
  simpl. lia.
Defined.

(** [over_threshold_iff] on waveform 3 of the worked batch, whose samples are
    all below the threshold 0.01. *)
Lemma over_threshold_iff_witness :
  exists over,
    col (is_over_threshold exA_final) 3 = Some over /\
    (over = true <->
     exists j x, (j < Z.to_nat (5 - 0))%nat /\
                 nth_error exA_row3 (Z.to_nat 0 + j) = Some x /\
                 0.01 < x).
Proof.
  apply (over_threshold_iff (fresh exA_config exA_waveforms) exA_final 3 0%Z 5%Z exA_row3
           exA_run);
    try reflexivity; lia.
Defined.

(** [run_analysis_columns] on the worked batch: four entries everywhere. *)
Lemma run_analysis_columns_witness :
  col_length (amplitudes exA_final) 4 /\
  col_length (pedestals exA_final) 4 /\
  col_length (pedestal_sigmas exA_final) 4 /\
  col_length (peak_locations exA_final) 4 /\
  col_length (peak_times exA_final) 4 /\
  col_length (peak_voltages exA_final) 4 /\
  col_length (signal_times exA_final) 4 /\
  col_length (integrated_charges exA_final) 4 /\
  col_length (is_over_threshold exA_final) 4 /\
  (forall k raw amp, nth_error exA_waveforms k = Some raw ->
                     col (amplitudes exA_final) k = Some amp ->
                     length amp = length raw).
Proof.
  exact (run_analysis_columns (fresh exA_config exA_waveforms) exA_final eq_refl exA_run).
Defined.

(** [pedestal_window_out_of_range] on the worked batch with the pedestal
    window [10, 24) ns: bin 9 is past the nine samples of waveform 0. *)
Lemma pedestal_window_out_of_range_witness :
  find_pedestals (fresh exD_config exA_waveforms) = None /\
  (@None (list (list R)) = None ->
   find_peaks (fresh exD_config exA_waveforms) = None /\
   run_analysis (fresh exD_config exA_waveforms) = None /\
   (@None (list nat) = None ->
    calculate_signal_times (fresh exD_config exA_waveforms) = None /\
    integrate_charges (fresh exD_config exA_waveforms) = None)).
Proof.
  apply (pedestal_window_out_of_range (fresh exD_config exA_waveforms)
           [0; -2; -10; -4; 0; 1; -1; 1; -1]%Z 9%Z).
  - left. reflexivity.
  - simpl. tauto.
  - simpl. lia.
Defined.

(** [empty_analysis_window] on the worked batch with the analysis window
    [10, 10) ns. *)
Lemma empty_analysis_window_witness :
  find_peaks (fresh exE_config exA_waveforms) = None /\
  run_analysis (fresh exE_config exA_waveforms) = None /\
  (@None (list nat) = None ->
   calculate_signal_times (fresh exE_config exA_waveforms) = None /\
   integrate_charges (fresh exE_config exA_waveforms) = None).
Proof.
  apply (empty_analysis_window (fresh exE_config exA_waveforms)).
  - reflexivity.
  - discriminate.
  - reflexivity.
Defined.

End MoreInstances.

(** ** Stages under a change of configuration or of input

    When the row computations of the changed configuration [c'] on the
    changed rows are those of the configuration [c] on the rows, attribute by
    attribute through the given maps, every stage commutes with the change:
    running the stage on the changed instance is changing the instance the
    stage returns (and fails when the stage fails). *)

Section Equivariance.

Variables (c c' : Config) (h : list Z -> list Z) (fa : list R -> list R).
Variables (fp fs fv ft fq : R -> R).

Hypothesis Hped : forall raw,
  find_pedestals_row c' (h raw) =
  option_map (fun r => (fa (fst (fst r)), fp (snd (fst r)), fs (snd r)))
             (find_pedestals_row c raw).
Hypothesis Hpeak : forall amp,
  find_peaks_row c' (fa amp) =
  option_map (fun r => (fst (fst r), snd (fst r), fv (snd r))) (find_peaks_row c amp).
Hypothesis Htime : forall peak loc amp,
  signal_time_row c' (fv peak) loc (fa amp) = signal_time_row c peak loc amp.
Hypothesis Hscale : forall t,
  t * IZR (ns_per_sample c') + time_offset c' =
  ft (t * IZR (ns_per_sample c) + time_offset c).
Hypothesis Hcharge : forall amp sigma p,
  charge_row c' (fa amp) (fs sigma) p = fq (charge_row c amp sigma p).
Hypothesis Hbins : analysis_bins c' = analysis_bins c.

Let T := transform c' h fa fp fs fv ft fq.

Lemma mapM_option_map {A B C : Type} (f : A -> option B) (F : B -> C) (l : list A) :
  mapM (fun a => option_map F (f a)) l = option_map (map F) (mapM f l).
Proof.
  induction l as [|a l IH]; simpl; [reflexivity|].
  destruct (f a) as [b|]; simpl; [|reflexivity].
  rewrite IH. destruct (mapM f l); reflexivity.
Qed.

Lemma mapM_map_in {A A' B : Type} (k : A -> A') (f : A' -> option B) (l : list A) :
  mapM f (map k l) = mapM (fun a => f (k a)) l.
Proof.
  induction l as [|a l IH]; simpl; [reflexivity|].
  rewrite IH. reflexivity.
Qed.

Lemma zip3_map {A B C A' B' C' : Type} (f : A -> A') (g : B -> B') (k : C -> C')
    (l : list A) (m : list B) (n : list C) :
  zip3 (map f l) (map g m) (map k n) =
  map (fun x => (f (fst (fst x)), g (snd (fst x)), k (snd x))) (zip3 l m n).
Proof.
  revert m n. induction l as [|a l IH]; intros [|b m] [|d n]; simpl; try reflexivity.
  rewrite IH. reflexivity.
Qed.

Lemma transform_find_pedestals (s : WaveformAnalysis) :
  config s = c -> find_pedestals (T s) = option_map T (find_pedestals s).
Proof.
  intros Ec. unfold find_pedestals. cbn [config waveforms T transform].
  rewrite Ec, mapM_map_in.
  rewrite (mapM_ext _ (fun raw => option_map
             (fun r => (fa (fst (fst r)), fp (snd (fst r)), fs (snd r)))
             (find_pedestals_row c raw))) by (intros raw _; apply Hped).
  rewrite mapM_option_map.
  destruct (mapM (find_pedestals_row c) (waveforms s)) as [rows|]; [|reflexivity].
  cbn. unfold T, transform. cbn. rewrite !map_map. reflexivity.
Qed.

Lemma transform_ensure_pedestals (s : WaveformAnalysis) :
  config s = c -> ensure_pedestals (T s) = option_map T (ensure_pedestals s).
Proof.
  intros Ec. unfold ensure_pedestals. cbn [amplitudes T transform].
  destruct (amplitudes s); [reflexivity|].
  apply transform_find_pedestals. exact Ec.
Qed.

Lemma transform_find_peaks (s : WaveformAnalysis) :
  config s = c -> find_peaks (T s) = option_map T (find_peaks s).
Proof.
  intros Ec. unfold find_peaks. rewrite (transform_ensure_pedestals s Ec).
  destruct (ensure_pedestals s) as [sa|] eqn:Ea; [|reflexivity].
  cbn [option_map bind].
  assert (Eca : config sa = c)
    by (destruct (ensure_pedestals_frame _ _ Ea) as [E _]; congruence).
  cbn [amplitudes config T transform]. rewrite Eca.
  destruct (amplitudes sa) as [amps|]; [|reflexivity]. cbn [option_map bind].
  rewrite mapM_map_in.
  rewrite (mapM_ext _ (fun amp => option_map
             (fun r => (fst (fst r), snd (fst r), fv (snd r)))
             (find_peaks_row c amp))) by (intros amp _; apply Hpeak).
  rewrite mapM_option_map.
  destruct (mapM (find_peaks_row c) amps) as [rows|]; [|reflexivity].
  cbn. unfold T, transform. cbn. rewrite !map_map. reflexivity.
Qed.

Lemma transform_ensure_peaks (s : WaveformAnalysis) :
  config s = c -> ensure_peaks (T s) = option_map T (ensure_peaks s).
Proof.
  intros Ec. unfold ensure_peaks. cbn [peak_locations T transform].
  destruct (peak_locations s); [reflexivity|].
  apply transform_find_peaks. exact Ec.
Qed.

Lemma ensure_peaks_frame (s sp : WaveformAnalysis) :
  ensure_peaks s = Some sp -> config sp = config s.
Proof.
  unfold ensure_peaks. destruct (peak_locations s); intros H.
  - inversion H. reflexivity.
  - pose proof (find_peaks_rows _ _ H) as (sa & ? & ? & Ea & _ & _ & Ecs & _).
    destruct (ensure_pedestals_frame _ _ Ea) as [E _]. congruence.
Qed.

Lemma transform_calculate_signal_times (s : WaveformAnalysis) :
  config s = c ->
  calculate_signal_times (T s) = option_map T (calculate_signal_times s).
Proof.
  intros Ec. unfold calculate_signal_times. rewrite (transform_ensure_peaks s Ec).
  destruct (ensure_peaks s) as [sp|] eqn:Ep; [|reflexivity].
  cbn [option_map bind].
  assert (Ecp : config sp = c) by (rewrite (ensure_peaks_frame _ _ Ep); exact Ec).
  cbn [peak_voltages peak_locations amplitudes config T transform]. rewrite Ecp.
  destruct (peak_voltages sp) as [vs|]; [|reflexivity]. cbn [option_map bind].
  destruct (peak_locations sp) as [ls|]; [|reflexivity]. cbn [option_map bind].
  destruct (amplitudes sp) as [amps|]; [|reflexivity]. cbn [option_map bind].
  rewrite <- (map_id ls) at 1. rewrite zip3_map, mapM_map_in.
  rewrite (mapM_ext _ (fun '(peak, loc, amp) => signal_time_row c peak loc amp)).
  2:{ intros [[peak loc] amp] _. cbn. apply Htime. }
  destruct (mapM (fun '(peak, loc, amp) => signal_time_row c peak loc amp)
                 (zip3 vs ls amps)) as [times|]; [|reflexivity].
  cbn. unfold T, transform. cbn. rewrite map_map.
  do 2 f_equal. f_equal. apply map_ext. intros t. apply Hscale.
Qed.

Lemma transform_integrate_charges (s : WaveformAnalysis) :
  config s = c ->
  integrate_charges (T s) = option_map T (integrate_charges s).
Proof.
  intros Ec. unfold integrate_charges. rewrite (transform_ensure_peaks s Ec).
  destruct (ensure_peaks s) as [sp|] eqn:Ep; [|reflexivity].
  cbn [option_map bind].
  assert (Ecp : config sp = c) by (rewrite (ensure_peaks_frame _ _ Ep); exact Ec).
  cbn [pedestal_sigmas peak_locations amplitudes config T transform].
  rewrite Ecp, Hbins.
  destruct (amplitudes sp) as [amps|]; [|reflexivity]. cbn [option_map bind].
  destruct (pedestal_sigmas sp) as [sg|]; [|reflexivity]. cbn [option_map bind].
  destruct (peak_locations sp) as [ls|]; [|reflexivity]. cbn [option_map bind].
  destruct (Np.getitem (analysis_bins c) 0) as [fb|]; [|reflexivity].
  cbn [option_map bind]. unfold T, transform. cbn -[Np.getitem].
  do 2 f_equal. f_equal.
  rewrite <- (map_id (map (fun loc => (Z.of_nat loc + fb)%Z) ls)) at 1.
  rewrite zip3_map, !map_map. apply map_ext.
  intros [[amp sigma] p]. cbn. apply Hcharge.
Qed.

(** With the threshold flags kept as well, [run_analysis] commutes too. *)
Lemma transform_run_analysis (s : WaveformAnalysis) :
  (forall v, Np.gtb (fv v) (threshold c') = Np.gtb v (threshold c)) ->
  config s = c ->
  run_analysis (T s) = option_map T (run_analysis s).
Proof.
  intros Hover Ec. unfold run_analysis.
  rewrite (transform_find_peaks s Ec).
  destruct (find_peaks s) as [sb|] eqn:Eb; [|reflexivity]. cbn [option_map bind].
  assert (Ecb : config sb = c).
  { pose proof (find_peaks_rows _ _ Eb) as (sa & ? & ? & Ea & _ & _ & Ecs & _).
    destruct (ensure_pedestals_frame _ _ Ea) as [E _]. congruence. }
  rewrite (transform_calculate_signal_times sb Ecb).
  destruct (calculate_signal_times sb) as [sc|] eqn:Esc; [|reflexivity].
  cbn [option_map bind].
  assert (Ecc : config sc = c).
  { pose proof (calculate_signal_times_rows _ _ Esc)
      as (sp & ? & ? & ? & ? & Hsp & _ & _ & _ & _ & E & _).
    rewrite E, (ensure_peaks_frame _ _ Hsp). exact Ecb. }
  rewrite (transform_integrate_charges sc Ecc).
  destruct (integrate_charges sc) as [sd|] eqn:Esd; [|reflexivity].
  cbn [option_map bind].
  assert (Ecd : config sd = c).
  { pose proof (integrate_charges_rows _ _ Esd)
      as (sp & ? & ? & ? & ? & Hsp & _ & _ & _ & _ & E & _).
    rewrite E, (ensure_peaks_frame _ _ Hsp). exact Ecc. }
  cbn [peak_voltages config T transform]. rewrite Ecd.
  destruct (peak_voltages sd) as [vs|]; [|reflexivity]. cbn [option_map bind].
  unfold T, transform. cbn. rewrite map_map.
  do 2 f_equal. f_equal. apply map_ext. intros v. apply Hover.
Qed.

End Equivariance.

Section StageFrames.

Lemma option_map_ext_on {A B : Type} (f g : A -> B) (o : option A) :
  (forall a, o = Some a -> f a = g a) -> option_map f o = option_map g o.
Proof. intros H. destruct o as [a|]; [simpl; rewrite (H a eq_refl)|]; reflexivity. Qed.

Lemma option_map_map_id {A : Type} (o : option (list A)) :
  option_map (map (fun x => x)) o = o.
Proof. destruct o as [l|]; [simpl; rewrite map_id|]; reflexivity. Qed.

Lemma option_map_eta3 {A B C : Type} (o : option (A * B * C)) :
  option_map (fun r => (fst (fst r), snd (fst r), snd r)) o = o.
Proof. destruct o as [[[a b] d]|]; reflexivity. Qed.

Lemma find_pedestals_config (s s' : WaveformAnalysis) :
  find_pedestals s = Some s' -> config s' = config s.
Proof. intros H. apply find_pedestals_rows in H. tauto. Qed.

Lemma find_peaks_config (s s' : WaveformAnalysis) :
  find_peaks s = Some s' -> config s' = config s.
Proof.
  intros H. pose proof (find_peaks_rows _ _ H) as (sa & ? & ? & Ea & _ & _ & Ecs & _).
  destruct (ensure_pedestals_frame _ _ Ea) as [E _]. congruence.
Qed.

Lemma calculate_signal_times_config (s s' : WaveformAnalysis) :
  calculate_signal_times s = Some s' -> config s' = config s.
Proof.
  intros H. pose proof (calculate_signal_times_rows _ _ H)
    as (sp & ? & ? & ? & ? & Hsp & _ & _ & _ & _ & E & _).
  rewrite E. apply (ensure_peaks_frame _ _ Hsp).
Qed.

Lemma integrate_charges_config (s s' : WaveformAnalysis) :
  integrate_charges s = Some s' -> config s' = config s.
Proof.
  intros H. pose proof (integrate_charges_rows _ _ H)
    as (sp & ? & ? & ? & ? & Hsp & _ & _ & _ & _ & E & _).
  rewrite E. apply (ensure_peaks_frame _ _ Hsp).
Qed.

Lemma run_analysis_config (s s' : WaveformAnalysis) :
  run_analysis s = Some s' -> config s' = config s.
Proof. intros H. apply run_analysis_frame in H. tauto. Qed.

End StageFrames.

(** ** The time offset *)

Section TimeOffset.

Lemma shift_time_offset_transform (d : R) (c : Config) (s : WaveformAnalysis) :
  config s = c ->
  shift_time_offset d s =
  transform (with_time_offset (time_offset c + d) c) (fun raw => raw) (fun amp => amp)
            (fun x => x) (fun x => x) (fun x => x) (fun t => t + d) (fun x => x) s.
Proof.
  intros E. subst c. unfold shift_time_offset, transform.
  rewrite !option_map_map_id, map_id. reflexivity.
Qed.

(** X14.  The time offset is purely additive.  Adding [d] to [time_offset]
    adds [d] to every signal time and changes nothing else: every stage, and
    [run_analysis], run on the instance with the changed offset returns the
    instance it returns otherwise with the signal times moved by [d] (and
    fails when it fails otherwise). *)
Theorem time_offset_equivariance (d : R) (s : WaveformAnalysis) :
  find_pedestals (shift_time_offset d s)
    = option_map (shift_time_offset d) (find_pedestals s) /\
  find_peaks (shift_time_offset d s)
    = option_map (shift_time_offset d) (find_peaks s) /\
  calculate_signal_times (shift_time_offset d s)
    = option_map (shift_time_offset d) (calculate_signal_times s) /\
  integrate_charges (shift_time_offset d s)
    = option_map (shift_time_offset d) (integrate_charges s) /\
  run_analysis (shift_time_offset d s)
    = option_map (shift_time_offset d) (run_analysis s).
Proof.
  set (c := config s). set (c' := with_time_offset (time_offset c + d) c).
  assert (Hped : forall raw, find_pedestals_row c' raw =
            option_map (fun r => (fst (fst r), snd (fst r), snd r))
                       (find_pedestals_row c raw))
    by (intros raw; rewrite option_map_eta3; reflexivity).
  assert (Hpeak : forall amp, find_peaks_row c' amp =
            option_map (fun r => (fst (fst r), snd (fst r), snd r))
                       (find_peaks_row c amp))
    by (intros amp; rewrite option_map_eta3; reflexivity).
  assert (Htime : forall peak loc amp,
            signal_time_row c' peak loc amp = signal_time_row c peak loc amp)
    by reflexivity.
  assert (Hscale : forall t, t * IZR (ns_per_sample c') + time_offset c' =
            t * IZR (ns_per_sample c) + time_offset c + d)
    by (intros t; cbn; ring).
  assert (Hcharge : forall amp sigma p,
            charge_row c' amp sigma p = charge_row c amp sigma p)
    by reflexivity.
  assert (Hbins : analysis_bins c' = analysis_bins c) by reflexivity.
  assert (Back : forall r, config r = c ->
            transform c' (fun raw => raw) (fun amp => amp) (fun x => x) (fun x => x)
                      (fun x => x) (fun t => t + d) (fun x => x) r
            = shift_time_offset d r)
    by (intros r E; symmetry; apply shift_time_offset_transform; exact E).
  rewrite (shift_time_offset_transform d c s eq_refl).
  repeat split.
  - rewrite (transform_find_pedestals c c' _ _ _ _ _ _ _ Hped s eq_refl).
    apply option_map_ext_on. intros r Hr. apply Back.
    apply (find_pedestals_config _ _ Hr).
  - rewrite (transform_find_peaks c c' _ _ _ _ _ _ _ Hped Hpeak s eq_refl).
    apply option_map_ext_on. intros r Hr. apply Back.
    apply (find_peaks_config _ _ Hr).
  - rewrite (transform_calculate_signal_times c c' _ _ _ _ _ _ _
               Hped Hpeak Htime Hscale s eq_refl).
    apply option_map_ext_on. intros r Hr. apply Back.
    apply (calculate_signal_times_config _ _ Hr).
  - rewrite (transform_integrate_charges c c' _ _ _ _ _ _ _
               Hped Hpeak Hcharge Hbins s eq_refl).
    apply option_map_ext_on. intros r Hr. apply Back.
    apply (integrate_charges_config _ _ Hr).
  - rewrite (transform_run_analysis c c' _ _ _ _ _ _ _
               Hped Hpeak Htime Hscale Hcharge Hbins s (fun v => eq_refl) eq_refl).
    apply option_map_ext_on. intros r Hr. apply Back.
    apply (run_analysis_config _ _ Hr).
Qed.

End TimeOffset.

(** ** A constant added to the raw samples, and the mirrored waveform *)

Section BaselineAndMirror.

Lemma sum_map_shift (d : R) (w : list R) :
  Np.sum (map (fun y => y + d) w) = Np.sum w + INR (length w) * d.
Proof.
  induction w as [|x w IH].
  - unfold Np.sum. simpl. ring.
  - cbn [map]. rewrite !sum_cons, IH.
    change (length (x :: w)) with (S (length w)). rewrite S_INR. ring.
Qed.

Lemma mean_shift (d : R) (w : list R) :
  w <> [] -> Np.mean (map (fun y => y + d) w) = Np.mean w + d.
Proof.
  intros N. unfold Np.mean. rewrite sum_map_shift, length_map.
  assert (L : INR (length w) <> 0).
  { apply not_0_INR. destruct w; [congruence | discriminate]. }
  field. exact L.
Qed.

Lemma std_shift (d : R) (w : list R) :
  w <> [] -> Np.std (map (fun y => y + d) w) = Np.std w.
Proof.
  intros N. unfold Np.std. rewrite (mean_shift d w N), map_map.
  do 2 f_equal. apply map_ext. intros x. ring.
Qed.

Lemma sum_map_opp (w : list R) : Np.sum (map Ropp w) = - Np.sum w.
Proof.
  induction w as [|x w IH].
  - unfold Np.sum. simpl. ring.
  - cbn [map]. rewrite !sum_cons, IH. ring.
Qed.

Lemma mean_opp (w : list R) : Np.mean (map Ropp w) = - Np.mean w.
Proof. unfold Np.mean. rewrite sum_map_opp, length_map. unfold Rdiv. ring. Qed.

Lemma std_opp (w : list R) : Np.std (map Ropp w) = Np.std w.
Proof.
  unfold Np.std. rewrite mean_opp, map_map.
  do 2 f_equal. apply map_ext. intros x. ring.
Qed.

Lemma find_pedestals_row_None (c : Config) (raw : list Z) :
  Np.take (map (fun x => IZR x * voltage_scale c) raw) (pedestal_bins c) = None ->
  find_pedestals_row c raw = None.
Proof. intros H. unfold find_pedestals_row. rewrite H. reflexivity. Qed.

Lemma find_pedestals_row_empty (c : Config) (raw : list Z) :
  Np.take (map (fun x => IZR x * voltage_scale c) raw) (pedestal_bins c) = Some [] ->
  find_pedestals_row c raw = None.
Proof. intros H. unfold find_pedestals_row. rewrite H. reflexivity. Qed.

(** One row of [find_pedestals] with [d] counts added to every sample. *)
Lemma find_pedestals_row_shift (c : Config) (d : Z) (raw : list Z) :
  find_pedestals_row c (map (Z.add d) raw) =
  option_map (fun r => (fst (fst r), snd (fst r) + IZR d * voltage_scale c, snd r))
             (find_pedestals_row c raw).
Proof.
  set (scaled := map (fun x => IZR x * voltage_scale c) raw).
  assert (E : map (fun x => IZR x * voltage_scale c) (map (Z.add d) raw)
              = map (fun y => y + IZR d * voltage_scale c) scaled).
  { unfold scaled. rewrite !map_map. apply map_ext. intros x.
    rewrite plus_IZR. ring. }
  destruct (Np.take scaled (pedestal_bins c)) as [w|] eqn:T.
  - destruct w as [|w0 ws].
    + rewrite (find_pedestals_row_empty c raw T).
      apply find_pedestals_row_empty. rewrite E, take_map. fold scaled.
      rewrite T. reflexivity.
    + assert (N : w0 :: ws <> []) by discriminate.
      rewrite (find_pedestals_row_eq c raw (w0 :: ws) T N).
      rewrite (find_pedestals_row_eq c (map (Z.add d) raw)
                 (map (fun y => y + IZR d * voltage_scale c) (w0 :: ws))).
      * rewrite (mean_shift _ _ N), (std_shift _ _ N). cbn [option_map fst snd].
        do 3 f_equal. rewrite map_map. apply map_ext. intros x.
        rewrite plus_IZR. ring.
      * rewrite E, take_map. fold scaled. rewrite T. reflexivity.
      * discriminate.
  - rewrite (find_pedestals_row_None c raw T).
    apply find_pedestals_row_None. rewrite E, take_map. fold scaled.
    rewrite T. reflexivity.
Qed.

(** One row of [find_pedestals] on the negated samples with the polarity
    flag flipped. *)
Lemma find_pedestals_row_mirror (c : Config) (raw : list Z) :
  find_pedestals_row (with_reverse_polarity (negb (reverse_polarity c)) c)
                     (map Z.opp raw) =
  option_map (fun r => (fst (fst r), - snd (fst r), snd r)) (find_pedestals_row c raw).
Proof.
  set (c' := with_reverse_polarity (negb (reverse_polarity c)) c).
  set (scaled := map (fun x => IZR x * voltage_scale c) raw).
  assert (E : map (fun x => IZR x * voltage_scale c') (map Z.opp raw)
              = map Ropp scaled).
  { unfold scaled. rewrite !map_map. apply map_ext. intros x.
    rewrite opp_IZR. cbn. ring. }
  assert (Ts : Np.take (map (fun x => IZR x * voltage_scale c') (map Z.opp raw))
                       (pedestal_bins c')
               = option_map (map Ropp) (Np.take scaled (pedestal_bins c)))
    by (rewrite E, take_map; reflexivity).
  destruct (Np.take scaled (pedestal_bins c)) as [w|] eqn:T.
  - destruct w as [|w0 ws].
    + rewrite (find_pedestals_row_empty c raw T).
      apply find_pedestals_row_empty. exact Ts.
    + assert (N : w0 :: ws <> []) by discriminate.
      rewrite (find_pedestals_row_eq c raw (w0 :: ws) T N).
      rewrite (find_pedestals_row_eq c' (map Z.opp raw) (map Ropp (w0 :: ws)) Ts)
        by discriminate.
      rewrite mean_opp, std_opp. cbn [option_map fst snd].
      do 3 f_equal. rewrite map_map. apply map_ext. intros x.
      rewrite opp_IZR. unfold polarity_sign. cbn.
      destruct (reverse_polarity c); cbn; ring.
  - rewrite (find_pedestals_row_None c raw T).
    apply find_pedestals_row_None. exact Ts.
Qed.

Lemma shift_baseline_transform (d : Z) (c : Config) (s : WaveformAnalysis) :
  config s = c ->
  shift_baseline d s =
  transform c (map (Z.add d)) (fun amp => amp)
            (fun p => p + IZR d * voltage_scale c) (fun x => x) (fun x => x)
            (fun x => x) (fun x => x) s.
Proof.
  intros E. subst c. unfold shift_baseline, transform.
  rewrite !option_map_map_id. reflexivity.
Qed.

Lemma mirror_transform (c : Config) (s : WaveformAnalysis) :
  config s = c ->
  mirror s =
  transform (with_reverse_polarity (negb (reverse_polarity c)) c) (map Z.opp)
            (fun amp => amp) Ropp (fun x => x) (fun x => x) (fun x => x) (fun x => x) s.
Proof.
  intros E. subst c. unfold mirror, transform.
  rewrite !option_map_map_id. reflexivity.
Qed.

(** X15.  The pedestal subtraction removes a constant.  Adding the same
    number [d] of counts to every raw sample of every waveform moves every
    pedestal by [d * voltage_scale] and changes nothing else: corrected
    amplitudes, pedestal sigmas, peaks, signal times, charges and threshold
    flags are the same, stage by stage and for [run_analysis]. *)
Theorem baseline_shift_invariance (d : Z) (s : WaveformAnalysis) :
  find_pedestals (shift_baseline d s)
    = option_map (shift_baseline d) (find_pedestals s) /\
  find_peaks (shift_baseline d s)
    = option_map (shift_baseline d) (find_peaks s) /\
  calculate_signal_times (shift_baseline d s)
    = option_map (shift_baseline d) (calculate_signal_times s) /\
  integrate_charges (shift_baseline d s)
    = option_map (shift_baseline d) (integrate_charges s) /\
  run_analysis (shift_baseline d s)
    = option_map (shift_baseline d) (run_analysis s).
Proof.
  set (c := config s).
  assert (Hped : forall raw, find_pedestals_row c (map (Z.add d) raw) =
            option_map (fun r => (fst (fst r), snd (fst r) + IZR d * voltage_scale c,
                                  snd r))
                       (find_pedestals_row c raw))
    by (intros raw; apply find_pedestals_row_shift).
  assert (Hpeak : forall amp, find_peaks_row c amp =
            option_map (fun r => (fst (fst r), snd (fst r), snd r))
                       (find_peaks_row c amp))
    by (intros amp; rewrite option_map_eta3; reflexivity).
  assert (Htime : forall peak loc amp,
            signal_time_row c peak loc amp = signal_time_row c peak loc amp)
    by reflexivity.
  assert (Hscale : forall t, t * IZR (ns_per_sample c) + time_offset c =
            t * IZR (ns_per_sample c) + time_offset c)
    by reflexivity.
  assert (Hcharge : forall amp sigma p,
            charge_row c amp sigma p = charge_row c amp sigma p)
    by reflexivity.
  assert (Hbins : analysis_bins c = analysis_bins c) by reflexivity.
  assert (Back : forall r, config r = c ->
            transform c (map (Z.add d)) (fun amp => amp)
                      (fun p => p + IZR d * voltage_scale c) (fun x => x) (fun x => x)
                      (fun x => x) (fun x => x) r
            = shift_baseline d r)
    by (intros r E; symmetry; apply shift_baseline_transform; exact E).
  rewrite (shift_baseline_transform d c s eq_refl).
  repeat split.
  - rewrite (transform_find_pedestals c c _ _ _ _ _ _ _ Hped s eq_refl).
    apply option_map_ext_on. intros r Hr. apply Back.
    apply (find_pedestals_config _ _ Hr).
  - rewrite (transform_find_peaks c c _ _ _ _ _ _ _ Hped Hpeak s eq_refl).
    apply option_map_ext_on. intros r Hr. apply Back.
    apply (find_peaks_config _ _ Hr).
  - rewrite (transform_calculate_signal_times c c _ _ _ _ _ _ _
               Hped Hpeak Htime Hscale s eq_refl).
    apply option_map_ext_on. intros r Hr. apply Back.
    apply (calculate_signal_times_config _ _ Hr).
  - rewrite (transform_integrate_charges c c _ _ _ _ _ _ _
               Hped Hpeak Hcharge Hbins s eq_refl).
    apply option_map_ext_on. intros r Hr. apply Back.
    apply (integrate_charges_config _ _ Hr).
  - rewrite (transform_run_analysis c c _ _ _ _ _ _ _
               Hped Hpeak Htime Hscale Hcharge Hbins s (fun v => eq_refl) eq_refl).
    apply option_map_ext_on. intros r Hr. apply Back.
    apply (run_analysis_config _ _ Hr).
Qed.

(** X16.  Polarity.  Negating every raw sample and flipping
    [reverse_polarity] negates every pedestal and changes nothing else: a
    negative-going pulse analysed with the flag set and the mirrored
    positive-going pulse analysed without it give the same corrected
    amplitudes, pedestal sigmas, peaks, signal times, charges and threshold
    flags, stage by stage and for [run_analysis]. *)
Theorem mirror_invariance (s : WaveformAnalysis) :
  find_pedestals (mirror s) = option_map mirror (find_pedestals s) /\
  find_peaks (mirror s) = option_map mirror (find_peaks s) /\
  calculate_signal_times (mirror s) = option_map mirror (calculate_signal_times s) /\
  integrate_charges (mirror s) = option_map mirror (integrate_charges s) /\
  run_analysis (mirror s) = option_map mirror (run_analysis s).
Proof.
  set (c := config s).
  set (c' := with_reverse_polarity (negb (reverse_polarity c)) c).
  assert (Hped : forall raw, find_pedestals_row c' (map Z.opp raw) =
            option_map (fun r => (fst (fst r), - snd (fst r), snd r))
                       (find_pedestals_row c raw))
    by (intros raw; apply find_pedestals_row_mirror).
  assert (Hpeak : forall amp, find_peaks_row c' amp =
            option_map (fun r => (fst (fst r), snd (fst r), snd r))
                       (find_peaks_row c amp))
    by (intros amp; rewrite option_map_eta3; reflexivity).
  assert (Htime : forall peak loc amp,
            signal_time_row c' peak loc amp = signal_time_row c peak loc amp)
    by reflexivity.
  assert (Hscale : forall t, t * IZR (ns_per_sample c') + time_offset c' =
            t * IZR (ns_per_sample c) + time_offset c)
    by reflexivity.
  assert (Hcharge : forall amp sigma p,
            charge_row c' amp sigma p = charge_row c amp sigma p)
    by reflexivity.
  assert (Hbins : analysis_bins c' = analysis_bins c) by reflexivity.
  assert (Back : forall r, config r = c ->
            transform c' (map Z.opp) (fun amp => amp) Ropp (fun x => x) (fun x => x)
                      (fun x => x) (fun x => x) r
            = mirror r)
    by (intros r E; symmetry; apply mirror_transform; exact E).
  rewrite (mirror_transform c s eq_refl).
  repeat split.
  - rewrite (transform_find_pedestals c c' _ _ _ _ _ _ _ Hped s eq_refl).
    apply option_map_ext_on. intros r Hr. apply Back.
    apply (find_pedestals_config _ _ Hr).
  - rewrite (transform_find_peaks c c' _ _ _ _ _ _ _ Hped Hpeak s eq_refl).
    apply option_map_ext_on. intros r Hr. apply Back.
    apply (find_peaks_config _ _ Hr).
  - rewrite (transform_calculate_signal_times c c' _ _ _ _ _ _ _
               Hped Hpeak Htime Hscale s eq_refl).
    apply option_map_ext_on. intros r Hr. apply Back.
    apply (calculate_signal_times_config _ _ Hr).
  - rewrite (transform_integrate_charges c c' _ _ _ _ _ _ _
               Hped Hpeak Hcharge Hbins s eq_refl).
    apply option_map_ext_on. intros r Hr. apply Back.
    apply (integrate_charges_config _ _ Hr).
  - rewrite (transform_run_analysis c c' _ _ _ _ _ _ _
               Hped Hpeak Htime Hscale Hcharge Hbins s (fun v => eq_refl) eq_refl).
    apply option_map_ext_on. intros r Hr. apply Back.
    apply (run_analysis_config _ _ Hr).
Qed.

End BaselineAndMirror.

(** ** The voltage scale *)

Section VoltageScale.

Variable k : R.
Hypothesis k_pos : 0 < k.

Lemma ltb_scale (a b : R) : Np.ltb (k * a) (k * b) = Np.ltb a b.
Proof.
  destruct (Rlt_dec a b) as [L|L].
  - rewrite (ltb_true a b L). apply ltb_true. apply Rmult_lt_compat_l; assumption.
  - apply Rnot_lt_le in L. rewrite (ltb_false a b L). apply ltb_false.
    apply Rmult_le_compat_l; [lra | exact L].
Qed.

Lemma eqb_scale (a b : R) : Np.eqb (k * a) (k * b) = Np.eqb a b.
Proof.
  destruct (Req_dec_T a b) as [E|E].
  - rewrite (eqb_true a b E). apply eqb_true. rewrite E. reflexivity.
  - rewrite (eqb_false a b E). apply eqb_false. intros F. apply E.
    apply (Rmult_eq_reg_l k); [exact F | lra].
Qed.

Lemma sum_map_scale (w : list R) : Np.sum (map (Rmult k) w) = k * Np.sum w.
Proof.
  induction w as [|x w IH].
  - unfold Np.sum. simpl. ring.
  - cbn [map]. rewrite !sum_cons, IH. ring.
Qed.

Lemma mean_scale (w : list R) : Np.mean (map (Rmult k) w) = k * Np.mean w.
Proof. unfold Np.mean. rewrite sum_map_scale, length_map. unfold Rdiv. ring. Qed.

Lemma std_scale (w : list R) : Np.std (map (Rmult k) w) = k * Np.std w.
Proof.
  unfold Np.std. rewrite mean_scale, map_map.
  rewrite (map_ext _ (fun x => (k * k) * ((x - Np.mean w) * (x - Np.mean w))))
    by (intros x; ring).
  rewrite <- (map_map (fun x => (x - Np.mean w) * (x - Np.mean w)) (Rmult (k * k))).
  assert (M : forall v, Np.mean (map (Rmult (k * k)) v) = k * k * Np.mean v).
  { intros v. unfold Np.mean. rewrite length_map.
    assert (S : forall u, Np.sum (map (Rmult (k * k)) u) = k * k * Np.sum u).
    { induction u as [|x u IH]; [unfold Np.sum; simpl; ring|].
      cbn [map]. rewrite !sum_cons, IH. ring. }
    rewrite S. unfold Rdiv. ring. }
  rewrite M. rewrite sqrt_mult_alt by nra.
  rewrite sqrt_square by lra. reflexivity.
Qed.

Lemma argmax_from_scale (l : list R) (best : R) (bi i : nat) :
  Np.argmax_from (k * best) bi i (map (Rmult k) l) = Np.argmax_from best bi i l.
Proof.
  revert best bi i. induction l as [|x l IH]; intros best bi i; [reflexivity|].
  cbn [map Np.argmax_from]. rewrite ltb_scale.
  destruct (Np.ltb best x); apply IH.
Qed.

Lemma argmax_scale (l : list R) : Np.argmax (map (Rmult k) l) = Np.argmax l.
Proof.
  destruct l as [|x l]; [reflexivity|].
  cbn [map Np.argmax]. rewrite argmax_from_scale. reflexivity.
Qed.

Lemma slice_down_map {A B : Type} (f : A -> B) (l : list A) (j : Z) :
  Np.slice_down (map f l) j = map f (Np.slice_down l j).
Proof.
  unfold Np.slice_down. rewrite length_map.
  destruct ((if (j <? 0)%Z then (j + Z.of_nat (length l))%Z else j) <? 0)%Z;
    [reflexivity|].
  rewrite firstn_map, map_rev. reflexivity.
Qed.

Lemma slice_map {A B : Type} (f : A -> B) (l : list A) (a b : Z) :
  Np.slice (map f l) a b = map f (Np.slice l a b).
Proof.
  unfold Np.slice. rewrite length_map, firstn_map, skipn_map. reflexivity.
Qed.

(** [np.interp] with the abscissas and the point scaled together. *)
Lemma interp_scale (x : R) (xp fp : list R) :
  Np.interp (k * x) (map (Rmult k) xp) fp = Np.interp x xp fp.
Proof.
  destruct xp as [|x0 [|x1 [|x2 xp]]]; try reflexivity.
  destruct fp as [|f0 [|f1 [|f2 fp]]]; try reflexivity.
  cbn [map Np.interp]. f_equal. rewrite !ltb_scale, eqb_scale.
  destruct (Np.ltb x1 x); [reflexivity|].
  destruct (Np.ltb x x0) eqn:L0; [reflexivity|].
  destruct (Np.ltb x x1) eqn:L1; [|reflexivity].
  destruct (Np.eqb x0 x); [reflexivity|].
  apply ltb_false_iff in L0. apply ltb_true_iff in L1.
  field. split; [lra | nra].
Qed.

Lemma charge_mask_scale (amp : list R) (sigma : R) (p : Z) :
  charge_mask (map (Rmult k) amp) (k * sigma) p = charge_mask amp sigma p.
Proof.
  unfold charge_mask. rewrite map_map.
  rewrite (map_ext (fun a => Np.ltb (k * a) (3 * (k * sigma)))
                   (fun a => Np.ltb a (3 * sigma))).
  - reflexivity.
  - intros a. replace (3 * (k * sigma)) with (k * (3 * sigma)) by ring.
    apply ltb_scale.
Qed.

Lemma sum_masked_scale (amp : list R) (mask : list bool) :
  Np.sum (Np.map2 masked (map (Rmult k) amp) mask) =
  k * Np.sum (Np.map2 masked amp mask).
Proof.
  revert mask. induction amp as [|a amp IH]; intros [|m mask];
    try (unfold Np.sum; simpl; ring).
  cbn [map Np.map2]. rewrite !sum_cons, IH. unfold masked. ring.
Qed.

Lemma find_pedestals_row_scale (c : Config) (raw : list Z) :
  find_pedestals_row (with_voltage_scale (k * voltage_scale c) c) raw =
  option_map (fun r => (map (Rmult k) (fst (fst r)), k * snd (fst r), k * snd r))
             (find_pedestals_row c raw).
Proof.
  set (c' := with_voltage_scale (k * voltage_scale c) c).
  set (scaled := map (fun x => IZR x * voltage_scale c) raw).
  assert (Ts : Np.take (map (fun x => IZR x * voltage_scale c') raw) (pedestal_bins c')
               = option_map (map (Rmult k)) (Np.take scaled (pedestal_bins c))).
  { rewrite <- take_map. unfold scaled. rewrite map_map. f_equal.
    apply map_ext. intros x. cbn. ring. }
  destruct (Np.take scaled (pedestal_bins c)) as [w|] eqn:T.
  - destruct w as [|w0 ws].
    + rewrite (find_pedestals_row_empty c raw T).
      apply find_pedestals_row_empty. exact Ts.
    + assert (N : w0 :: ws <> []) by discriminate.
      rewrite (find_pedestals_row_eq c raw (w0 :: ws) T N).
      rewrite (find_pedestals_row_eq c' raw (map (Rmult k) (w0 :: ws)) Ts)
        by discriminate.
      rewrite mean_scale, std_scale. cbn [option_map fst snd].
      do 3 f_equal. rewrite map_map. apply map_ext. intros x.
      unfold polarity_sign. cbn. ring.
  - rewrite (find_pedestals_row_None c raw T).
    apply find_pedestals_row_None. exact Ts.
Qed.

Lemma find_peaks_row_scale (c : Config) (amp : list R) :
  find_peaks_row (with_voltage_scale (k * voltage_scale c) c) (map (Rmult k) amp) =
  option_map (fun r => (fst (fst r), snd (fst r), k * snd r)) (find_peaks_row c amp).
Proof.
  unfold find_peaks_row. cbn [analysis_bins analysis_window ns_per_sample
                              with_voltage_scale].
  rewrite take_map.
  destruct (Np.take amp (analysis_bins c)) as [w|]; [|reflexivity].
  cbn [option_map bind]. rewrite argmax_scale.
  destruct (Np.argmax w) as [loc|]; [|reflexivity].
  cbn [bind]. rewrite nth_error_map.
  destruct (nth_error w loc); reflexivity.
Qed.

Lemma signal_time_row_scale (c : Config) (peak : R) (loc : nat) (amp : list R) :
  signal_time_row (with_voltage_scale (k * voltage_scale c) c) (k * peak) loc
                  (map (Rmult k) amp) =
  signal_time_row c peak loc amp.
Proof.
  unfold signal_time_row. cbn [analysis_bins analysis_window with_voltage_scale].
  destruct (loc =? 0)%nat; [reflexivity|].
  destruct (Np.getitem (analysis_bins c) 0) as [fb|]; [|reflexivity].
  cbn [bind]. rewrite slice_down_map, map_map.
  replace (peak_rise_time_fraction * (k * peak))
    with (k * (peak_rise_time_fraction * peak)) by ring.
  rewrite (map_ext (fun a => Np.ltb (k * a) (k * (peak_rise_time_fraction * peak)))
                   (fun a => Np.ltb a (peak_rise_time_fraction * peak)))
    by (intros a; apply ltb_scale).
  destruct (Np.argmax_bool _) as [j|]; [|reflexivity].
  cbn [bind]. rewrite slice_map. apply interp_scale.
Qed.

Lemma charge_row_scale (c : Config) (amp : list R) (sigma : R) (p : Z) :
  charge_row (with_voltage_scale (k * voltage_scale c) c) (map (Rmult k) amp)
             (k * sigma) p =
  k * charge_row c amp sigma p.
Proof.
  unfold charge_row. rewrite charge_mask_scale, sum_masked_scale. cbn. ring.
Qed.

Lemma scale_voltages_transform (c : Config) (s : WaveformAnalysis) :
  config s = c ->
  scale_voltages k s =
  transform (with_voltage_scale (k * voltage_scale c) c) (fun raw => raw)
            (map (Rmult k)) (Rmult k) (Rmult k) (Rmult k) (fun t => t) (Rmult k) s.
Proof.
  intros E. subst c. unfold scale_voltages, transform.
  rewrite !option_map_map_id, map_id. reflexivity.
Qed.

End VoltageScale.

(** X17.  The voltage scale is a change of unit.  Multiplying
    [voltage_scale] by [k > 0] multiplies every corrected amplitude,
    pedestal, pedestal sigma, peak voltage and integrated charge by [k] and
    leaves every peak location, peak time and signal time as it is: each of
    the four stages run on the instance with the scaled configuration returns
    the instance it returns otherwise, scaled (and fails when it fails
    otherwise). *)
Theorem voltage_scale_equivariance (k : R) (s : WaveformAnalysis) :
  0 < k ->
  find_pedestals (scale_voltages k s)
    = option_map (scale_voltages k) (find_pedestals s) /\
  find_peaks (scale_voltages k s)
    = option_map (scale_voltages k) (find_peaks s) /\
  calculate_signal_times (scale_voltages k s)
    = option_map (scale_voltages k) (calculate_signal_times s) /\
  integrate_charges (scale_voltages k s)
    = option_map (scale_voltages k) (integrate_charges s).
Proof.
  intros Hk.
  set (c := config s). set (c' := with_voltage_scale (k * voltage_scale c) c).
  assert (Hped : forall raw, find_pedestals_row c' raw =
            option_map (fun r => (map (Rmult k) (fst (fst r)), k * snd (fst r),
                                  k * snd r))
                       (find_pedestals_row c raw))
    by (intros raw; apply find_pedestals_row_scale; exact Hk).
  assert (Hpeak : forall amp, find_peaks_row c' (map (Rmult k) amp) =
            option_map (fun r => (fst (fst r), snd (fst r), k * snd r))
                       (find_peaks_row c amp))
    by (intros amp; apply find_peaks_row_scale; exact Hk).
  assert (Htime : forall peak loc amp,
            signal_time_row c' (k * peak) loc (map (Rmult k) amp)
            = signal_time_row c peak loc amp)
    by (intros peak loc amp; apply signal_time_row_scale; exact Hk).
  assert (Hscale : forall t, t * IZR (ns_per_sample c') + time_offset c' =
            t * IZR (ns_per_sample c) + time_offset c)
    by reflexivity.
  assert (Hcharge : forall amp sigma p,
            charge_row c' (map (Rmult k) amp) (k * sigma) p
            = k * charge_row c amp sigma p)
    by (intros amp sigma p; apply charge_row_scale; exact Hk).
  assert (Hbins : analysis_bins c' = analysis_bins c) by reflexivity.
  assert (Back : forall r, config r = c ->
            transform c' (fun raw => raw) (map (Rmult k)) (Rmult k) (Rmult k) (Rmult k)
                      (fun t => t) (Rmult k) r
            = scale_voltages k r)
    by (intros r E; symmetry; apply scale_voltages_transform; exact E).
  rewrite (scale_voltages_transform k c s eq_refl).
  repeat split.
  - rewrite (transform_find_pedestals c c' _ _ _ _ _ _ _ Hped s eq_refl).
    apply option_map_ext_on. intros r Hr. apply Back.
    apply (find_pedestals_config _ _ Hr).
  - rewrite (transform_find_peaks c c' _ _ _ _ _ _ _ Hped Hpeak s eq_refl).
    apply option_map_ext_on. intros r Hr. apply Back.
    apply (find_peaks_config _ _ Hr).
  - rewrite (transform_calculate_signal_times c c' _ _ _ _ _ _ _
               Hped Hpeak Htime Hscale s eq_refl).
    apply option_map_ext_on. intros r Hr. apply Back.
    apply (calculate_signal_times_config _ _ Hr).
  - rewrite (transform_integrate_charges c c' _ _ _ _ _ _ _
               Hped Hpeak Hcharge Hbins s eq_refl).
    apply option_map_ext_on. intros r Hr. apply Back.
    apply (integrate_charges_config _ _ Hr).
Qed.

(** [voltage_scale_equivariance] on the worked batch with the scale doubled. *)
Lemma voltage_scale_equivariance_witness :
  find_pedestals (scale_voltages 2 (fresh exA_config exA_waveforms))
    = option_map (scale_voltages 2) (find_pedestals (fresh exA_config exA_waveforms)) /\
  find_peaks (scale_voltages 2 (fresh exA_config exA_waveforms))
    = option_map (scale_voltages 2) (find_peaks (fresh exA_config exA_waveforms)) /\
  calculate_signal_times (scale_voltages 2 (fresh exA_config exA_waveforms))
    = option_map (scale_voltages 2)
        (calculate_signal_times (fresh exA_config exA_waveforms)) /\
  integrate_charges (scale_voltages 2 (fresh exA_config exA_waveforms))
    = option_map (scale_voltages 2) (integrate_charges (fresh exA_config exA_waveforms)).
Proof.
  apply (voltage_scale_equivariance 2 (fresh exA_config exA_waveforms)). lra.
Defined.

(** ** One waveform at a time *)

Section RowByRow.

(** Waveform [k] of a batch that [run_analysis] succeeded on: the row
    computations that succeeded on it, and its entry in every attribute. *)
Lemma run_analysis_row_lookup (c : Config) (w : list (list Z)) (s1 : WaveformAnalysis)
    (k : nat) (raw : list Z) :
  run_analysis (fresh c w) = Some s1 ->
  nth_error w k = Some raw ->
  exists amp ped sig loc t v tm fb,
    find_pedestals_row c raw = Some (amp, ped, sig) /\
    find_peaks_row c amp = Some (loc, t, v) /\
    signal_time_row c v loc amp = Some tm /\
    Np.getitem (analysis_bins c) 0 = Some fb /\
    col (amplitudes s1) k = Some amp /\
    col (pedestals s1) k = Some ped /\
    col (pedestal_sigmas s1) k = Some sig /\
    col (peak_locations s1) k = Some loc /\
    col (peak_times s1) k = Some t /\
    col (peak_voltages s1) k = Some v /\
    col (signal_times s1) k = Some (tm * IZR (ns_per_sample c) + time_offset c) /\
    col (integrated_charges s1) k = Some (charge_row c amp sig (Z.of_nat loc + fb)) /\
    col (is_over_threshold s1) k = Some (Np.gtb v (threshold c)).
Proof.
  intros H Hraw.
  pose proof (run_analysis_rows _ _ H)
    as (sa & amps & rows & times & sigmas & fb & Hsa & Eamps & Hm & Ht & Esig & Hfb &
        _ & _ & Ea & Ep & Es & El & Etm & Ev & Est & Eq & Eo).
  rewrite (ensure_pedestals_fresh (fresh c w) eq_refl) in Hsa.
  pose proof (find_pedestals_rows _ _ Hsa)
    as (Ec & _ & _ & prows & Hpm & Epa & Epp & Eps).
  cbn [fresh config waveforms] in Ec, Hpm. rewrite Ec in *.
  rewrite Epa in Eamps. inversion Eamps. subst amps. clear Eamps.
  rewrite Eps in Esig. inversion Esig. subst sigmas. clear Esig.
  destruct (mapM_lookup _ _ _ k raw Hpm Hraw) as [[[amp ped] sig] [Hrow Hk]].
  assert (Ka : nth_error (map (fun r : list R * R * R => fst (fst r)) prows) k = Some amp)
    by (rewrite nth_error_map, Hk; reflexivity).
  destruct (mapM_lookup _ _ _ k amp Hm Ka) as [[[loc t] v] [Hpeak Kr]].
  assert (Kz : nth_error (zip3 (map snd rows) (map (fun r => fst (fst r)) rows)
                               (map (fun r : list R * R * R => fst (fst r)) prows)) k
               = Some (v, loc, amp)).
  { apply zip3_nth_error; [| |exact Ka]; rewrite nth_error_map, Kr; reflexivity. }
  destruct (mapM_lookup _ _ _ k _ Ht Kz) as [tm [Htime Kt]].
  cbn beta iota in Htime.
  assert (Kq : nth_error (zip3 (map (fun r : list R * R * R => fst (fst r)) prows)
                               (map snd prows)
                               (map (fun loc => (Z.of_nat loc + fb)%Z)
                                    (map (fun r => fst (fst r)) rows))) k
               = Some (amp, sig, (Z.of_nat loc + fb)%Z)).
  { apply zip3_nth_error; [exact Ka | |]; rewrite ?map_map, nth_error_map;
      [rewrite Hk | rewrite Kr]; reflexivity. }
  exists amp, ped, sig, loc, t, v, tm, fb.
  rewrite Ea, Ep, Epp, Es, El, Etm, Ev, Est, Eq, Eo.
  rewrite !col_map, Kq, ?nth_error_map, Hk, Kr, Kt. cbn -[Np.getitem].
  repeat split; assumption.
Qed.

(** [run_analysis] on a batch of one waveform, from its row computations. *)
Lemma run_analysis_single (c : Config) (raw : list Z) (amp : list R) (ped sig : R)
    (loc : nat) (t v tm : R) (fb : Z) :
  find_pedestals_row c raw = Some (amp, ped, sig) ->
  find_peaks_row c amp = Some (loc, t, v) ->
  signal_time_row c v loc amp = Some tm ->
  Np.getitem (analysis_bins c) 0 = Some fb ->
  run_analysis (fresh c [raw]) = Some {|
    config := c;
    waveforms := [raw];
    amplitudes := Some [amp];
    pedestals := Some [ped];
    pedestal_sigmas := Some [sig];
    peak_locations := Some [loc];
    peak_times := Some [t];
    peak_voltages := Some [v];
    signal_times := Some [tm * IZR (ns_per_sample c) + time_offset c];
    integrated_charges := Some [charge_row c amp sig (Z.of_nat loc + fb)];
    is_over_threshold := Some [Np.gtb v (threshold c)] |}.
Proof.
  intros Hrow Hpeak Htime Hfb.
  unfold run_analysis, find_peaks, ensure_pedestals, find_pedestals.
  cbn [fresh amplitudes config waveforms mapM bind]. rewrite Hrow.
  cbn [bind amplitudes config waveforms map fst snd mapM]. rewrite Hpeak.
  cbn [bind]. unfold calculate_signal_times, ensure_peaks.
  cbn [bind amplitudes config waveforms peak_locations peak_voltages map fst snd
       zip3 mapM].
  rewrite Htime. cbn [bind]. unfold integrate_charges, ensure_peaks.
  cbn [bind amplitudes config waveforms peak_locations peak_voltages pedestal_sigmas
       map fst snd].
  rewrite Hfb.
  cbn [bind amplitudes config waveforms peak_locations peak_voltages pedestal_sigmas
       pedestals peak_times signal_times integrated_charges is_over_threshold
       map fst snd zip3].
  reflexivity.
Qed.

(** X18.  Waveforms are analysed independently.  When [run_analysis]
    succeeds on a new instance over a batch, it succeeds on a new instance
    over any single waveform of the batch, with the same configuration, and
    every attribute of that waveform is the same in both: no result of a
    waveform depends on the other waveforms of its batch. *)
Theorem run_analysis_row_independent (c : Config) (w : list (list Z))
    (s1 : WaveformAnalysis) (k : nat) (raw : list Z) :
  run_analysis (fresh c w) = Some s1 ->
  nth_error w k = Some raw ->
  exists s',
    run_analysis (fresh c [raw]) = Some s' /\
    col (amplitudes s') 0 = col (amplitudes s1) k /\
    col (pedestals s') 0 = col (pedestals s1) k /\
    col (pedestal_sigmas s') 0 = col (pedestal_sigmas s1) k /\
    col (peak_locations s') 0 = col (peak_locations s1) k /\
    col (peak_times s') 0 = col (peak_times s1) k /\
    col (peak_voltages s') 0 = col (peak_voltages s1) k /\
    col (signal_times s') 0 = col (signal_times s1) k /\
    col (integrated_charges s') 0 = col (integrated_charges s1) k /\
    col (is_over_threshold s') 0 = col (is_over_threshold s1) k.
Proof.
  intros H Hraw.
  destruct (run_analysis_row_lookup c w s1 k raw H Hraw)
    as (amp & ped & sig & loc & t & v & tm & fb & Hrow & Hpeak & Htime & Hfb &
        Ca & Cp & Cs & Cl & Ct & Cv & Cst & Cq & Co).
  eexists. split; [exact (run_analysis_single c raw _ _ _ _ _ _ _ _ Hrow Hpeak Htime Hfb)|].
  rewrite Ca, Cp, Cs, Cl, Ct, Cv, Cst, Cq, Co.
  repeat split; reflexivity.
Qed.

(** [run_analysis_row_independent] on waveform 2 of the worked batch. *)
Lemma run_analysis_row_independent_witness :
  exists s',
    run_analysis (fresh exA_config [[-5; -6; -10; 0; 0; 1; -1; 1; -1]%Z]) = Some s' /\
    col (amplitudes s') 0 = col (amplitudes exA_final) 2 /\
    col (pedestals s') 0 = col (pedestals exA_final) 2 /\
    col (pedestal_sigmas s') 0 = col (pedestal_sigmas exA_final) 2 /\
    col (peak_locations s') 0 = col (peak_locations exA_final) 2 /\
    col (peak_times s') 0 = col (peak_times exA_final) 2 /\
    col (peak_voltages s') 0 = col (peak_voltages exA_final) 2 /\
    col (signal_times s') 0 = col (signal_times exA_final) 2 /\
    col (integrated_charges s') 0 = col (integrated_charges exA_final) 2 /\
    col (is_over_threshold s') 0 = col (is_over_threshold exA_final) 2.
Proof.
  exact (run_analysis_row_independent exA_config exA_waveforms exA_final 2
           [-5; -6; -10; 0; 0; 1; -1; 1; -1]%Z exA_run eq_refl).
Defined.

End RowByRow.

(** ** A waveform without a signal *)

Section FlatWaveform.

Lemma getitem_In {A : Type} (l : list A) (k : Z) (x : A) :
  Np.getitem l k = Some x -> In x l.
Proof.
  unfold Np.getitem. destruct (0 <=? k)%Z; [apply nth_error_In|].
  destruct (- Z.of_nat (length l) <=? k)%Z; [apply nth_error_In | discriminate].
Qed.

(** A window holds samples of its row only. *)
Lemma take_Forall {A : Type} (P : A -> Prop) (l : list A) (bins : list Z) (w : list A) :
  Np.take l bins = Some w -> Forall P l -> Forall P w.
Proof.
  intros H F. unfold Np.take in H. revert w H.
  induction bins as [|k bins IH]; intros w H.
  - inversion H. constructor.
  - cbn [mapM] in H. apply bind_Some in H. destruct H as [x [Hx H]].
    apply bind_Some in H. destruct H as [xs [Hxs H]]. inversion H. subst w.
    constructor; [|apply IH; exact Hxs].
    rewrite Forall_forall in F. apply F. apply (getitem_In _ _ _ Hx).
Qed.

Lemma sum_const (x : R) (w : list R) :
  Forall (eq x) w -> Np.sum w = INR (length w) * x.
Proof.
  induction 1 as [|y w E _ IH].
  - unfold Np.sum. simpl. ring.
  - subst y. rewrite sum_cons, IH.
    change (length (x :: w)) with (S (length w)). rewrite S_INR. ring.
Qed.

Lemma mean_const (x : R) (w : list R) :
  Forall (eq x) w -> w <> [] -> Np.mean w = x.
Proof.
  intros F N. unfold Np.mean. rewrite (sum_const x w F).
  assert (L : INR (length w) <> 0).
  { apply not_0_INR. destruct w; [congruence | discriminate]. }
  field. exact L.
Qed.

Lemma std_const (x : R) (w : list R) :
  Forall (eq x) w -> w <> [] -> Np.std w = 0.
Proof.
  intros F N. unfold Np.std. rewrite (mean_const x w F N).
  rewrite (mean_const 0).
  - apply sqrt_0.
  - apply Forall_map. apply (Forall_impl _ (P := eq x)); [|exact F].
    intros y E. subst y. ring.
  - destruct w; [congruence | discriminate].
Qed.

Lemma argmax_from_const (b : R) (bi i : nat) (l : list R) :
  Forall (eq b) l -> Np.argmax_from b bi i l = bi.
Proof.
  intros F. revert i. induction F as [|y l E _ IH]; intros i; [reflexivity|].
  subst y. cbn [Np.argmax_from]. rewrite ltb_false by lra. apply IH.
Qed.

Lemma sum_masked_zero (amp : list R) (mask : list bool) :
  Forall (eq 0) amp -> Np.sum (Np.map2 masked amp mask) = 0.
Proof.
  intros F. revert mask. induction F as [|y amp E _ IH]; intros [|m mask];
    try (unfold Np.sum; simpl; reflexivity).
  subst y. cbn [Np.map2]. rewrite sum_cons, IH. unfold masked. ring.
Qed.

(** X19.  A flat waveform.  When [run_analysis] succeeds on a batch and one
    of its waveforms has the same count [v] in every sample, that waveform
    gets the pedestal [v * voltage_scale] with sigma 0, corrected amplitudes
    that are all 0, its peak at the first sample of the analysis window with
    voltage 0, the signal time [time_offset], the charge 0, and the flag
    [0 > threshold]. *)
Theorem flat_waveform (c : Config) (w : list (list Z)) (s1 : WaveformAnalysis)
    (k : nat) (v : Z) (M : nat) :
  run_analysis (fresh c w) = Some s1 ->
  nth_error w k = Some (repeat v M) ->
  col (amplitudes s1) k = Some (repeat 0 M) /\
  col (pedestals s1) k = Some (IZR v * voltage_scale c) /\
  col (pedestal_sigmas s1) k = Some 0 /\
  col (peak_locations s1) k = Some 0%nat /\
  col (peak_times s1) k
    = Some (IZR (fst (analysis_window c)) + 0.5 * IZR (ns_per_sample c)) /\
  col (peak_voltages s1) k = Some 0 /\
  col (signal_times s1) k = Some (time_offset c) /\
  col (integrated_charges s1) k = Some 0 /\
  col (is_over_threshold s1) k = Some (Np.gtb 0 (threshold c)).
Proof.
  intros H Hraw.
  destruct (run_analysis_row_lookup c w s1 k _ H Hraw)
    as (amp & ped & sig & loc & t & pv & tm & fb & Hrow & Hpeak & Htime & Hfb &
        Ca & Cp & Cs & Cl & Ct & Cv & Cst & Cq & Co).
  destruct (find_pedestals_row_inv _ _ _ _ _ Hrow) as (pw & Tp & Np & Eamp & Eped & Esig).
  set (x := IZR v * voltage_scale c) in *.
  assert (Fp : Forall (eq x) pw).
  { apply (take_Forall _ _ _ _ Tp). rewrite map_repeat. apply Forall_forall.
    intros y Hy. apply repeat_spec in Hy. subst y. reflexivity. }
  rewrite (mean_const x pw Fp Np) in Eped, Eamp.
  rewrite (std_const x pw Fp Np) in Esig. subst ped sig.
  assert (Eamp0 : amp = repeat 0 M).
  { rewrite Eamp, map_repeat. f_equal. fold x. ring. }
  clear Eamp. subst amp.
  assert (F0 : Forall (eq 0) (repeat 0 M)).
  { apply Forall_forall. intros y Hy. apply repeat_spec in Hy. subst y. reflexivity. }
  destruct (find_peaks_row_inv _ _ _ _ _ Hpeak) as (aw & Ta & Aa & Na & Et).
  pose proof (take_Forall _ _ _ _ Ta F0) as Fa.
  assert (Eloc : loc = 0%nat).
  { destruct aw as [|a0 aw]; [discriminate|]. cbn [Np.argmax] in Aa.
    inversion Fa as [|? ? E0 Fa']. subst.
    rewrite (argmax_from_const 0 0 1 aw Fa') in Aa. congruence. }
  subst loc.
  assert (Epv : pv = 0).
  { apply nth_error_In in Na. rewrite Forall_forall in Fa. symmetry. apply Fa, Na. }
  subst pv.
  cbn [signal_time_row Nat.eqb] in Htime. inversion Htime. subst tm.
  rewrite Ca, Cp, Cs, Cl, Ct, Cv, Cst, Cq, Co.
  repeat split.
  - rewrite Et. do 2 f_equal. simpl. ring.
  - f_equal. ring.
  - f_equal. unfold charge_row. rewrite (sum_masked_zero _ _ F0). ring.
Qed.

(** [flat_waveform] on a batch of two flat waveforms. *)
Lemma flat_waveform_witness :
  exists s1,
    run_analysis (fresh exA_config [repeat 7%Z 9; repeat (-3)%Z 9]) = Some s1 /\
    col (amplitudes s1) 1 = Some (repeat 0 9) /\
    col (pedestals s1) 1 = Some (IZR (-3) * voltage_scale exA_config) /\
    col (pedestal_sigmas s1) 1 = Some 0 /\
    col (peak_locations s1) 1 = Some 0%nat /\
    col (peak_times s1) 1
      = Some (IZR (fst (analysis_window exA_config))
              + 0.5 * IZR (ns_per_sample exA_config)) /\
    col (peak_voltages s1) 1 = Some 0 /\
    col (signal_times s1) 1 = Some (time_offset exA_config) /\
    col (integrated_charges s1) 1 = Some 0 /\
    col (is_over_threshold s1) 1 = Some (Np.gtb 0 (threshold exA_config)).
Proof.
  destruct (run_analysis_total exA_config [repeat 7%Z 9; repeat (-3)%Z 9] 9 exA_valid)
    as [s1 H1].
  - repeat constructor.
  - exists s1. split; [exact H1|].
    exact (flat_waveform exA_config _ s1 1 (-3) 9 H1 eq_refl).
Defined.

End FlatWaveform.

(** ** The bins of a window *)

Section WindowBins.

Lemma range_In (a b j : Z) : In j (Np.range a b) <-> (a <= j < b)%Z.
Proof.
  unfold Np.range. rewrite in_map_iff. split.
  - intros (n & E & Hn). apply in_seq in Hn. lia.
  - intros H. exists (Z.to_nat (j - a)). split; [lia | apply in_seq; lia].
Qed.

Lemma floor_div_le (a n j : Z) : (0 < n)%Z -> (a / n <= j <-> a < (j + 1) * n)%Z.
Proof.
  intros Hn. split; intros H.
  - pose proof (Z.mul_succ_div_gt a n Hn). nia.
  - assert (a / n < j + 1)%Z by (apply Z.div_lt_upper_bound; lia). lia.
Qed.

Lemma floor_div_gt (b n j : Z) : (0 < n)%Z -> (j < b / n <-> (j + 1) * n <= b)%Z.
Proof.
  intros Hn. split; intros H.
  - pose proof (Z.mul_div_le b n Hn). nia.
  - assert (j + 1 <= b / n)%Z by (apply Z.div_le_lower_bound; lia). lia.
Qed.

(** X20.  Which samples a window holds.  With a positive [ns_per_sample],
    [__init__] puts sample [j] (which spans the times from [j * ns_per_sample]
    to [(j + 1) * ns_per_sample]) into the bins of a window [(t0, t1)] exactly
    when the end of the sample lies in [(t0, t1]]: a sample that straddles
    the start of the window is in, one that straddles its end is out. *)
Theorem init_window_bins (w : list (list Z)) (thr : R) (aw pw : Z * Z) (rp : bool)
    (nsps : Z) (vs toff : R) (s : WaveformAnalysis) (j : Z) :
  init w thr aw pw rp nsps vs toff = Some s ->
  (0 < nsps)%Z ->
  (In j (analysis_bins (config s)) <-> (fst aw < (j + 1) * nsps <= snd aw)%Z) /\
  (In j (pedestal_bins (config s)) <-> (fst pw < (j + 1) * nsps <= snd pw)%Z).
Proof.
  intros H Hn. apply init_fresh in H. destruct H as (_ & Ea & Ep).
  rewrite Ea, Ep, !range_In.
  pose proof (floor_div_le (fst aw) nsps j Hn).
  pose proof (floor_div_gt (snd aw) nsps j Hn).
  pose proof (floor_div_le (fst pw) nsps j Hn).
  pose proof (floor_div_gt (snd pw) nsps j Hn).
  tauto.
Qed.

(** [init_window_bins] on the worked batch with the windows [1, 9) and
    [10, 18) ns and sample 4, which spans 8 to 10 ns. *)
Lemma init_window_bins_witness :
  exists s,
    init exA_waveforms 0.01 (1, 9)%Z (10, 18)%Z true 2 1 0 = Some s /\
    (In 4%Z (analysis_bins (config s)) <-> (1 < (4 + 1) * 2 <= 9)%Z) /\
    (In 4%Z (pedestal_bins (config s)) <-> (10 < (4 + 1) * 2 <= 18)%Z).
Proof.
  eexists. split; [reflexivity|].
  apply (init_window_bins exA_waveforms 0.01 (1, 9)%Z (10, 18)%Z true 2 1 0 _ 4%Z);
    [reflexivity | lia].
Defined.

End WindowBins.
